(** * finance_ml.features.importance: feature-importance estimators

    A shallow embedding of [src/finance_ml/features/importance.py]
    (MDI, MDA, SFI and the orchestrator [feat_importance]) together with
    the properties its specification states.

    Numeric model.  NumPy's float64 is modelled by [float]: an exact
    rational ([Qc], canonical rationals with Leibniz equality), a signed
    infinity, or NaN.  Arithmetic follows IEEE 754 for the special values
    (x/0, inf-inf, 0*inf, ...) and is exact on finite values: rounding,
    overflow of finite results and the sign of zero are not modelled.
    [np.sqrt] on finite non-negative values is a parameter of the
    development.

    pandas model.  A [DataFrame] is a row count and an ordered list of
    labelled columns; a [Series] is a list of cells.  Reductions
    ([.sum()], [.mean()], [.std()]) skip NaN as pandas does.  Column labels
    are assumed pairwise distinct wherever a theorem needs it ([NoDup]
    hypotheses).

    Effects.  The functions run in a state-and-exception monad [M] over a
    store of frame objects (so that copies, views and in-place writes are
    visible), NumPy's global random state and a trace of the calls made to
    the classifier.

    Code outside the module.  NumPy, scikit-learn and the purged k-fold
    splitter are parameters ([Externals]).  [cv_score] and [mp_pandas_obj]
    belong to the package and not to this module; they are modelled from
    the specification, and their definitions say so. *)

From Stdlib Require Import ZArith QArith Qcanon Lia Lqa.
From stdpp Require Import base tactics option list strings sets.

Local Open Scope Qc_scope.

(** ** float64 values *)

Inductive float : Type :=
| Fin (q : Qc)
| Inf (neg : bool)
| NaN.

Definition Qc_eqb (a b : Qc) : bool := Qc_eq_bool a b.
Definition Qc_ltb (a b : Qc) : bool :=
  match a ?= b with Lt => true | _ => false end.

Definition is_zero (q : Qc) : bool := Qc_eqb q 0.
Definition is_neg (q : Qc) : bool := Qc_ltb q 0.

Definition Qc_of_nat (n : nat) : Qc := Q2Qc (inject_Z (Z.of_nat n)).

Definition fneg (x : float) : float :=
  match x with
  | Fin q => Fin (- q)
  | Inf s => Inf (negb s)
  | NaN => NaN
  end.

Definition fadd (x y : float) : float :=
  match x, y with
  | Fin a, Fin b => Fin (a + b)
  | Fin _, Inf s => Inf s
  | Inf s, Fin _ => Inf s
  | Inf s, Inf t => if Bool.eqb s t then Inf s else NaN
  | _, _ => NaN
  end.

Definition fsub (x y : float) : float := fadd x (fneg y).

Definition fmul (x y : float) : float :=
  match x, y with
  | Fin a, Fin b => Fin (a * b)
  | Fin a, Inf s => if is_zero a then NaN else Inf (xorb s (is_neg a))
  | Inf s, Fin a => if is_zero a then NaN else Inf (xorb s (is_neg a))
  | Inf s, Inf t => Inf (xorb s t)
  | _, _ => NaN
  end.

Definition fdiv (x y : float) : float :=
  match x, y with
  | Fin a, Fin b =>
      if is_zero b then (if is_zero a then NaN else Inf (is_neg a))
      else Fin (a / b)
  | Fin _, Inf _ => Fin 0
  | Inf s, Fin b => Inf (xorb s (is_neg b))
  | _, _ => NaN
  end.

Definition is_finite (x : float) : bool :=
  match x with Fin _ => true | _ => false end.

Definition isna (x : float) : bool :=
  match x with NaN => true | _ => false end.

Definition notna (x : float) : bool := negb (isna x).

(** [x == 0] on cells, as used by [DataFrame.replace(0, np.nan)]. *)
Definition feq0 (x : float) : bool :=
  match x with Fin q => is_zero q | _ => false end.

(** ** pandas reductions over a column (NaN skipped) *)

Abbreviation Series := (list float).

Definition fsum (l : list float) : float := foldr fadd (Fin 0) l.

Definition dropna (l : Series) : list float := filter (fun x => notna x = true) l.

(** [Series.sum()]: the sum of the non-missing cells, 0 if there is none. *)
Definition series_sum (l : Series) : float := fsum (dropna l).

(** Arithmetic mean of a list of values; NaN for the empty list. *)
Definition mean_of (v : list float) : float :=
  match length v with
  | O => NaN
  | n => fdiv (fsum v) (Fin (Qc_of_nat n))
  end.

(** [Series.mean()]: the mean of the non-missing cells. *)
Definition series_mean (l : Series) : float := mean_of (dropna l).

Definition fsquare (x : float) : float := fmul x x.

(** Sample variance with [ddof] delta degrees of freedom, two passes as
    in pandas' [nanvar]; NaN when there are not more than [ddof] values. *)
Definition var_of (ddof : nat) (v : list float) : float :=
  let count := length v in
  if decide (count <= ddof)%nat then NaN
  else
    let avg := fdiv (fsum v) (Fin (Qc_of_nat count)) in
    let sqr := fsum (map (fun x => fsquare (fsub avg x)) v) in
    fdiv sqr (Fin (Qc_of_nat (count - ddof))).

(** ** Frames *)

(** A pandas [DataFrame] with float cells: [df_nrows] is [shape[0]],
    [df_cols] the labelled columns in order (each of length [df_nrows]). *)
Record DataFrame : Type := mkDF {
  df_nrows : nat;
  df_cols : list (string * Series)
}.

Definition columns (df : DataFrame) : list string := map fst (df_cols df).

Definition map_cells (f : float -> float) (df : DataFrame) : DataFrame :=
  mkDF (df_nrows df) (map (fun c => (fst c, map f (snd c))) (df_cols df)).

(** [pd.DataFrame(index=np.arange(n), columns=cols)]: every cell missing. *)
Definition empty_frame (n : nat) (cols : list string) : DataFrame :=
  mkDF n (map (fun c => (c, replicate n NaN)) cols).

(** [pd.Series(index=np.arange(n))]. *)
Definition empty_series (n : nat) : Series := replicate n NaN.

(** [df.loc[idx, col] = v] for an existing row position and column label:
    the cell of every column carrying the label is overwritten. *)
Definition set_loc (idx : nat) (col : string) (v : float) (df : DataFrame)
  : DataFrame :=
  mkDF (df_nrows df)
       (map (fun c => if decide (fst c = col) then (fst c, <[idx := v]> (snd c))
                      else c)
            (df_cols df)).

(** [df.add(s, axis=0)]: the series is aligned with the rows and added to
    every column. *)
Definition add_rows (df : DataFrame) (s : Series) : DataFrame :=
  mkDF (df_nrows df)
       (map (fun c => (fst c, zip_with fadd (snd c) s)) (df_cols df)).

(** [a / b] for two frames carrying the same labels: cell by cell. *)
Definition div_frames (a b : DataFrame) : DataFrame :=
  mkDF (df_nrows a)
       (zip_with (fun ca cb => (fst ca, zip_with fdiv (snd ca) (snd cb)))
                 (df_cols a) (df_cols b)).

(** Positional row selection [df.iloc[rows]] with a list of positions;
    [None] stands for pandas' [IndexError] on a position out of range.
    The result is a new object. *)
Definition take_rows {A} (rows : list nat) (l : list A) : option (list A) :=
  mapM (fun i => l !! i) rows.

Fixpoint take_cols (rows : list nat) (cs : list (string * Series))
  : option (list (string * Series)) :=
  match cs with
  | [] => Some []
  | (name, v) :: cs' =>
      match take_rows rows v, take_cols rows cs' with
      | Some v', Some cs'' => Some ((name, v') :: cs'')
      | _, _ => None
      end
  end.

Definition iloc (rows : list nat) (df : DataFrame) : option DataFrame :=
  if forallb (fun i => Nat.ltb i (df_nrows df)) rows then
    match take_cols rows (df_cols df) with
    | Some cs => Some (mkDF (length rows) cs)
    | None => None
    end
  else None.

(** [df[[name]]]: the sub-frame of the columns labelled [name]. *)
Definition select_col (name : string) (df : DataFrame) : DataFrame :=
  mkDF (df_nrows df) (filter (fun c => fst c = name) (df_cols df)).

(** The values of the first column labelled [name]. *)
Fixpoint col_values (name : string) (cs : list (string * Series))
  : option Series :=
  match cs with
  | [] => None
  | (n, v) :: cs' => if decide (n = name) then Some v else col_values name cs'
  end.

(** Overwrite the values of the first column labelled [name]. *)
Fixpoint set_col (name : string) (v : Series) (cs : list (string * Series))
  : list (string * Series) :=
  match cs with
  | [] => []
  | (n, w) :: cs' =>
      if decide (n = name) then (n, v) :: cs' else (n, w) :: set_col name v cs'
  end.

(** The number of columns that carry the label [name]. *)
Definition label_count (name : string) (cs : list (string * Series)) : nat :=
  length (filter (fun c => fst c = name) cs).

(** ** Importance reports *)

(** One row of a report: the ['mean'] and ['std'] cells of a feature. *)
Record ImpRow : Type := mkRow { r_mean : float; r_std : float }.

(** A report: rows indexed by feature name, columns ['mean'] and ['std']. *)
Abbreviation Report := (list (string * ImpRow)).

Definition report_means (r : Report) : Series := map (fun x => r_mean (snd x)) r.

(** [imp / d] (every cell of both columns divided by the scalar). *)
Definition report_div (r : Report) (d : float) : Report :=
  map (fun x => (fst x, mkRow (fdiv (r_mean (snd x)) d) (fdiv (r_std (snd x)) d))) r.

(** Row lookup by feature name. *)
Fixpoint report_get (name : string) (r : Report) : option ImpRow :=
  match r with
  | [] => None
  | (n, row) :: r' => if decide (n = name) then Some row else report_get name r'
  end.

(** [imp.loc[name, 'mean'] = v]: overwrite the cell if the row exists,
    otherwise append a row whose other cell is missing. *)
Fixpoint report_set_mean (name : string) (v : float) (r : Report) : Report :=
  match r with
  | [] => [(name, mkRow v NaN)]
  | (n, row) :: r' =>
      if decide (n = name) then (n, mkRow v (r_std row)) :: r'
      else (n, row) :: report_set_mean name v r'
  end.

Fixpoint report_set_std (name : string) (v : float) (r : Report) : Report :=
  match r with
  | [] => [(name, mkRow NaN v)]
  | (n, row) :: r' =>
      if decide (n = name) then (n, mkRow (r_mean row) v) :: r'
      else (n, row) :: report_set_std name v r'
  end.

(** ** Exceptions and the monad *)

Inductive exn : Type :=
| InvalidConfiguration          (* [Exception('wrong scoring method')] *)
| TypeError (what : string)     (* a call that does not match a signature *)
| IndexError                    (* positional index out of range *)
| ValueError                    (* length mismatch on [imp_df.columns = ...] *)
| AttributeError (attr : string)
| KeyError (label : string)
| UnboundLocalError (var : string)
| DanglingRef.                  (* model only: a frame reference not in the store *)

Inductive result (A : Type) : Type :=
| Ok (a : A)
| Raise (e : exn).
Arguments Ok {A} a.
Arguments Raise {A} e.

(** ** External collaborators

    What the module imports and does not define: NumPy ([np.sqrt],
    [np.random.shuffle] on the global random state), the scikit-learn
    classifier and metrics, and the purged k-fold splitter.  They are
    assumed to return (their own failures would propagate unchanged) and
    to read the frames they are given without writing to them. *)

Abbreviation Labels := (list Z).
Abbreviation Weights := (option (list float)).
Abbreviation Fold := (list nat * list nat)%type.

Class Externals : Type := {
  (** [np.sqrt] on a finite non-negative value *)
  sqrt : Qc -> Qc;
  (** NumPy's global random state and [np.random.shuffle] *)
  RNG : Type;
  shuffle : Series -> RNG -> Series * RNG;
  (** classifier objects (hyper-parameters) and fitted state *)
  Clf : Type;
  Model : Type;
  fit : Clf -> DataFrame -> Labels -> Weights -> RNG -> Model * RNG;
  predict : Model -> DataFrame -> Labels;
  predict_proba : Model -> DataFrame -> list Series;
  classes_ : Model -> Labels;
  (** [forest.estimators_] as the list of the trees'
      [feature_importances_]; [None] when the attribute is absent *)
  estimators_ : Model -> option (list Series);
  (** [oob_score_], [None] when [hasattr] is false *)
  oob_score_ : Model -> option float;
  set_n_jobs : Z -> Clf -> Clf;
  (** [BaggingClassifier(DecisionTreeClassifier(..., min_w_leaf),
      n_estimators, max_samples, n_jobs)] *)
  bagging : float -> nat -> float -> Z -> Clf;
  (** [sklearn.metrics] *)
  log_loss : Labels -> list Series -> Weights -> Labels -> float;
  accuracy_score : Labels -> Labels -> Weights -> float;
  (** the [t1] argument (event spans, or Python's [None]) and
      [PurgedKFold(n_splits, t1, pct_embargo).split(X)] *)
  Spans : Type;
  no_spans : Spans;
  split : nat -> Spans -> float -> DataFrame -> list Fold;
  (** [.mean()] and [.std()] of the score vector that [cv_score] returns
      (the class of that vector is decided outside this module) *)
  scores_mean : Series -> float;
  scores_std : Series -> float
}.

Definition fsqrt_with (sqrt : Qc -> Qc) (x : float) : float :=
  match x with
  | Fin q => if is_neg q then NaN else Fin (sqrt q)
  | Inf false => Inf false
  | _ => NaN
  end.

Definition fsqrt `{Externals} (x : float) : float := fsqrt_with sqrt x.

(** [Series.std()] (pandas, [ddof=1]) over the non-missing cells. *)
Definition std_of `{Externals} (ddof : nat) (v : list float) : float :=
  fsqrt (var_of ddof v).

Definition series_std `{Externals} (l : Series) : float := std_of 1 (dropna l).

(** [np.sqrt(n)] for a row count. *)
Definition sqrt_nat `{Externals} (n : nat) : float := fsqrt (Fin (Qc_of_nat n)).

(** ** Store, trace and the monad *)

Abbreviation loc := nat.

Inductive event : Type :=
| EvFit (X : loc)              (* [clf.fit(X, ...)] *)
| EvPredict (X : loc)          (* [clf_fit.predict(X)] *)
| EvPredictProba (X : loc)     (* [clf_fit.predict_proba(X)] *)
| EvSetNJobs (n : Z).          (* [clf.n_jobs = n] *)

Record state `{Externals} : Type := mkState {
  heap : list DataFrame;
  rng : RNG;
  trace : list event
}.
Arguments mkState {_} _ _ _.

Section Monad.
Context `{Externals}.

Definition M (A : Type) : Type := state -> result A * state.

Definition ret {A} (a : A) : M A := fun s => (Ok a, s).

Definition bind {A B} (m : M A) (k : A -> M B) : M B :=
  fun s => match m s with
           | (Ok a, s') => k a s'
           | (Raise e, s') => (Raise e, s')
           end.

Definition raise {A} (e : exn) : M A := fun s => (Raise e, s).

(** Allocation of a new frame object. *)
Definition alloc (df : DataFrame) : M loc :=
  fun s => (Ok (length (heap s)), mkState (heap s ++ [df]) (rng s) (trace s)).

Definition read (l : loc) : M DataFrame :=
  fun s => match heap s !! l with
           | Some df => (Ok df, s)
           | None => (Raise DanglingRef, s)
           end.

(** In-place update of the frame object at [l]. *)
Definition write (l : loc) (df : DataFrame) : M unit :=
  fun s => (Ok tt, mkState (<[l := df]> (heap s)) (rng s) (trace s)).

Definition log (e : event) : M unit :=
  fun s => (Ok tt, mkState (heap s) (rng s) (trace s ++ [e])).

(** A call that draws from the global random state. *)
Definition random {A} (f : RNG -> A * RNG) : M A :=
  fun s => let '(a, g) := f (rng s) in (Ok a, mkState (heap s) g (trace s)).

Definition lift_option {A} (e : exn) (o : option A) : M A :=
  match o with Some a => ret a | None => raise e end.

Definition lift_result {A} (r : result A) : M A :=
  match r with Ok a => ret a | Raise e => raise e end.
End Monad.

Notation "'do' x <- m ; k" := (bind m (fun x => k))
  (at level 10, x name, m at level 100, k at level 200,
   format "'[v' 'do'  x  <-  m ; '/' k ']'").
Notation "'do' ' p <- m ; k" := (bind m (fun x => match x with p => k end))
  (at level 10, p pattern, m at level 100, k at level 200,
   format "'[v' 'do'  ' p  <-  m ; '/' k ']'").
Notation "m ;; k" := (bind m (fun _ => k))
  (at level 100, k at level 200, right associativity).

Section Loops.
Context `{Externals}.

(** [for x in xs: acc = body(acc, x)] *)
Fixpoint foldM {A B} (body : B -> A -> M B) (xs : list A) (acc : B) : M B :=
  match xs with
  | [] => ret acc
  | x :: xs' => do acc' <- body acc x; foldM body xs' acc'
  end.
End Loops.

(** ** Mean decrease impurity: [feat_imp_MDI] *)

Section MDI.
Context `{Externals}.

(** [pd.DataFrame.from_dict(imp_dict, orient='index')]: one row per tree.
    The frame has as many columns as the longest row; shorter rows are
    padded with missing cells.  The result is given column by column. *)
Definition n_columns (rows : list Series) : nat :=
  foldr Nat.max 0%nat (map length rows).

Definition column_of (rows : list Series) (j : nat) : Series :=
  map (fun r => nth j r NaN) rows.

Definition from_dict_index (rows : list Series) : list Series :=
  map (column_of rows) (seq 0 (n_columns rows)).

(** [imp_df.columns = feat_names]: [ValueError] on a length mismatch. *)
Definition set_columns (names : list string) (cols : list Series)
  : result (list (string * Series)) :=
  if decide (length names = length cols) then Ok (zip names cols)
  else Raise ValueError.

(** [imp_df.replace(0, np.nan)] on one column. *)
Definition replace0 (v : Series) : Series :=
  map (fun x => if feq0 x then NaN else x) v.

(** Lines 31-33: the ['mean'] and ['std'] columns before normalisation. *)
Definition mdi_table (n_trees : nat) (cols : list (string * Series)) : Report :=
  map (fun c => (fst c, mkRow (series_mean (snd c))
                              (fmul (series_std (snd c)) (sqrt_nat n_trees))))
      cols.

Definition feat_imp_MDI (forest : Model) (feat_names : list string)
  : result Report :=
  match estimators_ forest with
  | None => Raise (AttributeError "estimators_")
  | Some imp_dict =>
      match set_columns feat_names (from_dict_index imp_dict) with
      | Raise e => Raise e
      | Ok imp_df =>
          let imp_df := map (fun c => (fst c, replace0 (snd c))) imp_df in
          let imp := mdi_table (length imp_dict) imp_df in
          Ok (report_div imp (series_sum (report_means imp)))
      end
  end.
End MDI.

(** ** Calls on stored objects *)

Section Primitives.
Context `{Externals}.

(** [scoring not in ['neg_log_loss', 'accuracy']] is [negb (valid_scoring _)]. *)
Definition valid_scoring (scoring : string) : bool :=
  bool_decide (scoring ∈ ["neg_log_loss"; "accuracy"]).

(** [clf.fit(X, y, sample_weight=w)]; the fit may draw random numbers.
    [fit] returns the classifier object itself, now fitted; the fitted
    state is passed on as a value, which agrees with the object as long as
    it is read before the same object is fitted again, as every read in
    this module is. *)
Definition clf_fit (clf : Clf) (lX : loc) (y : Labels) (w : Weights) : M Model :=
  do X <- read lX;
  do m <- random (fit clf X y w);
  log (EvFit lX);;
  ret m.

Definition clf_predict (m : Model) (lX : loc) : M Labels :=
  do X <- read lX;
  log (EvPredict lX);;
  ret (predict m X).

Definition clf_predict_proba (m : Model) (lX : loc) : M (list Series) :=
  do X <- read lX;
  log (EvPredictProba lX);;
  ret (predict_proba m X).

(** [X.iloc[rows]] with an index array: a new frame object. *)
Definition df_iloc (lX : loc) (rows : list nat) : M loc :=
  do X <- read lX;
  do X' <- lift_option IndexError (iloc rows X);
  alloc X'.

(** [y.iloc[rows]] on a series held by value. *)
Definition series_iloc {A} (rows : list nat) (v : list A) : M (list A) :=
  lift_option IndexError (take_rows rows v).

(** [sample_weight.iloc[rows].values if sample_weight is not None else None] *)
Definition weights_iloc (rows : list nat) (w : Weights) : M Weights :=
  match w with
  | None => ret None
  | Some v => do v' <- series_iloc rows v; ret (Some v')
  end.

(** [X.copy(deep=True)]: a new frame object with the same cells. *)
Definition df_copy (lX : loc) : M loc :=
  do X <- read lX;
  alloc X.

(** [X[[name]]]: a new frame object. *)
Definition df_select (lX : loc) (name : string) : M loc :=
  do X <- read lX;
  alloc (select_col name X).

(** [np.random.shuffle(X[col].values)].  When one column carries the
    label, [X[col]] is that column and its values are a view on the frame
    object, which is therefore updated in place.  When several columns
    carry it, [X[col]] is a sub-frame whose values are a new array: the
    shuffle works on that array and the frame object is left as it is (the
    random state advances as for any array of that many rows). *)
Definition shuffle_column (lX : loc) (col : string) : M unit :=
  do X <- read lX;
  do v <- lift_option (KeyError col) (col_values col (df_cols X));
  do v' <- random (shuffle v);
  if decide (label_count col (df_cols X) = 1%nat) then
    write lX (mkDF (df_nrows X) (set_col col v' (df_cols X)))
  else ret tt.

(** Lines 81-89 and 95-103: the score of a fitted classifier on a test
    frame. *)
Definition score (scoring : string) (fitted : Model) (lX : loc)
           (y_test : Labels) (w_test : Weights) : M float :=
  if decide (scoring = "neg_log_loss") then
    do prob <- clf_predict_proba fitted lX;
    ret (fneg (log_loss y_test prob w_test (classes_ fitted)))
  else
    do pred <- clf_predict fitted lX;
    ret (accuracy_score y_test pred w_test).
End Primitives.

(** ** Mean decrease accuracy: [feat_imp_MDA] *)

Section MDA.
Context `{Externals}.

(** Lines 91-103: the body of [for col in X.columns]. *)
Definition mda_permute (scoring : string) (fitted : Model) (X_test : loc)
           (y_test : Labels) (w_test : Weights) (idx : nat)
           (scores_perm : DataFrame) (col : string) : M DataFrame :=
  do X_test_ <- df_copy X_test;
  shuffle_column X_test_ col;;
  do s <- score scoring fitted X_test_ y_test w_test;
  ret (set_loc idx col s scores_perm).

(** Lines 67-103: the body of the loop over the folds. *)
Definition mda_fold (clf : Clf) (lX : loc) (y : Labels)
           (sample_weight : Weights) (scoring : string)
           (acc : Series * DataFrame) (it : nat * Fold)
  : M (Series * DataFrame) :=
  let '(scores, scores_perm) := acc in
  let '(idx, (train, test)) := it in
  do X_train <- df_iloc lX train;
  do y_train <- series_iloc train y;
  do w_train <- weights_iloc train sample_weight;
  do X_test <- df_iloc lX test;
  do y_test <- series_iloc test y;
  do w_test <- weights_iloc test sample_weight;
  do fitted <- clf_fit clf X_train y_train w_train;
  do s <- score scoring fitted X_test y_test w_test;
  let scores := <[idx := s]> scores in
  do X <- read lX;
  do scores_perm <-
    foldM (mda_permute scoring fitted X_test y_test w_test idx)
          (columns X) scores_perm;
  ret (scores, scores_perm).

(** Lines 63-103: the two score tables. *)
Definition mda_scores (clf : Clf) (lX : loc) (y : Labels) (n_splits : nat)
           (t1 : Spans) (sample_weight : Weights) (pct_embargo : float)
           (scoring : string) : M (Series * DataFrame) :=
  do X <- read lX;
  let index := seq 0 n_splits in
  let scores := empty_series n_splits in
  let scores_perm := empty_frame n_splits (columns X) in
  foldM (mda_fold clf lX y sample_weight scoring)
        (zip index (split n_splits t1 pct_embargo X))
        (scores, scores_perm).

(** Lines 105-111: [imp = imprv / max_imprv]. *)
Definition mda_ratio (scoring : string) (scores : Series)
           (scores_perm : DataFrame) : DataFrame :=
  let imprv := add_rows (map_cells fneg scores_perm) scores in
  let max_imprv :=
    if decide (scoring = "neg_log_loss") then map_cells fneg scores_perm
    else map_cells (fsub (Fin 1)) scores_perm in
  div_frames imprv max_imprv.

(** Lines 112-113. *)
Definition mda_report (imp : DataFrame) : Report :=
  map (fun c => (fst c, mkRow (series_mean (snd c))
                              (fmul (series_std (snd c))
                                    (sqrt_nat (df_nrows imp)))))
      (df_cols imp).

Definition feat_imp_MDA (clf : Clf) (lX : loc) (y : Labels) (n_splits : nat)
           (t1 : Spans) (sample_weight : Weights) (pct_embargo : float)
           (scoring : string) : M (Report * float) :=
  if negb (valid_scoring scoring) then raise InvalidConfiguration
  else
    do '(scores, scores_perm) <-
      mda_scores clf lX y n_splits t1 sample_weight pct_embargo scoring;
    let imp := mda_ratio scoring scores scores_perm in
    ret (mda_report imp, series_mean scores).
End MDA.

(** ** Cross-validation scores: [cv_score] *)

Section CvScore.
Context `{Externals}.

(** A splitter object [PurgedKFold(n_splits, t1, pct_embargo)]. *)
Record Splitter : Type := PurgedKFold {
  sp_n_splits : nat;
  sp_t1 : Spans;
  sp_pct_embargo : float
}.

Definition splitter_split (g : Splitter) (X : DataFrame) : list Fold :=
  split (sp_n_splits g) (sp_t1 g) (sp_pct_embargo g) X.

(** Modelled from the spec: one fold of [cv_score], a fit on the train
    partition and a score on the untouched test partition (the same steps
    as lines 68-89 of [feat_imp_MDA]). *)
Definition cv_fold (clf : Clf) (lX : loc) (y : Labels)
           (sample_weight : Weights) (scoring : string)
           (scores : Series) (fold : Fold) : M Series :=
  let '(train, test) := fold in
  do X_train <- df_iloc lX train;
  do y_train <- series_iloc train y;
  do w_train <- weights_iloc train sample_weight;
  do X_test <- df_iloc lX test;
  do y_test <- series_iloc test y;
  do w_test <- weights_iloc test sample_weight;
  do fitted <- clf_fit clf X_train y_train w_train;
  do s <- score scoring fitted X_test y_test w_test;
  ret (scores ++ [s]).

(** Modelled from the spec: [finance_ml.model_selection.cv_score] is
    imported by the module and not among its sources.  Following the
    specification (sections 4.1, 4.4 and 7) it rejects an unknown
    scoring name before any fold runs, uses the splitter it is given or
    builds one from the fold count, event spans and embargo fraction, and
    returns one score per fold, each from a fit on the train partition
    and a score on the test partition.  The specification gives the
    purging flag no behaviour; it is accepted and not used. *)
Definition cv_score (clf : Clf) (lX : loc) (y : Labels)
           (sample_weight : Weights) (scoring : string)
           (cv_gen : option Splitter) (n_splits : nat) (t1 : Spans)
           (pct_embargo : float) (purging : bool) : M Series :=
  if negb (valid_scoring scoring) then raise InvalidConfiguration
  else
    let cv_gen := match cv_gen with
                  | Some g => g
                  | None => PurgedKFold n_splits t1 pct_embargo
                  end in
    do X <- read lX;
    foldM (cv_fold clf lX y sample_weight scoring)
          (splitter_split cv_gen X) [].
End CvScore.

(** ** Single feature importance: [feat_imp_SFI] *)

Section SFI.
Context `{Externals}.

(** Lines 148-157: the body of [for feat_name in X.columns]. *)
Definition sfi_feature (clf : Clf) (lX : loc) (y : Labels)
           (sample_weight : Weights) (scoring : string) (n_splits : nat)
           (t1 : Spans) (cv_gen : option Splitter) (pct_embargo : float)
           (purging : bool) (imp : Report) (feat_name : string) : M Report :=
  do X1 <- df_select lX feat_name;
  do scores <- cv_score clf X1 y sample_weight scoring cv_gen n_splits t1
                        pct_embargo purging;
  let imp := report_set_mean feat_name (scores_mean scores) imp in
  let imp := report_set_std feat_name
               (fmul (scores_std scores) (sqrt_nat (length scores))) imp in
  ret imp.

Definition feat_imp_SFI (clf : Clf) (lX : loc) (y : Labels)
           (sample_weight : Weights) (scoring : string) (n_splits : nat)
           (t1 : Spans) (cv_gen : option Splitter) (pct_embargo : float)
           (purging : bool) : M Report :=
  do X <- read lX;
  foldM (sfi_feature clf lX y sample_weight scoring n_splits t1 cv_gen
                     pct_embargo purging)
        (columns X) [].
End SFI.

(** ** Keyword calls and the parallel dispatcher *)

Section Orchestrator.
Context `{Externals}.

(** The container [cont]: labels ['size'], weights ['w'], spans ['t1']. *)
Record Cont : Type := mkCont {
  cont_size : Labels;
  cont_w : Series;
  cont_t1 : Spans
}.

(** Python values passed by keyword through the dispatcher. *)
Inductive pyval : Type :=
| PNone
| PBool (b : bool)
| PInt (n : nat)
| PFloat (x : float)
| PStr (s : string)
| PNames (l : list string)
| PLabels (y : Labels)
| PSeries (v : Series)
| PSpans (t : Spans)
| PFrame (l : loc)
| PClf (c : Clf)
| PCont (c : Cont)
| PSplitter (g : Splitter).

Definition kwargs := list (string * pyval).

Fixpoint kw_get (name : string) (kw : kwargs) : option pyval :=
  match kw with
  | [] => None
  | (n, v) :: kw' => if decide (n = name) then Some v else kw_get name kw'
  end.

(** A signature: parameter names with their default, if any. *)
Definition signature := list (string * option pyval).

(** Binding of a call that passes keyword arguments only to a
    signature, as Python does it: a keyword that names no parameter is a
    [TypeError], then a parameter with neither an argument nor a default is
    a [TypeError]. *)
Fixpoint unexpected_keyword (sig : signature) (kw : kwargs) : option string :=
  match kw with
  | [] => None
  | (n, _) :: kw' =>
      if decide (n ∈ map fst sig) then unexpected_keyword sig kw' else Some n
  end.

Fixpoint bind_params (sig : signature) (kw : kwargs) : result kwargs :=
  match sig with
  | [] => Ok []
  | (p, dflt) :: sig' =>
      match kw_get p kw, dflt with
      | Some v, _ | None, Some v =>
          match bind_params sig' kw with
          | Ok b => Ok ((p, v) :: b)
          | Raise e => Raise e
          end
      | None, None => Raise (TypeError ("missing required argument " ++ p))
      end
  end.

Definition bind_call (sig : signature) (kw : kwargs) : result kwargs :=
  match unexpected_keyword sig kw with
  | Some n => Raise (TypeError ("unexpected keyword argument " ++ n))
  | None => bind_params sig kw
  end.

(** Line 117-118: [def feat_imp_SFI(clf, X, y, sample_weight=None,
    scoring='neg_log_loss', n_splits=3, t1=None, cv_gen=None,
    pct_embargo=0, purging=True)]. *)
Definition feat_imp_SFI_signature : signature :=
  [ ("clf", None); ("X", None); ("y", None);
    ("sample_weight", Some PNone);
    ("scoring", Some (PStr "neg_log_loss"));
    ("n_splits", Some (PInt 3));
    ("t1", Some PNone);
    ("cv_gen", Some PNone);
    ("pct_embargo", Some (PFloat (Fin 0)));
    ("purging", Some (PBool true)) ].

(** [feat_imp_SFI] called with the keyword arguments [kw].  Once the
    arguments are bound they are passed on at the types the body uses them
    at; a value of another class is reported as a [TypeError] here. *)
Definition call_feat_imp_SFI (kw : kwargs) : M Report :=
  do b <- lift_result (bind_call feat_imp_SFI_signature kw);
  match kw_get "clf" b, kw_get "X" b, kw_get "y" b,
        kw_get "sample_weight" b, kw_get "scoring" b, kw_get "n_splits" b,
        kw_get "t1" b, kw_get "cv_gen" b, kw_get "pct_embargo" b,
        kw_get "purging" b with
  | Some (PClf clf), Some (PFrame lX), Some (PLabels y),
    Some sw, Some (PStr scoring), Some (PInt n_splits),
    Some t1, Some cv_gen, Some (PFloat pct_embargo), Some (PBool purging) =>
      match (match sw with
             | PNone => Some None
             | PSeries v => Some (Some v)
             | _ => None
             end),
            (match t1 with
             | PNone => Some no_spans
             | PSpans t => Some t
             | _ => None
             end),
            (match cv_gen with
             | PNone => Some None
             | PSplitter g => Some (Some g)
             | _ => None
             end) with
      | Some sample_weight, Some t1, Some cv_gen =>
          feat_imp_SFI clf lX y sample_weight scoring n_splits t1 cv_gen
                       pct_embargo purging
      | _, _, _ => raise (TypeError "argument of an unexpected class")
      end
  | _, _, _, _, _, _, _, _, _, _ =>
      raise (TypeError "argument of an unexpected class")
  end.

(** Modelled from the spec: [finance_ml.multiprocessing.mp_pandas_obj]
    is imported by the module and not among its sources.  Following the
    specification (sections 4.4, 5 and 6) it is
    [map(function, arg_name, values, worker_count, shared_kwargs)]: one
    task per value, each task calling the function with the value under
    the keyword [arg_name] and with the shared keyword arguments; the
    per-task tables are concatenated, and a failing task fails the whole
    computation.  The tasks are independent, so they are run here one
    after the other. *)
Definition mp_pandas_obj (func : kwargs -> M Report) (arg_name : string)
           (values : list string) (num_threads : nat) (shared : kwargs)
  : M Report :=
  foldM (fun out v =>
           do r <- func ((arg_name, PNames [v]) :: shared);
           ret (out ++ r))
        values [].

(** The out-of-sample score returned by the orchestrator: a scalar on
    the MDI and MDA paths, the score vector of [cv_score] on the SFI path
    (line 189 takes no mean).

    In the calls of [cv_score] below, the arguments the source leaves to
    [cv_score]'s defaults are written out: the purging flag, which the
    model of [cv_score] does not use, and, on the SFI path, the fold count,
    spans and embargo, which are not used either once a splitter is
    passed. *)
Inductive Oos : Type :=
| OosScalar (x : float)
| OosScores (v : Series).

Definition feat_importance (lX : loc) (cont : Cont) (clf : option Clf)
           (n_estimators n_splits : nat) (max_samples : float)
           (num_threads : nat) (pct_embargo : float) (scoring method : string)
           (min_w_leaf : float) : M (Report * option float * Oos) :=
  let n_jobs := if Nat.ltb 1 num_threads then (-1)%Z else 1%Z in
  let clf := match clf with
             | None => bagging min_w_leaf n_estimators max_samples n_jobs
             | Some c => c
             end in
  do fit_clf <- clf_fit clf lX (cont_size cont) (Some (cont_w cont));
  let oob := oob_score_ fit_clf in
  do X <- read lX;
  do '(imp, oos) <-
    (if decide (method = "MDI") then
       do imp <- lift_result (feat_imp_MDI fit_clf (columns X));
       do scores <- cv_score clf lX (cont_size cont) (Some (cont_w cont))
                             scoring None n_splits (cont_t1 cont)
                             pct_embargo true;
       ret (Some imp, Some (OosScalar (scores_mean scores)))
     else if decide (method = "MDA") then
       do '(imp, oos) <- feat_imp_MDA clf lX (cont_size cont) n_splits
                                      (cont_t1 cont) (Some (cont_w cont))
                                      pct_embargo scoring;
       ret (Some imp, Some (OosScalar oos))
     else if decide (method = "SFI") then
       let cv_gen := PurgedKFold n_splits (cont_t1 cont) pct_embargo in
       do oos <- cv_score clf lX (cont_size cont) (Some (cont_w cont))
                          scoring (Some cv_gen) 3 no_spans (Fin 0) true;
       log (EvSetNJobs 1);;
       let clf := set_n_jobs 1 clf in
       do imp <- mp_pandas_obj call_feat_imp_SFI "feat_names" (columns X)
                               num_threads
                               [ ("clf", PClf clf); ("X", PFrame lX);
                                 ("cont", PCont cont);
                                 ("scoring", PStr scoring);
                                 ("cv_gen", PSplitter cv_gen) ];
       ret (Some imp, Some (OosScores oos))
     else ret (None, None));
  (* [return imp, oob, oos]: a local that no branch assigned is an
     [UnboundLocalError]. *)
  match imp, oos with
  | None, _ => raise (UnboundLocalError "imp")
  | Some imp, None => raise (UnboundLocalError "oos")
  | Some imp, Some oos => ret (imp, oob, oos)
  end.
End Orchestrator.

(** ** A small concrete environment

    A deterministic stand-in for the external collaborators, used to run
    the functions on concrete inputs: a threshold classifier on the first
    column, reversal as the shuffle, contiguous folds, and a rational
    approximation of the square root. *)

Module Toy.
Definition qc (n : Z) (d : positive) : Qc := Q2Qc (n # d).

(** sqrt(n/d) = sqrt(n*d)/d, to three decimal places. *)
Definition toy_sqrt (q : Qc) : Qc :=
  let n := Qnum (this q) in
  let d := Qden (this q) in
  Q2Qc (Z.sqrt (n * Z.pos d * 1000000) # (d * 1000)).

Record model : Type := mkModel {
  m_default : Z;
  m_importances : option (list Series);
  m_oob : option float
}.

Definition first_column (X : DataFrame) : Series :=
  match df_cols X with
  | [] => replicate (df_nrows X) NaN
  | c :: _ => snd c
  end.

Definition toy_fit (clf : Z) (X : DataFrame) (y : Labels) (w : Weights) (g : nat)
  : model * nat :=
  let k := length (df_cols X) in
  (mkModel (hd 0%Z y)
           (Some [ Fin 1 :: replicate (k - 1) (Fin 0);
                   replicate k (Fin (Qc_of_nat 1 / Qc_of_nat k)) ])
           (Some (Fin (qc 3 4))),
   S g).

Definition toy_predict (m : model) (X : DataFrame) : Labels :=
  map (fun x => match x with
                | Fin q => if is_neg q then 0%Z else 1%Z
                | _ => m_default m
                end)
      (first_column X).

Definition toy_predict_proba (m : model) (X : DataFrame) : list Series :=
  map (fun l => if decide (l = 0%Z) then [Fin (qc 3 4); Fin (qc 1 4)]
                else [Fin (qc 1 4); Fin (qc 3 4)])
      (toy_predict m X).

Definition count_equal (a b : Labels) : nat :=
  length (filter (fun p => fst p = snd p) (zip a b)).

Definition toy_accuracy_score (y pred : Labels) (w : Weights) : float :=
  fdiv (Fin (Qc_of_nat (count_equal y pred))) (Fin (Qc_of_nat (length y))).

(** A rational proxy for the log-loss: the mean probability given to
    the wrong class. *)
Definition toy_log_loss (y : Labels) (prob : list Series) (w : Weights)
           (classes : Labels) : float :=
  mean_of (zip_with (fun l p => nth (if decide (l = 0%Z) then 1 else 0)%nat p NaN)
                    y prob).

(** [n] contiguous test blocks; the train partition is the rest. *)
Definition toy_split (n : nat) (t1 : unit) (pct : float) (X : DataFrame)
  : list Fold :=
  let N := df_nrows X in
  map (fun i =>
         let lo := (i * N / n)%nat in
         let hi := (S i * N / n)%nat in
         (filter (fun r => ¬ (lo <= r < hi)%nat) (seq 0 N), seq lo (hi - lo)))
      (seq 0 n).

Definition env : Externals := {|
  sqrt := toy_sqrt;
  RNG := nat;
  shuffle := fun v (g : nat) => (rev v, S g);
  Clf := Z;
  Model := model;
  fit := toy_fit;
  predict := toy_predict;
  predict_proba := toy_predict_proba;
  classes_ := fun _ => [0%Z; 1%Z];
  estimators_ := m_importances;
  oob_score_ := m_oob;
  set_n_jobs := fun n _ => n;
  bagging := fun _ _ _ n_jobs => n_jobs;
  log_loss := toy_log_loss;
  accuracy_score := toy_accuracy_score;
  Spans := unit;
  no_spans := tt;
  split := toy_split;
  scores_mean := mean_of;
  scores_std := fun v => fsqrt_with toy_sqrt (var_of 0 v)
|}.
#[local] Existing Instance env.

Definition f (n : Z) : float := Fin (qc n 1).

(** Four samples, three features; the label is the sign of feature A. *)
Definition X0 : DataFrame :=
  mkDF 4 [ ("A", [f 1; f (-1); f 2; f (-2)]);
           ("B", [f 5; f 6; f 7; f 8]);
           ("C", [f 0; f 1; f 0; f 1]) ].

Definition y0 : Labels := [1; 0; 1; 0]%Z.
Definition w0 : Series := [f 1; f 1; f 1; f 1].
Definition cont0 : Cont := mkCont y0 w0 tt.

Definition s0 : state := mkState [X0] 0%nat [].

(** The ensemble fitted on [X0] and the importance vectors of its trees. *)
Definition forest0 : Model := (toy_fit 0%Z X0 y0 None 0%nat).1.

(** A classifier prototype and the event spans. *)
Definition clf0 : Clf := 0%Z.
Definition t0 : Spans := tt.

(** A matrix of four samples and no feature column. *)
Definition X_empty : DataFrame := mkDF 4 [].
Definition s_empty : state := mkState [X_empty] 0%nat [].

(** Two fold-score tables: feature B keeps a perfect accuracy when it is
    permuted. *)
Definition scores1 : Series := [f 1; f 1].
Definition scores_perm1 : DataFrame :=
  mkDF 2 [("A", [f 0; Fin (qc 1 2)]); ("B", [f 1; f 1])].


Definition trees0 : list Series :=
  [ [Fin 1; Fin 0; Fin 0];
    [Fin (qc 1 3); Fin (qc 1 3); Fin (qc 1 3)] ].

(** An ensemble of two trees, neither of which splits on feature B. *)
Definition forest_unused : Model :=
  mkModel 0%Z (Some [ [Fin 1; Fin 0]; [Fin (qc 1 2); Fin 0] ]) None.

(** The trees of [forest0] in the opposite order. *)
Definition forest0_swapped : Model :=
  mkModel 1%Z
          (Some [ [Fin (qc 1 3); Fin (qc 1 3); Fin (qc 1 3)];
                  [Fin 1; Fin 0; Fin 0] ])
          None.
End Toy.

(** * Vocabulary of the statements *)

(** The rational sum of the finite cells of a column. *)
Fixpoint qsum (l : list float) : Qc :=
  match l with
  | [] => 0
  | Fin q :: l' => q + qsum l'
  | _ :: l' => qsum l'
  end.

Definition pos_or_nan (x : float) : Prop :=
  match x with Fin q => 0 < q | NaN => True | Inf _ => False end.

Definition pos_fin (x : float) : Prop :=
  match x with Fin q => 0 < q | _ => False end.

Definition nonneg_fin (x : float) : Prop :=
  match x with Fin q => 0 <= q | _ => False end.

(** The cells of a column that take part in the MDI aggregation: those
    that are neither missing nor zero. *)
Definition nonzero_cells (v : Series) : list float :=
  filter (fun x => feq0 x = false) (dropna v).

Section Closed_forms.
Context `{Externals}.

(** The report in closed form. *)
Definition mdi_row (rows : list Series) (S : float) (j : nat) : ImpRow :=
  let v := nonzero_cells (column_of rows j) in
  mkRow (fdiv (mean_of v) S)
        (fdiv (fmul (std_of 1 v) (sqrt_nat (length rows))) S).

Definition mdi_means (rows : list Series) (k : nat) : Series :=
  map (fun j => mean_of (nonzero_cells (column_of rows j))) (seq 0 k).

End Closed_forms.

(** ** Runs of the monad *)

Section Run_vocabulary.
Context `{Externals}.

(** [wp m Q s]: the run of [m] from [s] ends in a result and a state
    that satisfy [Q]. *)
Definition wp {A} (m : M A) (Q : result A -> state -> Prop) (s : state) : Prop :=
  Q (m s).1 (m s).2.

Definition is_ok {A} (r : result A) : Prop :=
  match r with Ok _ => True | Raise _ => False end.

(** An event is fresh for [n] when the frame it names, if any, was
    allocated at position [n] or later. *)
Definition event_fresh (n : nat) (e : event) : Prop :=
  match e with
  | EvFit l | EvPredict l | EvPredictProba l => (n <= l)%nat
  | EvSetNJobs _ => True
  end.

(** The frame [T'] differs from [T] in the cells of column [col] only. *)
Definition only_column_differs (col : string) (T T' : DataFrame) : Prop :=
  df_nrows T' = df_nrows T /\
  columns T' = columns T /\
  forall c, c <> col -> col_values c (df_cols T') = col_values c (df_cols T).

(** Every column of a frame has [df_nrows] cells. *)
Definition wf_frame (X : DataFrame) : Prop :=
  Forall (fun c => length c.2 = df_nrows X) (df_cols X).

(** The positions of a fold lie within [n] rows. *)
Definition fold_in_range (n : nat) (f : Fold) : Prop :=
  Forall (fun i => (i < n)%nat) f.1 /\ Forall (fun i => (i < n)%nat) f.2.

Definition weights_fit (n : nat) (w : Weights) : Prop :=
  match w with Some v => length v = n | None => True end.

(** [weights_iloc] as a pure function; [None] is the [IndexError]. *)
Definition weights_take (rows : list nat) (w : Weights) : option Weights :=
  match w with
  | None => Some None
  | Some v => Some <$> take_rows rows v
  end.

(** Two frames with the same row count, labels and column lengths. *)
Definition same_shape (a b : DataFrame) : Prop :=
  df_nrows b = df_nrows a /\
  map (fun c => (c.1, length c.2)) (df_cols b)
  = map (fun c => (c.1, length c.2)) (df_cols a).

(** The frame objects one fold of [feat_imp_MDA] leaves in the store: the
    train partition, the test partition, and one copy of the test
    partition per feature, which differs from it in that feature's column
    only. *)
Definition fold_frames (X : DataFrame) (fold : Fold) (block : list DataFrame)
  : Prop :=
  exists X_train X_test copies,
    iloc fold.1 X = Some X_train /\
    iloc fold.2 X = Some X_test /\
    block = X_train :: X_test :: copies /\
    Forall2 (fun col T' => only_column_differs col X_test T') (columns X) copies.

(** The "maximum possible improvement" of the specification: minus the
    permuted score for the log-loss scoring, one minus the permuted score
    for accuracy. *)
Definition max_improvement (scoring : string) (permuted : float) : float :=
  if decide (scoring = "accuracy") then fsub (Fin 1) permuted
  else fneg permuted.

(** The normalisation denominator of a finite permuted score [q] is not
    zero: [q] is not 1 under accuracy, not 0 under the log-loss scoring. *)
Definition nonzero_denominator (scoring : string) (q : Qc) : Prop :=
  if decide (scoring = "accuracy") then q <> 1 else q <> 0.

(** The report row [feat_imp_SFI] derives from the fold scores of one
    feature: their mean, and their std times sqrt(number of scores). *)
Definition sfi_row (scores : Series) : ImpRow :=
  mkRow (scores_mean scores)
        (fmul (scores_std scores) (sqrt_nat (length scores))).

(** The importance ratio of one fold and one feature. *)
Definition importance_ratio (scoring : string) (baseline permuted : float)
  : float :=
  fdiv (fsub baseline permuted) (max_improvement scoring permuted).

(** The splitter [cv_score] works with. *)
Definition cv_splitter (cv_gen : option Splitter) (n_splits : nat) (t1 : Spans)
           (pct : float) : Splitter :=
  match cv_gen with
  | Some g => g
  | None => PurgedKFold n_splits t1 pct
  end.

End Run_vocabulary.

(** ** Further vocabulary: shares, classifier calls, score values *)

(** A reported MDI mean: a share in (0, 1], or missing. *)
Definition share_or_nan (x : float) : Prop :=
  match x with Fin q => 0 < q /\ q <= 1 | NaN => True | Inf _ => False end.

(** The classifier call a scoring method makes on the frame at [l]:
    [predict_proba] for the log-loss scoring, [predict] otherwise. *)
Definition score_event (scoring : string) (l : loc) : event :=
  if decide (scoring = "neg_log_loss") then EvPredictProba l else EvPredict l.

(** The cell of row [i] in the first column labelled [c]. *)
Definition frame_cell (df : DataFrame) (c : string) (i : nat) : option float :=
  col_values c (df_cols df) ≫= (fun v => v !! i).

(** The classifier calls of one fold of [feat_imp_MDA] on a store whose
    next free position is [base], for [m] features: the fit on the train
    partition, then the scores of the test partition and of its [m]
    copies. *)
Definition fold_trace (scoring : string) (m base : nat) : list event :=
  EvFit base :: map (score_event scoring) (seq (S base) (S m)).

(** The classifier calls of [k] folds: each fold allocates its two
    partitions and [m] copies, so the next fold starts [2 + m] positions
    further. *)
Fixpoint mda_trace (scoring : string) (m base k : nat) : list event :=
  match k with
  | O => []
  | S k' => fold_trace scoring m base ++ mda_trace scoring m (base + (2 + m)) k'
  end.

Definition is_fit (e : event) : bool :=
  match e with EvFit _ => true | _ => false end.

Definition is_scoring_call (e : event) : bool :=
  match e with EvPredict _ | EvPredictProba _ => true | _ => false end.

Definition count_events (p : event -> bool) (evs : list event) : nat :=
  length (filter (fun e => p e = true) evs).

(** The best value of a score: accuracy 1, negated log-loss 0. *)
Definition best_score (scoring : string) : Qc :=
  if decide (scoring = "accuracy") then 1 else 0.

(** The number lines 107-111 divide an improvement by, for a finite
    permuted score [q]. *)
Definition ratio_denominator (scoring : string) (q : Qc) : Qc :=
  if decide (scoring = "accuracy") then 1 - q else - q.

Section Call_vocabulary.
Context `{Externals}.

(** The score lines 81-89 and 95-103 compute for a fitted classifier and
    a frame. *)
Definition score_value (scoring : string) (fitted : Model) (T : DataFrame)
           (y : Labels) (w : Weights) : float :=
  if decide (scoring = "neg_log_loss") then
    fneg (log_loss y (predict_proba fitted T) w (classes_ fitted))
  else accuracy_score y (predict fitted T) w.

(** The copy of the test partition [T] once [shuffle_column] has run on
    it with the shuffled values [v]: the column [col] replaced by [v] when
    no other column carries the label, [T] itself otherwise. *)
Definition shuffled_copy (col : string) (v : Series) (T : DataFrame)
  : DataFrame :=
  if decide (label_count col (df_cols T) = 1%nat) then
    mkDF (df_nrows T) (set_col col v (df_cols T))
  else T.

(** The random state before each pass of the loop over the features
    [cols] of a fold with test partition [T], from the state [g] the fit
    left: every pass makes one shuffle. *)
Fixpoint shuffle_rngs (T : DataFrame) (cols : list string) (g : RNG)
  : list RNG :=
  match cols with
  | [] => []
  | col :: cols' =>
      g :: shuffle_rngs T cols'
             (match col_values col (df_cols T) with
              | Some v => (shuffle v g).2
              | None => g
              end)
  end.

(** Lines 164-172: the classifier [feat_importance] works with, the one
    it is given or a bagging of decision trees. *)
Definition prototype (clf : option Clf) (n_estimators : nat)
           (max_samples : float) (num_threads : nat) (min_w_leaf : float) : Clf :=
  match clf with
  | None => bagging min_w_leaf n_estimators max_samples
                    (if Nat.ltb 1 num_threads then (-1)%Z else 1%Z)
  | Some c => c
  end.

(** Line 173: the model fitted on the full dataset, and the state that
    fit leaves. *)
Definition full_fit (proto : Clf) (X : DataFrame) (cont : Cont) (s : state)
  : Model :=
  (fit proto X (cont_size cont) (Some (cont_w cont)) (rng s)).1.

Definition after_full_fit (proto : Clf) (lX : loc) (X : DataFrame) (cont : Cont)
           (s : state) : state :=
  mkState (heap s)
          (fit proto X (cont_size cont) (Some (cont_w cont)) (rng s)).2
          (trace s ++ [EvFit lX]).

(** Inputs of [feat_importance] the cross-validation can run on: an
    accepted scoring name, a matrix whose columns have one cell per row,
    folds inside the matrix, one label and one weight per row. *)
Definition well_formed_inputs (X : DataFrame) (cont : Cont) (n_splits : nat)
           (pct : float) (scoring : string) : Prop :=
  (scoring = "neg_log_loss" \/ scoring = "accuracy") /\
  wf_frame X /\
  Forall (fold_in_range (df_nrows X)) (split n_splits (cont_t1 cont) pct X) /\
  length (cont_size cont) = df_nrows X /\
  length (cont_w cont) = df_nrows X.

End Call_vocabulary.

#[global] Instance nonzero_denominator_dec scoring q :
  Decision (nonzero_denominator scoring q).
Proof. unfold nonzero_denominator. destruct (decide (scoring = "accuracy")); apply _. Defined.

#[global] Instance nonneg_fin_dec x : Decision (nonneg_fin x).
Proof. destruct x; simpl; apply _. Defined.

#[global] Instance wf_frame_dec X : Decision (wf_frame X).
Proof. unfold wf_frame. apply _. Defined.

#[global] Instance fold_in_range_dec n f : Decision (fold_in_range n f).
Proof. unfold fold_in_range. apply _. Defined.

#[global] Instance weights_fit_dec n w : Decision (weights_fit n w).
Proof. destruct w; simpl; apply _. Defined.


(** * Properties *)

(** Stdlib's [map] and stdpp's [fmap] on lists are convertible; this turns
    the former into the latter so that stdpp's lemmas rewrite. *)
Ltac fmapify :=
  repeat match goal with
         | |- context [map ?f ?l] => change (map f l) with (f <$> l)
         | H : context [map ?f ?l] |- _ => change (map f l) with (f <$> l) in H
         end.

Lemma fmap_zip_with {A B C D} (g : C -> D) (f : A -> B -> C) l k :
  g <$> zip_with f l k = zip_with (fun a b => g (f a b)) l k.
Proof.
  revert k. induction l as [| a l IH]; intros [| b k]; simpl; try done.
  by rewrite <- IH.
Qed.

(** ** Rational and float arithmetic *)

Ltac qc2q :=
  unfold Qcdiv, Qcminus in *;
  unfold Qclt, Qcle, Qcplus, Qcmult, Qcinv, Qcopp, Q2Qc in *;
  cbn [this] in *;
  rewrite ?Qred_correct in *.

Lemma Qc_add_pos_nonneg a b : 0 < a -> 0 <= b -> 0 < a + b.
Proof. intros. qc2q. lra. Qed.

Lemma Qc_add_nonneg a b : 0 <= a -> 0 <= b -> 0 <= a + b.
Proof. intros. qc2q. lra. Qed.

Lemma Qc_div_pos a b : 0 < a -> 0 < b -> 0 < a / b.
Proof. intros. qc2q. apply Qlt_shift_div_l; lra. Qed.

Lemma Qc_pos_neq0 a : 0 < a -> a <> 0.
Proof. intros Ha E. subst. qc2q. lra. Qed.

Lemma Qc_nonneg_neq0_pos a : 0 <= a -> a <> 0 -> 0 < a.
Proof.
  intros Ha Hne. destruct (Qcle_lt_or_eq _ _ Ha) as [Hlt | Heq]; [done |].
  exfalso. apply Hne. symmetry. exact Heq.
Qed.

Lemma Qc_of_nat_pos n : (0 < n)%nat -> 0 < Qc_of_nat n.
Proof. intros. unfold Qc_of_nat. qc2q. unfold Qlt; simpl. lia. Qed.

Lemma is_zero_true q : is_zero q = true <-> q = 0.
Proof.
  unfold is_zero, Qc_eqb, Qc_eq_bool.
  destruct (Qcanon.Qc_eq_dec q 0); split; intros; done.
Qed.

Lemma is_zero_false q : is_zero q = false <-> q <> 0.
Proof.
  unfold is_zero, Qc_eqb, Qc_eq_bool.
  destruct (Qcanon.Qc_eq_dec q 0); split; intros; done.
Qed.

Lemma fadd_comm x y : fadd x y = fadd y x.
Proof.
  destruct x as [a | s |], y as [b | t |]; simpl; try reflexivity.
  - f_equal. ring.
  - destruct s, t; reflexivity.
Qed.

(** [(-p) + s] is [s - p]. *)
Lemma fadd_fneg_l p s : fadd (fneg p) s = fsub s p.
Proof. unfold fsub. apply fadd_comm. Qed.

Lemma fdiv_fin a b : b <> 0 -> fdiv (Fin a) (Fin b) = Fin (a / b).
Proof. intros Hb. simpl. apply is_zero_false in Hb. by rewrite Hb. Qed.

(** ** Sums and means of finite cells *)

Lemma dropna_cons x l :
  dropna (x :: l) = if isna x then dropna l else x :: dropna l.
Proof.
  unfold dropna. cbn [filter list_filter]. unfold notna.
  destruct (isna x); reflexivity.
Qed.

Lemma fsum_fin l :
  Forall (fun x => is_finite x = true) l -> fsum l = Fin (qsum l).
Proof.
  induction 1 as [| x l Hx _ IH]; [reflexivity |].
  destruct x; try discriminate. unfold fsum in *. simpl. by rewrite IH.
Qed.

Lemma series_sum_qsum l :
  Forall pos_or_nan l -> series_sum l = Fin (qsum l).
Proof.
  unfold series_sum. induction 1 as [| x l Hx _ IH]; [reflexivity |].
  rewrite dropna_cons. destruct x as [q | s |]; simpl in *; try done.
  unfold fsum in *. simpl. by rewrite IH.
Qed.

Lemma qsum_nonneg l : Forall pos_or_nan l -> 0 <= qsum l.
Proof.
  induction 1 as [| x l Hx _ IH]; simpl.
  - apply Qcle_refl.
  - destruct x; simpl in *; try done.
    apply Qc_add_nonneg; [by apply Qclt_le_weak | done].
Qed.

Lemma qsum_pos l :
  Forall pos_or_nan l -> Exists (fun x => is_finite x = true) l -> 0 < qsum l.
Proof.
  intros Hall Hex. induction Hex as [x l Hx | x l _ IH].
  - inversion_clear Hall as [| ? ? Hpx Hl]. destruct x; try discriminate.
    simpl in *. apply Qc_add_pos_nonneg; [done | by apply qsum_nonneg].
  - inversion_clear Hall as [| ? ? Hpx Hl]. specialize (IH Hl).
    destruct x; simpl in *; try done.
    rewrite Qcplus_comm. apply Qc_add_pos_nonneg; [done | by apply Qclt_le_weak].
Qed.

Lemma qsum_div l S :
  S <> 0 -> qsum (map (fun m => fdiv m (Fin S)) l) = qsum l / S.
Proof.
  intros HS. induction l as [| x l IH]; simpl.
  - field. done.
  - destruct x as [q | s |]; simpl.
    + apply is_zero_false in HS as HS'. rewrite HS'. simpl. rewrite IH. field. done.
    + done.
    + done.
Qed.

Lemma pos_or_nan_div l S :
  0 < S -> Forall pos_or_nan l ->
  Forall pos_or_nan (map (fun m => fdiv m (Fin S)) l).
Proof.
  intros HS. induction 1 as [| x l Hx _ IH]; simpl; constructor; try done.
  destruct x as [q | s |]; simpl in *; try done.
  assert (HS' : is_zero S = false) by by apply is_zero_false, Qc_pos_neq0.
  rewrite HS'. simpl. by apply Qc_div_pos.
Qed.

(** Dividing a column by its own (non-zero) sum makes it sum to one. *)
Lemma series_sum_normalised l :
  Forall pos_or_nan l -> Exists (fun x => is_finite x = true) l ->
  exists S, series_sum l = Fin S /\ 0 < S /\
            series_sum (map (fun m => fdiv m (Fin S)) l) = Fin 1.
Proof.
  intros Hall Hex. exists (qsum l).
  pose proof (qsum_pos l Hall Hex) as Hpos.
  split; [by apply series_sum_qsum |]. split; [done |].
  rewrite series_sum_qsum by by apply pos_or_nan_div.
  rewrite qsum_div by by apply Qc_pos_neq0.
  f_equal. field. by apply Qc_pos_neq0.
Qed.

(** The mean of positive finite values is a positive finite value. *)
Lemma mean_of_pos v : Forall pos_fin v -> v <> [] -> pos_fin (mean_of v).
Proof.
  intros Hall Hne. unfold mean_of.
  destruct v as [| x v]; [done |]. simpl length.
  assert (Hfin : Forall (fun x => is_finite x = true) (x :: v)).
  { eapply Forall_impl; [exact Hall |]. intros [] ?; done. }
  rewrite (fsum_fin _ Hfin).
  assert (Hn : 0 < Qc_of_nat (S (length v))) by (apply Qc_of_nat_pos; lia).
  rewrite fdiv_fin by by apply Qc_pos_neq0.
  unfold pos_fin. apply Qc_div_pos; [| done].
  apply qsum_pos.
  - eapply Forall_impl; [exact Hall |]. intros [] ?; done.
  - constructor. inversion_clear Hall as [| ? ? Hx _]. by destruct x.
Qed.

(** ** Mean decrease impurity *)

Section MDI_facts.
Context `{Externals}.

Lemma replace0_no_zero v : Forall (fun x => feq0 x = false) (replace0 v).
Proof.
  unfold replace0. apply Forall_fmap, Forall_forall. intros x _. simpl.
  destruct (feq0 x) eqn:E; done.
Qed.

(** After [replace(0, np.nan)] the NaN-skipping reductions see exactly
    the non-zero cells. *)
Lemma dropna_replace0 v : dropna (replace0 v) = nonzero_cells v.
Proof.
  unfold nonzero_cells. induction v as [| x v IH]; [reflexivity |].
  change (replace0 (x :: v)) with ((if feq0 x then NaN else x) :: replace0 v).
  rewrite !dropna_cons, IH.
  destruct (feq0 x) eqn:E.
  - simpl isna. cbv iota.
    destruct x as [q | s |]; try discriminate. simpl isna. cbv iota.
    cbn [filter list_filter]. destruct (decide _) as [E' | E']; [| done].
    congruence.
  - destruct x as [q | s |]; simpl isna; cbv iota; [| | done];
      cbn [filter list_filter]; (destruct (decide _) as [E' | E']; [done |]);
      congruence.
Qed.

Lemma series_mean_replace0 v :
  series_mean (replace0 v) = mean_of (nonzero_cells v).
Proof. unfold series_mean. by rewrite dropna_replace0. Qed.

Lemma series_std_replace0 v :
  series_std (replace0 v) = std_of 1 (nonzero_cells v).
Proof. unfold series_std. by rewrite dropna_replace0. Qed.

Lemma length_from_dict_index rows :
  length (from_dict_index rows) = n_columns rows.
Proof. unfold from_dict_index. by rewrite length_map, length_seq. Qed.

Lemma feat_imp_MDI_closed forest feat_names rows :
  estimators_ forest = Some rows ->
  length feat_names = n_columns rows ->
  feat_imp_MDI forest feat_names =
  Ok (zip_with (fun name j =>
                  (name, mdi_row rows
                           (series_sum (mdi_means rows (length feat_names))) j))
               feat_names (seq 0 (length feat_names))).
Proof.
  intros Hest Hlen. unfold feat_imp_MDI, set_columns. rewrite Hest.
  rewrite length_from_dict_index.
  destruct (decide (length feat_names = n_columns rows)); [| done].
  f_equal. unfold from_dict_index. rewrite <- Hlen.
  set (k := length feat_names).
  assert (Hmeans :
    report_means
      (mdi_table (length rows)
         (map (fun c => (c.1, replace0 c.2))
              (zip feat_names (map (column_of rows) (seq 0 k)))))
    = mdi_means rows k).
  { unfold report_means, mdi_table, mdi_means.
    rewrite !map_map. simpl.
    transitivity (map (fun v => series_mean (replace0 v))
                      (map snd (zip feat_names (map (column_of rows) (seq 0 k))))).
    { by rewrite map_map. }
    change (map snd ?l) with (l.*2).
    rewrite snd_zip by (rewrite length_map, length_seq; unfold k; lia).
    rewrite map_map. apply map_ext. intros j. apply series_mean_replace0. }
  rewrite Hmeans. unfold report_div, mdi_table. rewrite !map_map. simpl.
  fmapify. rewrite zip_with_fmap_r, fmap_zip_with.
  apply zip_with_ext; [| done | done].
  intros name j. unfold mdi_row.
  by rewrite series_mean_replace0, series_std_replace0.
Qed.
End MDI_facts.

Section MDI_theorems.
Context `{Externals}.

Lemma zip_with_ignore_l {A B C} (h : B -> C) (l : list A) (k : list B) :
  length l = length k -> zip_with (fun _ b => h b) l k = h <$> k.
Proof.
  revert k. induction l as [| a l IH]; intros [| b k] Hlen; simpl in *; try done.
  f_equal. apply IH. lia.
Qed.

Lemma report_means_closed (f : nat -> ImpRow) (names : list string) :
  report_means (zip_with (fun name j => (name, f j)) names (seq 0 (length names)))
  = map (fun j => r_mean (f j)) (seq 0 (length names)).
Proof.
  unfold report_means. fmapify. rewrite fmap_zip_with. simpl.
  apply zip_with_ignore_l. by rewrite length_seq.
Qed.

Lemma lookup_report_closed (f : nat -> ImpRow) (names : list string) j name :
  names !! j = Some name ->
  zip_with (fun name j => (name, f j)) names (seq 0 (length names)) !! j
  = Some (name, f j).
Proof.
  intros Hj. rewrite lookup_zip_with, Hj. simpl.
  rewrite lookup_seq_lt by by eapply lookup_lt_Some. done.
Qed.

(** C3: every zero cell of the per-tree importance table is turned into a
    missing cell before the aggregation, so the mean and the std of a
    feature are taken over the trees whose importance for it is non-zero
    only; the dispersion reported is that std times
    sqrt(number of trees) (then normalised like the mean), not the raw
    sample std. *)
Theorem mdi_aggregates_nonzero_cells forest feat_names rows :
  estimators_ forest = Some rows ->
  length feat_names = n_columns rows ->
  exists report S,
    feat_imp_MDI forest feat_names = Ok report /\
    length report = length feat_names /\
    S = series_sum (map (fun j => mean_of (nonzero_cells (column_of rows j)))
                        (seq 0 (length feat_names))) /\
    forall j name, feat_names !! j = Some name ->
      let used := nonzero_cells (column_of rows j) in
      report !! j =
      Some (name,
            mkRow (fdiv (mean_of used) S)
                  (fdiv (fmul (std_of 1 used) (sqrt_nat (length rows))) S)).
Proof.
  intros Hest Hlen. eexists _, _. split; [by apply feat_imp_MDI_closed |].
  split; [| split; [reflexivity |]].
  - rewrite length_zip_with_l_eq; [done | by rewrite length_seq].
  - intros j name Hj. simpl.
    by rewrite (lookup_report_closed _ _ _ _ Hj).
Qed.

Lemma n_columns_uniform (rows : list Series) k :
  rows <> [] -> Forall (fun r => length r = k) rows -> n_columns rows = k.
Proof.
  unfold n_columns. intros Hne Hall.
  destruct rows as [| r rows]; [done |]. clear Hne.
  inversion_clear Hall as [| ? ? Hr Hrows]. simpl. rewrite Hr.
  induction Hrows as [| r' rows Hr' _ IH]; simpl; lia.
Qed.

Lemma column_of_nonneg (rows : list Series) k j :
  (j < k)%nat ->
  Forall (fun r => length r = k) rows ->
  Forall (Forall nonneg_fin) rows ->
  Forall nonneg_fin (column_of rows j).
Proof.
  intros Hj Hlen Hnn. unfold column_of. fmapify. apply Forall_fmap.
  induction Hnn as [| r rows Hr _ IH]; [constructor |].
  inversion_clear Hlen as [| ? ? Hlr Hlrows].
  constructor; [| by apply IH]. simpl.
  rewrite Forall_forall in Hr. apply Hr.
  apply list_elem_of_In, nth_In. lia.
Qed.

Lemma nonzero_cells_pos v : Forall nonneg_fin v -> Forall pos_fin (nonzero_cells v).
Proof.
  intros Hv. unfold nonzero_cells, dropna.
  apply Forall_forall. intros x Hx.
  apply list_elem_of_filter in Hx as [Hnz Hx].
  apply list_elem_of_filter in Hx as [_ Hx].
  rewrite Forall_forall in Hv. specialize (Hv x Hx).
  destruct x as [q | |]; try done. simpl in *.
  apply Qc_nonneg_neq0_pos; [done |]. by apply is_zero_false.
Qed.

Lemma nonzero_cells_elem v x :
  x ∈ v -> isna x = false -> feq0 x = false -> x ∈ nonzero_cells v.
Proof.
  intros Hx Hna Hnz. unfold nonzero_cells, dropna.
  apply list_elem_of_filter. split; [done |].
  apply list_elem_of_filter. split; [| done]. unfold notna. by rewrite Hna.
Qed.

Lemma mdi_mean_pos_or_nan v :
  Forall nonneg_fin v -> pos_or_nan (mean_of (nonzero_cells v)).
Proof.
  intros Hv. pose proof (nonzero_cells_pos v Hv) as Hpos.
  destruct (nonzero_cells v) as [| x u] eqn:E; [done |].
  pose proof (mean_of_pos (x :: u) Hpos ltac:(done)) as Hm.
  by destruct (mean_of (x :: u)).
Qed.

Lemma mdi_mean_finite v :
  Forall nonneg_fin v -> nonzero_cells v <> [] ->
  is_finite (mean_of (nonzero_cells v)) = true.
Proof.
  intros Hv Hne. pose proof (mean_of_pos _ (nonzero_cells_pos v Hv) Hne) as Hm.
  by destruct (mean_of (nonzero_cells v)).
Qed.

Lemma mdi_means_pos_or_nan (rows : list Series) k :
  Forall (fun r => length r = k) rows ->
  Forall (Forall nonneg_fin) rows ->
  Forall pos_or_nan (mdi_means rows k).
Proof.
  intros Hlen Hnn. unfold mdi_means. fmapify. apply Forall_fmap, Forall_forall.
  intros j Hj. simpl. apply mdi_mean_pos_or_nan.
  apply (column_of_nonneg rows k); try done.
  apply elem_of_seq in Hj. lia.
Qed.

Lemma mdi_means_exists_finite (rows : list Series) k :
  Forall (fun r => length r = k) rows ->
  Forall (Forall nonneg_fin) rows ->
  Exists (Exists (fun x => feq0 x = false)) rows ->
  Exists (fun x => is_finite x = true) (mdi_means rows k).
Proof.
  intros Hlen Hnn Hex.
  apply Exists_exists in Hex as (r & Hr & Hex).
  apply Exists_exists in Hex as (x & Hx & Hnz).
  apply list_elem_of_lookup in Hx as [j Hj].
  rewrite Forall_forall in Hlen. pose proof (Hlen r Hr) as Hlr.
  assert (Hjk : (j < k)%nat) by (apply lookup_lt_Some in Hj; lia).
  apply Exists_exists. exists (mean_of (nonzero_cells (column_of rows j))).
  split.
  - unfold mdi_means. fmapify. apply list_elem_of_fmap. exists j.
    split; [done |]. apply elem_of_seq. lia.
  - apply mdi_mean_finite.
    + apply (column_of_nonneg rows k); try done. by apply Forall_forall.
    + assert (Hin : x ∈ nonzero_cells (column_of rows j)).
      { rewrite Forall_forall in Hnn. pose proof (Hnn r Hr) as Hnr.
        rewrite Forall_forall in Hnr.
        assert (Hxr : x ∈ r) by (apply list_elem_of_lookup; eauto).
        specialize (Hnr x Hxr).
        apply nonzero_cells_elem; [| by destruct x | done].
        unfold column_of. fmapify. apply list_elem_of_fmap. exists r.
        split; [| done]. symmetry. apply nth_lookup_Some with (d := NaN) in Hj.
        exact Hj. }
      intros E. rewrite E in Hin. by apply not_elem_of_nil in Hin.
Qed.

(** C2: for a fitted ensemble whose importance vectors (non-negative,
    one entry per feature) are not all zero, every mean and every std is
    divided by the sum of the means over all features, and the reported
    means sum to 1. *)
Theorem mdi_means_sum_to_one forest feat_names rows :
  estimators_ forest = Some rows ->
  Forall (fun r => length r = length feat_names) rows ->
  Forall (Forall nonneg_fin) rows ->
  Exists (Exists (fun x => feq0 x = false)) rows ->
  exists report S,
    feat_imp_MDI forest feat_names = Ok report /\
    series_sum (mdi_means rows (length feat_names)) = Fin S /\
    0 < S /\
    (forall j name, feat_names !! j = Some name ->
       report !! j = Some (name, mdi_row rows (Fin S) j)) /\
    series_sum (report_means report) = Fin 1.
Proof.
  intros Hest Hlen Hnn Hex.
  assert (Hne : rows <> []).
  { intros ->. by apply Exists_nil in Hex. }
  pose proof (n_columns_uniform rows _ Hne Hlen) as Hcols.
  destruct (series_sum_normalised (mdi_means rows (length feat_names)))
    as (S & HS & Hpos & Hone).
  { by apply mdi_means_pos_or_nan. }
  { by apply mdi_means_exists_finite. }
  eexists _, S. split; [by apply feat_imp_MDI_closed |].
  rewrite HS. repeat split; try done.
  - intros j name Hj. by apply lookup_report_closed.
  - rewrite report_means_closed. rewrite <- Hone.
    unfold mdi_means, mdi_row. by rewrite map_map.
Qed.

End MDI_theorems.


(** ** Reasoning about runs *)

Section Wp.
Context `{Externals}.

Lemma wp_elim {A} (m : M A) Q s r s' : m s = (r, s') -> wp m Q s -> Q r s'.
Proof. unfold wp. by intros ->. Qed.

Lemma wp_mono {A} (m : M A) (Q Q' : result A -> state -> Prop) s :
  wp m Q s -> (forall r s', Q r s' -> Q' r s') -> wp m Q' s.
Proof. unfold wp. auto. Qed.

Lemma wp_ret {A} (a : A) (Q : result A -> state -> Prop) s :
  Q (Ok a) s -> wp (ret a) Q s.
Proof. done. Qed.

Lemma wp_raise {A} e (Q : result A -> state -> Prop) s :
  Q (Raise e) s -> wp (raise e) Q s.
Proof. done. Qed.

Lemma wp_bind {A B} (m : M A) (k : A -> M B) Q s :
  wp m (fun r s1 => match r with
                    | Ok a => wp (k a) Q s1
                    | Raise e => Q (Raise e) s1
                    end) s ->
  wp (bind m k) Q s.
Proof. unfold wp, bind. by destruct (m s) as [[a | e] s1]. Qed.

Lemma wp_read l (Q : result DataFrame -> state -> Prop) s :
  match heap s !! l with
  | Some X => Q (Ok X) s
  | None => Q (Raise DanglingRef) s
  end ->
  wp (read l) Q s.
Proof. unfold wp, read. by destruct (heap s !! l). Qed.

Lemma wp_alloc df (Q : result loc -> state -> Prop) s :
  Q (Ok (length (heap s))) (mkState (heap s ++ [df]) (rng s) (trace s)) ->
  wp (alloc df) Q s.
Proof. done. Qed.

Lemma wp_write l df (Q : result unit -> state -> Prop) s :
  Q (Ok tt) (mkState (<[l := df]> (heap s)) (rng s) (trace s)) ->
  wp (write l df) Q s.
Proof. done. Qed.

Lemma wp_log e (Q : result unit -> state -> Prop) s :
  Q (Ok tt) (mkState (heap s) (rng s) (trace s ++ [e])) ->
  wp (log e) Q s.
Proof. done. Qed.

Lemma wp_random {A} (f : RNG -> A * RNG) (Q : result A -> state -> Prop) s :
  Q (Ok (f (rng s)).1) (mkState (heap s) (f (rng s)).2 (trace s)) ->
  wp (random f) Q s.
Proof. unfold wp, random. by destruct (f (rng s)). Qed.

Lemma wp_lift_option {A} e (o : option A) (Q : result A -> state -> Prop) s :
  match o with Some a => Q (Ok a) s | None => Q (Raise e) s end ->
  wp (lift_option e o) Q s.
Proof. by destruct o. Qed.

Lemma wp_lift_result {A} (r : result A) (Q : result A -> state -> Prop) s :
  Q r s -> wp (lift_result r) Q s.
Proof. by destruct r. Qed.

(** Loop rule: [Inv done acc s] holds after the items [done]. *)
Lemma wp_foldM {A B} (body : B -> A -> M B) (Inv : list A -> B -> state -> Prop)
      (Q : result B -> state -> Prop) xs acc s :
  Inv [] acc s ->
  (forall done x rest acc s,
     xs = done ++ x :: rest ->
     Inv done acc s ->
     wp (body acc x)
        (fun r s' => match r with
                     | Ok acc' => Inv (done ++ [x]) acc' s'
                     | Raise e => Q (Raise e) s'
                     end) s) ->
  (forall acc s, Inv xs acc s -> Q (Ok acc) s) ->
  wp (foldM body xs acc) Q s.
Proof.
  revert Inv acc s. induction xs as [| x xs IH]; intros Inv acc s H0 Hstep Hend.
  - simpl. apply wp_ret. by apply Hend.
  - simpl. apply wp_bind. eapply wp_mono; [by apply (Hstep [] x xs) |].
    intros [acc' | e] s' Hr; [| done]. simpl in Hr.
    apply (IH (fun done => Inv (x :: done))); [done | | done].
    intros done x' rest acc0 s0 -> Hinv. by apply (Hstep (x :: done) x' rest).
Qed.

End Wp.

(** ** Rejected scoring names *)

Section Scoring_check.
Context `{Externals}.

Lemma valid_scoring_false scoring :
  scoring ∉ ["neg_log_loss"; "accuracy"] -> valid_scoring scoring = false.
Proof. intros Hs. unfold valid_scoring. by apply bool_decide_eq_false. Qed.

Lemma cv_score_invalid clf lX y sw scoring cv_gen n_splits t1 pct purging s :
  valid_scoring scoring = false ->
  cv_score clf lX y sw scoring cv_gen n_splits t1 pct purging s
  = (Raise InvalidConfiguration, s).
Proof. intros Hs. unfold cv_score. by rewrite Hs. Qed.

(** C4 (amended): with a scoring name outside the two accepted ones,
    [feat_imp_MDA] fails with the configuration error in the state it was
    called in (no fold, no fit, nothing allocated); [feat_imp_SFI] fails
    with the same error, raised by [cv_score] for the first feature, with
    no classifier call and no random draw, provided the matrix has a
    feature column; on a matrix without columns it returns an empty
    report. *)
Theorem invalid_scoring_fails_fast clf lX X y n_splits t1 sw pct scoring
        cv_gen purging s :
  scoring ∉ ["neg_log_loss"; "accuracy"] ->
  heap s !! lX = Some X ->
  feat_imp_MDA clf lX y n_splits t1 sw pct scoring s
  = (Raise InvalidConfiguration, s) /\
  (columns X <> [] ->
   exists s',
     feat_imp_SFI clf lX y sw scoring n_splits t1 cv_gen pct purging s
     = (Raise InvalidConfiguration, s') /\
     trace s' = trace s /\ rng s' = rng s) /\
  (columns X = [] ->
   feat_imp_SFI clf lX y sw scoring n_splits t1 cv_gen pct purging s
   = (Ok [], s)).
Proof.
  intros Hs HX. apply valid_scoring_false in Hs. split; [| split].
  - unfold feat_imp_MDA. by rewrite Hs.
  - intros Hcols. unfold feat_imp_SFI, bind, read. rewrite HX.
    destruct (columns X) as [| c cs]; [done |]. simpl.
    unfold bind, sfi_feature, bind, df_select, bind, read. rewrite HX.
    unfold alloc. rewrite cv_score_invalid by done. eauto.
  - intros Hcols. unfold feat_imp_SFI, bind, read. rewrite HX, Hcols. done.
Qed.

End Scoring_check.

(** ** The orchestrator *)

Section Orchestrator_facts.
Context `{Externals}.

Lemma clf_fit_run clf lX X y w s :
  heap s !! lX = Some X ->
  clf_fit clf lX y w s
  = (Ok (fit clf X y w (rng s)).1,
     mkState (heap s) (fit clf X y w (rng s)).2 (trace s ++ [EvFit lX])).
Proof.
  intros HX. unfold clf_fit, bind, read, random, log, ret. rewrite HX.
  by destruct (fit clf X y w (rng s)).
Qed.

(** C10: with a method selector outside MDI, MDA and SFI the
    orchestrator fits the prototype on the full dataset and then fails at
    its [return] with an unbound-variable error: no branch assigned the
    report. *)
Theorem feat_importance_unknown_method lX X cont clf n_estimators n_splits
        max_samples num_threads pct_embargo scoring method min_w_leaf s :
  heap s !! lX = Some X ->
  method ∉ ["MDI"; "MDA"; "SFI"] ->
  exists g,
    feat_importance lX cont clf n_estimators n_splits max_samples num_threads
                    pct_embargo scoring method min_w_leaf s
    = (Raise (UnboundLocalError "imp"),
       mkState (heap s) g (trace s ++ [EvFit lX])).
Proof.
  intros HX Hm. unfold feat_importance.
  unfold bind at 1. rewrite (clf_fit_run _ _ X) by done.
  unfold bind at 1. unfold read. cbn [heap]. rewrite HX.
  destruct (decide (method = "MDI")) as [-> | _]; [set_solver |].
  destruct (decide (method = "MDA")) as [-> | _]; [set_solver |].
  destruct (decide (method = "SFI")) as [-> | _]; [set_solver |].
  unfold bind, ret, raise. eauto.
Qed.

Lemma dispatch_feat_imp_SFI_fails (v : pyval) (shared : kwargs) s :
  call_feat_imp_SFI (("feat_names", v) :: shared) s
  = (Raise (TypeError "unexpected keyword argument feat_names"), s).
Proof.
  unfold call_feat_imp_SFI, bind, bind_call. simpl unexpected_keyword. done.
Qed.

Lemma mp_pandas_obj_feat_imp_SFI_fails c cs num_threads shared s :
  mp_pandas_obj call_feat_imp_SFI "feat_names" (c :: cs) num_threads shared s
  = (Raise (TypeError "unexpected keyword argument feat_names"), s).
Proof.
  unfold mp_pandas_obj. simpl. unfold bind at 1. unfold bind at 1.
  by rewrite dispatch_feat_imp_SFI_fails.
Qed.

End Orchestrator_facts.


(** ** Frames and their primitives *)

Section Frame_facts.
Context `{Externals}.

Lemma take_rows_ok {A} (rows : list nat) (l : list A) :
  Forall (fun i => (i < length l)%nat) rows -> is_Some (take_rows rows l).
Proof.
  intros Hr. unfold take_rows. apply mapM_is_Some.
  eapply Forall_impl; [exact Hr |]. intros i Hi. simpl.
  by apply lookup_lt_is_Some.
Qed.

Lemma length_take_rows {A} (rows : list nat) (l l' : list A) :
  take_rows rows l = Some l' -> length l' = length rows.
Proof. intros Ht. symmetry. by eapply length_mapM. Qed.

Lemma take_cols_ok rows cs n :
  Forall (fun c => length c.2 = n) cs ->
  Forall (fun i => (i < n)%nat) rows ->
  is_Some (take_cols rows cs).
Proof.
  intros Hcs Hr. induction Hcs as [| [name v] cs Hv _ IH]; simpl; [done |].
  simpl in Hv. destruct (take_rows_ok rows v) as [v' ->].
  { by rewrite Hv. }
  by destruct IH as [cs' ->].
Qed.

Lemma take_cols_Some rows cs cs' :
  take_cols rows cs = Some cs' ->
  map fst cs' = map fst cs /\ Forall (fun c => length c.2 = length rows) cs'.
Proof.
  revert cs'. induction cs as [| [name v] cs IH]; intros cs' Ht; simpl in *.
  - by inversion Ht.
  - destruct (take_rows rows v) as [v' |] eqn:Ev; [| done].
    destruct (take_cols rows cs) as [cs'' |]; [| done].
    inversion Ht; subst. destruct (IH _ eq_refl) as [Hn Hl].
    simpl. split; [by rewrite Hn |]. constructor; [| done].
    simpl. by eapply length_take_rows.
Qed.

Lemma iloc_ok rows X :
  wf_frame X -> Forall (fun i => (i < df_nrows X)%nat) rows ->
  is_Some (iloc rows X).
Proof.
  intros Hwf Hr. unfold iloc.
  assert (Hb : forallb (fun i => Nat.ltb i (df_nrows X)) rows = true).
  { apply forallb_forall. intros i Hi. apply Nat.ltb_lt.
    rewrite Forall_forall in Hr. apply Hr. by apply list_elem_of_In. }
  rewrite Hb. by destruct (take_cols_ok rows (df_cols X) _ Hwf Hr) as [cs ->].
Qed.

Lemma iloc_Some rows X X' :
  iloc rows X = Some X' ->
  columns X' = columns X /\ df_nrows X' = length rows /\ wf_frame X'.
Proof.
  unfold iloc. destruct (forallb _ rows); [| done].
  destruct (take_cols rows (df_cols X)) as [cs |] eqn:Et; [| done].
  intros [= <-]. destruct (take_cols_Some _ _ _ Et) as [Hn Hl].
  unfold columns, wf_frame. simpl. done.
Qed.

Lemma col_values_is_Some col cs :
  col ∈ map fst cs -> is_Some (col_values col cs).
Proof.
  induction cs as [| [n v] cs IH]; simpl; intros Hin.
  - by apply elem_of_nil in Hin.
  - destruct (decide (n = col)); [done |].
    apply elem_of_cons in Hin as [-> | Hin]; [done | by apply IH].
Qed.

Lemma set_col_names col v cs : map fst (set_col col v cs) = map fst cs.
Proof.
  induction cs as [| [n w] cs IH]; simpl; [done |].
  destruct (decide (n = col)); simpl; [done | by rewrite IH].
Qed.

Lemma set_col_other col v cs c :
  c <> col -> col_values c (set_col col v cs) = col_values c cs.
Proof.
  intros Hc. induction cs as [| [n w] cs IH]; simpl; [done |].
  destruct (decide (n = col)) as [-> | Hn]; simpl.
  - destruct (decide (col = c)); [congruence | done].
  - destruct (decide (n = c)); [done | apply IH].
Qed.

(** Overwriting one column leaves every other column as it was. *)
Lemma set_col_only_column_differs col v T :
  only_column_differs col T (mkDF (df_nrows T) (set_col col v (df_cols T))).
Proof.
  unfold only_column_differs, columns. simpl. split; [done |].
  split; [apply set_col_names |]. intros c Hc. by apply set_col_other.
Qed.

Lemma same_shape_refl a : same_shape a a.
Proof. by unfold same_shape. Qed.

Lemma same_shape_trans a b c : same_shape a b -> same_shape b c -> same_shape a c.
Proof. unfold same_shape. intros [? ?] [? ?]. split; congruence. Qed.

Lemma set_loc_same_shape idx col v sp : same_shape sp (set_loc idx col v sp).
Proof.
  unfold same_shape, set_loc. simpl. split; [done |].
  rewrite map_map. apply map_ext. intros [n w]. cbn [fst snd].
  destruct (decide (n = col)); cbn [fst snd]; [| done]. by rewrite length_insert.
Qed.

Lemma same_shape_columns a b : same_shape a b -> columns b = columns a.
Proof.
  unfold same_shape, columns. intros [_ Hm].
  apply (f_equal (map fst)) in Hm. rewrite !map_map in Hm. exact Hm.
Qed.

Lemma insert_snoc {A} (l : list A) x y : <[length l := x]> (l ++ [y]) = l ++ [x].
Proof.
  replace (length l) with (length l + 0)%nat by lia.
  by rewrite insert_app_r.
Qed.

Lemma lookup_snoc {A} (l : list A) x : (l ++ [x]) !! length l = Some x.
Proof. by rewrite lookup_app_r, Nat.sub_diag. Qed.

End Frame_facts.

(** ** What a run leaves in the store and in the trace *)

Section Run_facts.
Context `{Externals}.

(** The score of a fitted classifier on a stored frame: one classifier
    call, nothing else changes. *)
Lemma score_run scoring fitted l T y w s :
  heap s !! l = Some T ->
  exists v ev,
    score scoring fitted l y w s
    = (Ok v, mkState (heap s) (rng s) (trace s ++ [ev])) /\
    (ev = EvPredict l \/ ev = EvPredictProba l).
Proof.
  intros Hl. unfold score.
  destruct (decide (scoring = "neg_log_loss")).
  - unfold bind, clf_predict_proba, bind, read, log, ret. rewrite Hl. eauto.
  - unfold bind, clf_predict, bind, read, log, ret. rewrite Hl. eauto.
Qed.

(** [shuffle_column] on a stored frame. *)
Lemma shuffle_column_run l col T v s :
  heap s !! l = Some T ->
  col_values col (df_cols T) = Some v ->
  shuffle_column l col s
  = (Ok tt, mkState (<[l := shuffled_copy col (shuffle v (rng s)).1 T]> (heap s))
                    (shuffle v (rng s)).2 (trace s)).
Proof.
  intros Hl Hcol. unfold shuffle_column, bind, read. rewrite Hl, Hcol. simpl.
  unfold random, shuffled_copy. destruct (shuffle v (rng s)) as [v' g'].
  cbn [fst snd heap rng trace].
  destruct (decide (label_count col (df_cols T) = 1%nat)); [done |].
  unfold ret. by rewrite list_insert_id.
Qed.

Lemma shuffle_column_no_column l col T s :
  heap s !! l = Some T ->
  col_values col (df_cols T) = None ->
  shuffle_column l col s = (Raise (KeyError col), s).
Proof.
  intros Hl Hcol. unfold shuffle_column, bind, read. by rewrite Hl, Hcol.
Qed.

Lemma shuffled_copy_only_column_differs col v T :
  only_column_differs col T (shuffled_copy col v T).
Proof.
  unfold shuffled_copy.
  destruct (decide (label_count col (df_cols T) = 1%nat)); [| done].
  apply set_col_only_column_differs.
Qed.

(** One feature of one fold: the test partition is copied into a new
    frame object, only that object is written to, and only in the column
    of the feature. *)
Lemma mda_permute_post scoring fitted X_test T y w idx sp col n s :
  heap s !! X_test = Some T -> (n <= length (heap s))%nat ->
  exists r s' T' evs,
    mda_permute scoring fitted X_test y w idx sp col s = (r, s') /\
    heap s' = heap s ++ [T'] /\
    only_column_differs col T T' /\
    trace s' = trace s ++ evs /\
    Forall (event_fresh n) evs /\
    (forall sp', r = Ok sp' -> exists v, sp' = set_loc idx col v sp) /\
    (col ∈ columns T -> is_ok r).
Proof.
  intros HT Hn. unfold mda_permute.
  unfold df_copy, bind, read, alloc. rewrite HT.
  destruct (col_values col (df_cols T)) as [v |] eqn:Ecol.
  - rewrite (shuffle_column_run _ _ T v) by first [apply lookup_snoc | done].
    cbn [heap rng trace]. rewrite insert_snoc.
    set (T' := shuffled_copy col (shuffle v (rng s)).1 T).
    set (s1 := mkState (heap s ++ [T']) _ (trace s)).
    destruct (score_run scoring fitted (length (heap s)) T' y w s1)
      as (sc & ev & Hrun & Hev).
    { apply lookup_snoc. }
    rewrite Hrun. unfold ret.
    eexists _, _, T', [ev]. split; [reflexivity |]. simpl.
    split_and!; try done.
    + apply shuffled_copy_only_column_differs.
    + constructor; [| done]. by destruct Hev as [-> | ->].
    + intros sp' [= <-]. eauto.
  - rewrite (shuffle_column_no_column _ _ T) by first [apply lookup_snoc | done].
    eexists _, _, T, []. split; [reflexivity |]. simpl.
    rewrite app_nil_r. split_and!; try done.
    intros Hin. destruct (col_values_is_Some col (df_cols T) Hin) as [v Hv].
    congruence.
Qed.

End Run_facts.

Section MDA_runs.
Context `{Externals}.

Lemma wp_df_iloc lX X rows (Q : result loc -> state -> Prop) s :
  heap s !! lX = Some X ->
  match iloc rows X with
  | Some X' => Q (Ok (length (heap s)))
                 (mkState (heap s ++ [X']) (rng s) (trace s))
  | None => Q (Raise IndexError) s
  end ->
  wp (df_iloc lX rows) Q s.
Proof.
  intros HX HQ. unfold df_iloc. apply wp_bind, wp_read. rewrite HX.
  apply wp_bind, wp_lift_option. destruct (iloc rows X); [| done].
  by apply wp_alloc.
Qed.

Lemma wp_series_iloc {A} rows (v : list A) (Q : result (list A) -> state -> Prop) s :
  match take_rows rows v with
  | Some v' => Q (Ok v') s
  | None => Q (Raise IndexError) s
  end ->
  wp (series_iloc rows v) Q s.
Proof. intros HQ. unfold series_iloc. by apply wp_lift_option. Qed.

Lemma wp_weights_iloc rows (w : Weights) (Q : result Weights -> state -> Prop) s :
  match weights_take rows w with
  | Some w' => Q (Ok w') s
  | None => Q (Raise IndexError) s
  end ->
  wp (weights_iloc rows w) Q s.
Proof.
  intros HQ. unfold weights_iloc. destruct w as [v |]; [| by apply wp_ret].
  apply wp_bind, wp_series_iloc. simpl in HQ.
  destruct (take_rows rows v); [| done]. by apply wp_ret.
Qed.

Lemma weights_take_ok rows (w : Weights) n :
  weights_fit n w -> Forall (fun i => (i < n)%nat) rows ->
  is_Some (weights_take rows w).
Proof.
  destruct w as [v |]; [| done]. simpl. intros <- Hr.
  by destruct (take_rows_ok rows v Hr) as [v' ->].
Qed.

Lemma wp_clf_fit clf l X y w (Q : result Model -> state -> Prop) s :
  heap s !! l = Some X ->
  Q (Ok (fit clf X y w (rng s)).1)
    (mkState (heap s) (fit clf X y w (rng s)).2 (trace s ++ [EvFit l])) ->
  wp (clf_fit clf l y w) Q s.
Proof. intros Hl HQ. unfold wp. by rewrite (clf_fit_run _ _ X). Qed.

Lemma wp_score scoring fitted l T y w (Q : result float -> state -> Prop) s :
  heap s !! l = Some T ->
  (forall v ev, ev = EvPredict l \/ ev = EvPredictProba l ->
                Q (Ok v) (mkState (heap s) (rng s) (trace s ++ [ev]))) ->
  wp (score scoring fitted l y w) Q s.
Proof.
  intros Hl HQ. destruct (score_run scoring fitted l T y w s Hl)
    as (v & ev & Hrun & Hev).
  unfold wp. rewrite Hrun. by apply HQ.
Qed.

(** The loop over the features of one fold. *)
Lemma mda_permute_loop_spec scoring fitted X_test T y w idx cols sp n s :
  heap s !! X_test = Some T -> (n <= length (heap s))%nat ->
  wp (foldM (mda_permute scoring fitted X_test y w idx) cols sp)
     (fun r s' =>
        exists copies evs,
          heap s' = heap s ++ copies /\
          trace s' = trace s ++ evs /\
          Forall (event_fresh n) evs /\
          (forall sp', r = Ok sp' ->
             same_shape sp sp' /\
             Forall2 (fun col T' => only_column_differs col T T') cols copies) /\
          (Forall (fun c => c ∈ columns T) cols -> is_ok r)) s.
Proof.
  intros HT Hn.
  apply (wp_foldM _
           (fun done sp' s' =>
              exists copies evs,
                heap s' = heap s ++ copies /\
                trace s' = trace s ++ evs /\
                Forall (event_fresh n) evs /\
                same_shape sp sp' /\
                Forall2 (fun col T' => only_column_differs col T T') done copies)).
  - exists [], []. rewrite !app_nil_r. split_and!; done.
  - intros done x rest sp0 s0 Hxs (copies & evs & Hh & Ht & Hfr & Hsh & Hcp).
    destruct (mda_permute_post scoring fitted X_test T y w idx sp0 x n s0)
      as (r & s' & T' & evs' & Hrun & Hh' & Hdiff & Ht' & Hfr' & Hok & Hsucc).
    { rewrite Hh. by apply lookup_app_l_Some. }
    { rewrite Hh, length_app. lia. }
    unfold wp. rewrite Hrun. simpl.
    assert (Hheap : heap s' = heap s ++ (copies ++ [T'])).
    { by rewrite Hh', Hh, app_assoc. }
    assert (Htrace : trace s' = trace s ++ (evs ++ evs')).
    { by rewrite Ht', Ht, app_assoc. }
    assert (Hfresh : Forall (event_fresh n) (evs ++ evs')) by by apply Forall_app.
    destruct r as [sp1 | e].
    + destruct (Hok sp1 eq_refl) as [v ->].
      exists (copies ++ [T']), (evs ++ evs'). split_and!; try done.
      * eapply same_shape_trans; [exact Hsh | apply set_loc_same_shape].
      * apply Forall2_app; [done |]. constructor; [done | constructor].
    + exists (copies ++ [T']), (evs ++ evs'). split_and!; try done.
      intros Hall. apply Hsucc. rewrite Forall_forall in Hall. apply Hall.
      rewrite Hxs. apply elem_of_app. right. apply elem_of_cons. by left.
  - intros sp' s' (copies & evs & Hh & Ht & Hfr & Hsh & Hcp).
    exists copies, evs. split_and!; try done. by intros ? [= <-].
Qed.

End MDA_runs.

Section MDA_fold.
Context `{Externals}.

Lemma mda_fold_spec clf lX X y sw scoring scores sp idx train test n s :
  heap s !! lX = Some X -> (n <= length (heap s))%nat ->
  wp (mda_fold clf lX y sw scoring (scores, sp) (idx, (train, test)))
     (fun r s' =>
        (exists frames evs,
           heap s' = heap s ++ frames /\
           trace s' = trace s ++ evs /\
           Forall (event_fresh n) evs /\
           (forall scores' sp', r = Ok (scores', sp') ->
              (exists v, scores' = <[idx := v]> scores) /\
              same_shape sp sp' /\
              fold_frames X (train, test) frames)) /\
        (wf_frame X -> fold_in_range (df_nrows X) (train, test) ->
         length y = df_nrows X -> weights_fit (df_nrows X) sw -> is_ok r)) s.
Proof.
  intros HX Hn. unfold mda_fold.
  (* X_train, y_train, w_train *)
  apply wp_bind, (wp_df_iloc _ X); [done |].
  destruct (iloc train X) as [Xtr |] eqn:Etr; cycle 1.
  { split.
    - exists [], []. rewrite !app_nil_r. split_and!; try done.
    - intros Hwf [Htr _] _ _. destruct (iloc_ok train X Hwf Htr). congruence. }
  apply wp_bind, wp_series_iloc.
  destruct (take_rows train y) as [ytr |] eqn:Eytr; cycle 1.
  { split.
    - exists [Xtr], []. rewrite !app_nil_r. split_and!; try done.
    - intros _ [Htr _] Hy _. simpl in Htr. rewrite <- Hy in Htr.
      destruct (take_rows_ok train y Htr). congruence. }
  apply wp_bind, wp_weights_iloc.
  destruct (weights_take train sw) as [wtr |] eqn:Ewtr; cycle 1.
  { split.
    - exists [Xtr], []. rewrite !app_nil_r. split_and!; try done.
    - intros _ [Htr _] _ Hw.
      destruct (weights_take_ok train sw _ Hw Htr). congruence. }
  (* X_test, y_test, w_test *)
  apply wp_bind, (wp_df_iloc _ X); [by apply lookup_app_l_Some |].
  cbn [heap rng trace].
  destruct (iloc test X) as [Xte |] eqn:Ete; cycle 1.
  { split.
    - exists [Xtr], []. rewrite !app_nil_r. split_and!; try done.
    - intros Hwf [_ Hte] _ _. destruct (iloc_ok test X Hwf Hte). congruence. }
  apply wp_bind, wp_series_iloc.
  destruct (take_rows test y) as [yte |] eqn:Eyte; cycle 1.
  { split.
    - exists [Xtr; Xte], []. rewrite !app_nil_r, <- app_assoc.
      split_and!; try done.
    - intros _ [_ Hte] Hy _. simpl in Hte. rewrite <- Hy in Hte.
      destruct (take_rows_ok test y Hte). congruence. }
  apply wp_bind, wp_weights_iloc.
  destruct (weights_take test sw) as [wte |] eqn:Ewte; cycle 1.
  { split.
    - exists [Xtr; Xte], []. rewrite !app_nil_r, <- app_assoc.
      split_and!; try done.
    - intros _ [_ Hte] _ Hw.
      destruct (weights_take_ok test sw _ Hw Hte). congruence. }
  (* fit on the train partition, baseline score on the test partition *)
  apply wp_bind, (wp_clf_fit _ _ Xtr).
  { cbn [heap]. apply lookup_app_l_Some, lookup_snoc. }
  cbn [heap rng trace].
  set (fitted := (fit clf Xtr ytr wtr (rng s)).1).
  set (g1 := (fit clf Xtr ytr wtr (rng s)).2).
  apply wp_bind, (wp_score _ _ _ Xte).
  { cbn [heap]. apply lookup_snoc. }
  intros v ev Hev. cbn [heap rng trace].
  apply wp_bind, wp_read. cbn [heap].
  rewrite (lookup_app_l_Some _ _ _ X) by by apply lookup_app_l_Some.
  (* the loop over the features *)
  apply wp_bind.
  eapply wp_mono.
  { apply (mda_permute_loop_spec _ _ _ Xte) with (n := n).
    - cbn [heap]. apply lookup_snoc.
    - cbn [heap]. rewrite !length_app. lia. }
  cbn [heap rng trace].
  intros r s' (copies & evs & Hh & Ht & Hfr & Hok & Hsucc).
  assert (Hfresh : Forall (event_fresh n)
                     ([EvFit (length (heap s))] ++ [ev] ++ evs)).
  { apply Forall_app. split; [constructor; [simpl; lia | done] |].
    apply Forall_app. split; [| done].
    constructor; [| done].
    destruct Hev as [-> | ->]; simpl; rewrite length_app; lia. }
  destruct (iloc_Some _ _ _ Ete) as (Hcols & _ & _).
  destruct r as [sp' | e].
  - apply wp_ret. destruct (Hok sp' eq_refl) as [Hshape Hcopies]. split.
    + exists (Xtr :: Xte :: copies), ([EvFit (length (heap s))] ++ [ev] ++ evs).
      split_and!; try done.
      * rewrite Hh. by rewrite <- !app_assoc.
      * rewrite Ht. by rewrite <- !app_assoc.
      * intros scores' sp'' [= <- <-]. split_and!; [by eexists | done |].
        exists Xtr, Xte, copies. done.
    + done.
  - split.
    + exists (Xtr :: Xte :: copies), ([EvFit (length (heap s))] ++ [ev] ++ evs).
      split_and!; try done.
      * rewrite Hh. by rewrite <- !app_assoc.
      * rewrite Ht. by rewrite <- !app_assoc.
    + intros _ _ _ _. apply Hsucc. rewrite Hcols.
      apply Forall_forall. done.
Qed.

End MDA_fold.

Section MDA_scores.
Context `{Externals}.

Lemma length_empty_series n : length (empty_series n) = n.
Proof. apply length_replicate. Qed.

Lemma mda_scores_spec clf lX X y n_splits t1 sw pct scoring s :
  heap s !! lX = Some X ->
  wp (mda_scores clf lX y n_splits t1 sw pct scoring)
     (fun r s' =>
        (exists frames evs,
           heap s' = heap s ++ frames /\
           trace s' = trace s ++ evs /\
           Forall (event_fresh (length (heap s))) evs /\
           (forall scores sp, r = Ok (scores, sp) ->
              length scores = n_splits /\
              same_shape (empty_frame n_splits (columns X)) sp /\
              exists blocks,
                frames = concat blocks /\
                Forall2 (fun it block => fold_frames X it.2 block)
                        (zip (seq 0 n_splits) (split n_splits t1 pct X))
                        blocks)) /\
        (wf_frame X ->
         Forall (fold_in_range (df_nrows X)) (split n_splits t1 pct X) ->
         length y = df_nrows X -> weights_fit (df_nrows X) sw -> is_ok r)) s.
Proof.
  intros HX. unfold mda_scores. apply wp_bind, wp_read. rewrite HX.
  set (folds := split n_splits t1 pct X).
  set (sp0 := empty_frame n_splits (columns X)).
  apply (wp_foldM _
           (fun done (acc : list float * DataFrame) s' =>
              exists blocks evs,
                heap s' = heap s ++ concat blocks /\
                trace s' = trace s ++ evs /\
                Forall (event_fresh (length (heap s))) evs /\
                length acc.1 = n_splits /\
                same_shape sp0 acc.2 /\
                Forall2 (fun (it : nat * (list nat * list nat)) block =>
                           fold_frames X it.2 block) done blocks)).
  - exists [], []. simpl. rewrite !app_nil_r. split_and!; try done.
    apply length_empty_series.
  - intros done [idx [train test]] rest [scores sp] s0 Hxs
           (blocks & evs & Hh & Ht & Hfr & Hlen & Hsh & Hbl).
    simpl in Hlen, Hsh.
    eapply wp_mono.
    { apply (mda_fold_spec _ _ X) with (n := length (heap s)).
      - rewrite Hh. by apply lookup_app_l_Some.
      - rewrite Hh, length_app. lia. }
    intros r s' [(frames & evs' & Hh' & Ht' & Hfr' & Hok) Hsucc].
    assert (Hheap : heap s' = heap s ++ (concat blocks ++ frames)).
    { by rewrite Hh', Hh, app_assoc. }
    assert (Htrace : trace s' = trace s ++ (evs ++ evs')).
    { by rewrite Ht', Ht, app_assoc. }
    assert (Hfresh : Forall (event_fresh (length (heap s))) (evs ++ evs'))
      by by apply Forall_app.
    destruct r as [[scores' sp'] | e].
    + destruct (Hok _ _ eq_refl) as ([v ->] & Hsh' & Hframes).
      exists (blocks ++ [frames]), (evs ++ evs').
      rewrite concat_app. simpl. rewrite app_nil_r.
      split_and!; try done.
      * by rewrite length_insert.
      * by eapply same_shape_trans.
      * apply Forall2_app; [done |]. constructor; [done | constructor].
    + split.
      * exists (concat blocks ++ frames), (evs ++ evs').
        split_and!; try done.
      * intros Hwf Hfolds Hy Hw. apply Hsucc; try done.
        rewrite Forall_forall in Hfolds. apply (Hfolds (train, test)).
        apply (elem_of_zip_r idx (train, test) (seq 0 n_splits) folds).
        rewrite Hxs. apply elem_of_app. right. apply elem_of_cons. by left.
  - intros [scores sp] s' (blocks & evs & Hh & Ht & Hfr & Hlen & Hsh & Hbl).
    split; [| done].
    exists (concat blocks), evs. split_and!; try done.
    intros scores' sp' [= <- <-]. split_and!; try done. by exists blocks.
Qed.

Lemma feat_imp_MDA_run clf lX y n_splits t1 sw pct scoring s :
  valid_scoring scoring = true ->
  feat_imp_MDA clf lX y n_splits t1 sw pct scoring s
  = match mda_scores clf lX y n_splits t1 sw pct scoring s with
    | (Ok (scores, sp), s') =>
        (Ok (mda_report (mda_ratio scoring scores sp), series_mean scores), s')
    | (Raise e, s') => (Raise e, s')
    end.
Proof.
  intros Hv. unfold feat_imp_MDA. rewrite Hv. simpl. unfold bind.
  destruct (mda_scores _ _ _ _ _ _ _ _ s) as [[[scores sp] | e] s']; done.
Qed.

End MDA_scores.

(** ** Mean decrease accuracy *)

Section MDA_theorems.
Context `{Externals}.

Lemma zip_with_map_same {A B C D} (f : B -> C -> D) (g : A -> B) (h : A -> C) l :
  zip_with f (map g l) (map h l) = map (fun a => f (g a) (h a)) l.
Proof. induction l as [| a l IH]; simpl; [done | by rewrite IH]. Qed.

Lemma ratio_column scoring scores v :
  scoring = "neg_log_loss" \/ scoring = "accuracy" ->
  zip_with fdiv (zip_with fadd (map fneg v) scores)
           (map (if decide (scoring = "neg_log_loss") then fneg
                 else fsub (Fin 1)) v)
  = zip_with (importance_ratio scoring) scores v.
Proof.
  intros Hs. revert scores.
  induction v as [| p v IH]; intros [| b scores]; simpl; try done.
  rewrite IH. f_equal. unfold importance_ratio, max_improvement.
  rewrite fadd_fneg_l.
  destruct Hs as [-> | ->]; by repeat case_decide.
Qed.

Lemma mda_ratio_closed scoring scores sp :
  scoring = "neg_log_loss" \/ scoring = "accuracy" ->
  mda_ratio scoring scores sp
  = mkDF (df_nrows sp)
         (map (fun c => (c.1, zip_with (importance_ratio scoring) scores c.2))
              (df_cols sp)).
Proof.
  intros Hs. unfold mda_ratio, div_frames, add_rows, map_cells. simpl.
  f_equal. rewrite map_map. simpl.
  assert (Hmap : forall f : float -> float,
             (if decide (scoring = "neg_log_loss")
              then mkDF (df_nrows sp)
                        (map (fun c => (c.1, map fneg c.2)) (df_cols sp))
              else mkDF (df_nrows sp)
                        (map (fun c => (c.1, map (fsub (Fin 1)) c.2)) (df_cols sp)))
             = mkDF (df_nrows sp)
                    (map (fun c => (c.1, map (if decide (scoring = "neg_log_loss")
                                              then fneg else fsub (Fin 1)) c.2))
                         (df_cols sp))).
  { intros _. by case_decide. }
  rewrite (Hmap fneg). simpl. rewrite zip_with_map_same. simpl.
  apply map_ext. intros [name v]. simpl. f_equal. by apply ratio_column.
Qed.

Lemma mda_report_lookup scoring scores sp j col permuted :
  scoring = "neg_log_loss" \/ scoring = "accuracy" ->
  df_cols sp !! j = Some (col, permuted) ->
  let ratio := zip_with (importance_ratio scoring) scores permuted in
  mda_report (mda_ratio scoring scores sp) !! j
  = Some (col, mkRow (series_mean ratio)
                     (fmul (series_std ratio) (sqrt_nat (df_nrows sp)))).
Proof.
  intros Hs Hj. rewrite mda_ratio_closed by done. unfold mda_report. simpl.
  rewrite map_map. fmapify. rewrite list_lookup_fmap, Hj. done.
Qed.

Lemma same_shape_empty_frame n cols sp :
  same_shape (empty_frame n cols) sp ->
  df_nrows sp = n /\ columns sp = cols /\
  Forall (fun c => length c.2 = n) (df_cols sp).
Proof.
  intros Hsh. pose proof (same_shape_columns _ _ Hsh) as Hc.
  destruct Hsh as [Hn Hm]. simpl in Hn. split; [done |]. split.
  - rewrite Hc. unfold columns, empty_frame. simpl. rewrite map_map. simpl.
    apply map_id.
  - unfold empty_frame in Hm. simpl in Hm. rewrite map_map in Hm. simpl in Hm.
    apply Forall_forall. intros c Hin.
    assert (Hin' : (c.1, length c.2) ∈ map (fun c => (c.1, length c.2)) (df_cols sp)).
    { fmapify. apply list_elem_of_fmap. by exists c. }
    rewrite Hm in Hin'. fmapify. apply list_elem_of_fmap in Hin' as (c' & Heq & _).
    injection Heq as _ Hl. rewrite Hl. apply length_replicate.
Qed.

Lemma valid_scoring_cases scoring :
  valid_scoring scoring = true <->
  scoring = "neg_log_loss" \/ scoring = "accuracy".
Proof.
  unfold valid_scoring. rewrite bool_decide_eq_true. split.
  - intros Hs.
    apply elem_of_cons in Hs as [-> | Hs]; [by left |].
    apply elem_of_cons in Hs as [-> | Hs]; [by right |].
    by apply elem_of_nil in Hs.
  - intros [-> | ->]; [by left | right; by left].
Qed.

(** C1: in every fold and for every feature the importance ratio is
    (baseline score - permuted score) divided by minus the permuted score
    under 'neg_log_loss' and by one minus the permuted score under
    'accuracy'; the report holds, per feature, the mean of the ratios over
    the folds and their std times sqrt(number of folds), and the
    out-of-sample score returned is the mean of the baseline scores.
    [scores] and [scores_perm] are the two tables of fold scores the
    function fills, one row per fold requested of the splitter
    ([n_splits]).  The function returns whenever the scoring name is
    accepted and the inputs are well formed. *)
Theorem mda_report_formula clf lX X y n_splits t1 sw pct scoring s r s' :
  heap s !! lX = Some X ->
  feat_imp_MDA clf lX y n_splits t1 sw pct scoring s = (r, s') ->
  (scoring = "neg_log_loss" \/ scoring = "accuracy" ->
   wf_frame X ->
   Forall (fold_in_range (df_nrows X)) (split n_splits t1 pct X) ->
   length y = df_nrows X ->
   weights_fit (df_nrows X) sw ->
   is_ok r) /\
  (forall imp oos,
     r = Ok (imp, oos) ->
     exists scores scores_perm,
       mda_scores clf lX y n_splits t1 sw pct scoring s
       = (Ok (scores, scores_perm), s') /\
       oos = series_mean scores /\
       length scores = n_splits /\
       columns scores_perm = columns X /\
       forall j col permuted,
         df_cols scores_perm !! j = Some (col, permuted) ->
         length permuted = n_splits /\
         let ratio := zip_with (importance_ratio scoring) scores permuted in
         imp !! j = Some (col, mkRow (series_mean ratio)
                                     (fmul (series_std ratio)
                                           (sqrt_nat n_splits)))).
Proof.
  intros HX Hrun.
  destruct (valid_scoring scoring) eqn:Hv; cycle 1.
  { unfold feat_imp_MDA in Hrun. rewrite Hv in Hrun. simpl in Hrun.
    injection Hrun as <- <-. split; [| done].
    intros Hs. apply valid_scoring_cases in Hs. congruence. }
  pose proof (proj1 (valid_scoring_cases scoring) Hv) as Hs.
  pose proof (mda_scores_spec clf lX X y n_splits t1 sw pct scoring s HX) as Hspec.
  unfold wp in Hspec.
  rewrite feat_imp_MDA_run in Hrun by done.
  destruct (mda_scores clf lX y n_splits t1 sw pct scoring s) as [r0 s0].
  simpl in Hspec. destruct Hspec as [(frames & evs & _ & _ & _ & Hok) Hsucc].
  destruct r0 as [[scores sp] | e]; injection Hrun as <- <-.
  - split; [done |]. intros imp oos [= <- <-].
    destruct (Hok _ _ eq_refl) as (Hlen & Hsh & _).
    destruct (same_shape_empty_frame _ _ _ Hsh) as (Hn & Hcols & Hall).
    exists scores, sp. split_and!; try done.
    intros j col permuted Hj. split.
    + rewrite Forall_forall in Hall.
      apply (Hall (col, permuted)). apply list_elem_of_lookup. eauto.
    + rewrite <- Hn. by apply mda_report_lookup.
  - split; [| done]. intros _. apply Hsucc.
Qed.

End MDA_theorems.

Section MDA_frames.
Context `{Externals}.

(** C5: every permutation is applied to a new copy of the test
    partition.  The store after a run of [feat_imp_MDA] is the store before
    it followed by the frames the run created: the input [X] (like every
    frame that existed before) is untouched, and, when the run returns,
    each fold has left its train partition, its test partition, still
    equal to [X.iloc[test]], and one copy per feature that differs from the
    test partition in that feature's column only. *)
Theorem mda_never_mutates_shared_frames clf lX X y n_splits t1 sw pct scoring
        s r s' :
  heap s !! lX = Some X ->
  feat_imp_MDA clf lX y n_splits t1 sw pct scoring s = (r, s') ->
  heap s' !! lX = Some X /\
  (exists frames, heap s' = heap s ++ frames) /\
  (is_ok r ->
   exists blocks,
     heap s' = heap s ++ concat blocks /\
     Forall2 (fun it block => fold_frames X it.2 block)
             (zip (seq 0 n_splits) (split n_splits t1 pct X)) blocks).
Proof.
  intros HX Hrun.
  destruct (valid_scoring scoring) eqn:Hv.
  - rewrite feat_imp_MDA_run in Hrun by done.
    pose proof (mda_scores_spec clf lX X y n_splits t1 sw pct scoring s HX)
      as Hspec.
    unfold wp in Hspec.
    destruct (mda_scores clf lX y n_splits t1 sw pct scoring s) as [r0 s0].
    simpl in Hspec. destruct Hspec as [(frames & evs & Hh & _ & _ & Hok) _].
    destruct r0 as [[scores sp] | e]; injection Hrun as <- <-.
    + destruct (Hok _ _ eq_refl) as (_ & _ & blocks & -> & Hbl).
      split_and!; [rewrite Hh; by apply lookup_app_l_Some | by eexists |].
      intros _. by exists blocks.
    + split_and!; [rewrite Hh; by apply lookup_app_l_Some | by eexists | done].
  - unfold feat_imp_MDA in Hrun. rewrite Hv in Hrun. simpl in Hrun.
    injection Hrun as <- <-. split_and!; [done | | done].
    exists []. by rewrite app_nil_r.
Qed.

End MDA_frames.

Section MDA_denominator.
Context `{Externals}.

Lemma ratio_cell_finite_iff scoring b q :
  scoring = "neg_log_loss" \/ scoring = "accuracy" ->
  is_finite (importance_ratio scoring (Fin b) (Fin q)) = true
  <-> nonzero_denominator scoring q.
Proof.
  intros Hs. unfold importance_ratio, max_improvement, nonzero_denominator.
  destruct (decide (scoring = "accuracy")) as [Ha | Ha]; simpl.
  - destruct (is_zero (1 + - q)) eqn:Ez.
    + apply is_zero_true in Ez.
      assert (Hq : q = 1).
      { rewrite <- (Qcplus_0_l q), <- Ez. ring. }
      split; [| done]. by destruct (is_zero (b + - q)).
    + apply is_zero_false in Ez. split; [| done].
      intros _ ->. apply Ez. ring.
  - destruct (is_zero (- q)) eqn:Ez.
    + apply is_zero_true in Ez.
      assert (Hq : q = 0).
      { rewrite <- (Qcopp_involutive q), Ez. ring. }
      split; [| done]. by destruct (is_zero (b + - q)).
    + apply is_zero_false in Ez. split; [| done].
      intros _ ->. apply Ez. ring.
Qed.

Lemma mean_of_finite v :
  v <> [] -> Forall (fun x => is_finite x = true) v ->
  is_finite (mean_of v) = true.
Proof.
  intros Hne Hfin. unfold mean_of. destruct v as [| x v]; [done |].
  simpl length. rewrite (fsum_fin _ Hfin).
  rewrite fdiv_fin; [done |]. apply Qc_pos_neq0, Qc_of_nat_pos. lia.
Qed.

Lemma dropna_finite v :
  Forall (fun x => is_finite x = true) v -> dropna v = v.
Proof.
  induction 1 as [| x v Hx _ IH]; [done |].
  rewrite dropna_cons, IH. by destruct x.
Qed.

Lemma ratios_finite scoring scores permuted :
  scoring = "neg_log_loss" \/ scoring = "accuracy" ->
  Forall2 (fun base p => exists b q, base = Fin b /\ p = Fin q /\
                                     nonzero_denominator scoring q)
          scores permuted ->
  Forall (fun x => is_finite x = true)
         (zip_with (importance_ratio scoring) scores permuted).
Proof.
  intros Hs Hall. induction Hall as [| base p scores' perm' Hbp _ IH]; simpl.
  - constructor.
  - constructor; [| exact IH].
    destruct Hbp as (b & q & -> & -> & Hq). by apply ratio_cell_finite_iff.
Qed.

(** C9: the normalisation of [feat_imp_MDA] has no guard against a zero
    denominator.  For finite scores, the ratio of a fold and a feature is
    finite exactly when the permuted score is not 1 (accuracy), not 0
    (negated log-loss); otherwise it is a division by zero (an infinity or
    NaN).  When no permuted score of a feature hits that value, the mean
    reported for the feature is finite. *)
Theorem mda_ratio_division_by_zero scoring scores scores_perm j col permuted :
  scoring = "neg_log_loss" \/ scoring = "accuracy" ->
  df_cols scores_perm !! j = Some (col, permuted) ->
  exists ratio row,
    df_cols (mda_ratio scoring scores scores_perm) !! j = Some (col, ratio) /\
    mda_report (mda_ratio scoring scores scores_perm) !! j = Some (col, row) /\
    (forall idx b q,
       scores !! idx = Some (Fin b) -> permuted !! idx = Some (Fin q) ->
       exists cell,
         ratio !! idx = Some cell /\
         (is_finite cell = true <-> nonzero_denominator scoring q)) /\
    (scores <> [] ->
     Forall2 (fun base p => exists b q, base = Fin b /\ p = Fin q /\
                                        nonzero_denominator scoring q)
             scores permuted ->
     is_finite (r_mean row) = true).
Proof.
  intros Hs Hj.
  exists (zip_with (importance_ratio scoring) scores permuted). eexists.
  split_and!.
  - rewrite mda_ratio_closed by done. simpl. fmapify.
    by rewrite list_lookup_fmap, Hj.
  - by apply mda_report_lookup.
  - intros idx b q Hb Hq. eexists. split.
    + rewrite lookup_zip_with, Hb. simpl. rewrite Hq. done.
    + by apply ratio_cell_finite_iff.
  - intros Hne Hall. simpl. unfold series_mean.
    pose proof (ratios_finite scoring scores permuted Hs Hall) as Hfin.
    rewrite dropna_finite by done. apply mean_of_finite; [| done].
    destruct Hall; [done | simpl; done].
Qed.

End MDA_denominator.

(** ** Cross-validation and single feature importance *)

Section CV_runs.
Context `{Externals}.

Lemma cv_fold_spec clf lX X y sw scoring scores train test n s :
  heap s !! lX = Some X -> (n <= length (heap s))%nat ->
  wp (cv_fold clf lX y sw scoring scores (train, test))
     (fun r s' =>
        (exists frames evs,
           heap s' = heap s ++ frames /\
           trace s' = trace s ++ evs /\
           Forall (event_fresh n) evs /\
           (forall scores', r = Ok scores' -> exists v, scores' = scores ++ [v])) /\
        (wf_frame X -> fold_in_range (df_nrows X) (train, test) ->
         length y = df_nrows X -> weights_fit (df_nrows X) sw -> is_ok r)) s.
Proof.
  intros HX Hn. unfold cv_fold.
  apply wp_bind, (wp_df_iloc _ X); [done |].
  destruct (iloc train X) as [Xtr |] eqn:Etr; cycle 1.
  { split.
    - exists [], []. rewrite !app_nil_r. split_and!; try done.
    - intros Hwf [Htr _] _ _. destruct (iloc_ok train X Hwf Htr). congruence. }
  apply wp_bind, wp_series_iloc.
  destruct (take_rows train y) as [ytr |] eqn:Eytr; cycle 1.
  { split.
    - exists [Xtr], []. rewrite !app_nil_r. split_and!; try done.
    - intros _ [Htr _] Hy _. simpl in Htr. rewrite <- Hy in Htr.
      destruct (take_rows_ok train y Htr). congruence. }
  apply wp_bind, wp_weights_iloc.
  destruct (weights_take train sw) as [wtr |] eqn:Ewtr; cycle 1.
  { split.
    - exists [Xtr], []. rewrite !app_nil_r. split_and!; try done.
    - intros _ [Htr _] _ Hw.
      destruct (weights_take_ok train sw _ Hw Htr). congruence. }
  apply wp_bind, (wp_df_iloc _ X); [by apply lookup_app_l_Some |].
  cbn [heap rng trace].
  destruct (iloc test X) as [Xte |] eqn:Ete; cycle 1.
  { split.
    - exists [Xtr], []. rewrite !app_nil_r. split_and!; try done.
    - intros Hwf [_ Hte] _ _. destruct (iloc_ok test X Hwf Hte). congruence. }
  apply wp_bind, wp_series_iloc.
  destruct (take_rows test y) as [yte |] eqn:Eyte; cycle 1.
  { split.
    - exists [Xtr; Xte], []. rewrite !app_nil_r, <- app_assoc.
      split_and!; try done.
    - intros _ [_ Hte] Hy _. simpl in Hte. rewrite <- Hy in Hte.
      destruct (take_rows_ok test y Hte). congruence. }
  apply wp_bind, wp_weights_iloc.
  destruct (weights_take test sw) as [wte |] eqn:Ewte; cycle 1.
  { split.
    - exists [Xtr; Xte], []. rewrite !app_nil_r, <- app_assoc.
      split_and!; try done.
    - intros _ [_ Hte] _ Hw.
      destruct (weights_take_ok test sw _ Hw Hte). congruence. }
  apply wp_bind, (wp_clf_fit _ _ Xtr).
  { cbn [heap]. apply lookup_app_l_Some, lookup_snoc. }
  cbn [heap rng trace].
  apply wp_bind, (wp_score _ _ _ Xte).
  { cbn [heap]. apply lookup_snoc. }
  intros v ev Hev. cbn [heap rng trace]. apply wp_ret. split; [| done].
  exists [Xtr; Xte], [EvFit (length (heap s)); ev]. cbn [heap rng trace].
  split_and!.
  - by rewrite <- app_assoc.
  - by rewrite <- app_assoc.
  - constructor; [simpl; lia |]. constructor; [| done].
    destruct Hev as [-> | ->]; simpl; rewrite length_app; lia.
  - intros scores' [= <-]. by eexists.
Qed.

Lemma cv_score_spec clf lX X y sw scoring cv_gen n_splits t1 pct purging n s :
  heap s !! lX = Some X -> (n <= length (heap s))%nat ->
  wp (cv_score clf lX y sw scoring cv_gen n_splits t1 pct purging)
     (fun r s' =>
        (exists frames evs,
           heap s' = heap s ++ frames /\
           trace s' = trace s ++ evs /\
           Forall (event_fresh n) evs /\
           (forall scores, r = Ok scores ->
              length scores
              = length (splitter_split (cv_splitter cv_gen n_splits t1 pct) X))) /\
        (valid_scoring scoring = true ->
         wf_frame X ->
         Forall (fold_in_range (df_nrows X))
                (splitter_split (cv_splitter cv_gen n_splits t1 pct) X) ->
         length y = df_nrows X -> weights_fit (df_nrows X) sw -> is_ok r)) s.
Proof.
  intros HX Hn. unfold cv_score.
  destruct (valid_scoring scoring) eqn:Hv; simpl; cycle 1.
  { apply wp_raise. split; [| done].
    exists [], []. rewrite !app_nil_r. split_and!; done. }
  apply wp_bind, wp_read. rewrite HX.
  fold (cv_splitter cv_gen n_splits t1 pct).
  set (folds := splitter_split (cv_splitter cv_gen n_splits t1 pct) X).
  apply (wp_foldM _
           (fun done (scores : list float) s' =>
              exists frames evs,
                heap s' = heap s ++ frames /\
                trace s' = trace s ++ evs /\
                Forall (event_fresh n) evs /\
                length scores = length done)).
  - exists [], []. rewrite !app_nil_r. split_and!; done.
  - intros done [train test] rest scores s0 Hxs
           (frames & evs & Hh & Ht & Hfr & Hlen).
    eapply wp_mono.
    { apply (cv_fold_spec _ _ X) with (n := n).
      - rewrite Hh. by apply lookup_app_l_Some.
      - rewrite Hh, length_app. lia. }
    intros r s' [(frames' & evs' & Hh' & Ht' & Hfr' & Hok) Hsucc].
    assert (Hheap : heap s' = heap s ++ (frames ++ frames')).
    { by rewrite Hh', Hh, app_assoc. }
    assert (Htrace : trace s' = trace s ++ (evs ++ evs')).
    { by rewrite Ht', Ht, app_assoc. }
    assert (Hfresh : Forall (event_fresh n) (evs ++ evs')) by by apply Forall_app.
    destruct r as [scores' | e].
    + destruct (Hok _ eq_refl) as [v ->].
      exists (frames ++ frames'), (evs ++ evs'). split_and!; try done.
      rewrite !length_app. simpl. lia.
    + split.
      * exists (frames ++ frames'), (evs ++ evs'). split_and!; done.
      * intros _ Hwf Hfolds Hy Hw. apply Hsucc; try done.
        rewrite Forall_forall in Hfolds. apply Hfolds.
        rewrite Hxs. apply elem_of_app. right. apply elem_of_cons. by left.
  - intros scores s' (frames & evs & Hh & Ht & Hfr & Hlen).
    split; [| done]. exists frames, evs. split_and!; try done.
    by intros ? [= <-].
Qed.

End CV_runs.

Section SFI_theorems.
Context `{Externals}.

Lemma foldM_app {A B} (body : B -> A -> M B) l1 l2 acc s :
  foldM body (l1 ++ l2) acc s
  = match foldM body l1 acc s with
    | (Ok acc', s') => foldM body l2 acc' s'
    | (Raise e, s') => (Raise e, s')
    end.
Proof.
  revert acc s. induction l1 as [| x l1 IH]; intros acc s; simpl; [done |].
  unfold bind. destruct (body acc x s) as [[acc' | e] s']; [apply IH | done].
Qed.

Lemma report_set_mean_fresh name v (r : Report) :
  name ∉ map fst r -> report_set_mean name v r = r ++ [(name, mkRow v NaN)].
Proof.
  induction r as [| [n row] r IH]; simpl; intros Hn; [done |].
  apply not_elem_of_cons in Hn as [Hne Hn].
  destruct (decide (n = name)) as [-> | _]; [done |].
  by rewrite IH.
Qed.

Lemma report_set_std_last name v w (r : Report) :
  name ∉ map fst r ->
  report_set_std name w (r ++ [(name, mkRow v NaN)]) = r ++ [(name, mkRow v w)].
Proof.
  induction r as [| [n row] r IH]; simpl; intros Hn.
  - by destruct (decide (name = name)).
  - apply not_elem_of_cons in Hn as [Hne Hn].
    destruct (decide (n = name)) as [-> | _]; [done |].
    by rewrite IH.
Qed.

Lemma select_col_wf feat X : wf_frame X -> wf_frame (select_col feat X).
Proof.
  unfold wf_frame, select_col. simpl. intros Hwf.
  apply Forall_forall. intros c Hc. apply list_elem_of_filter in Hc as [_ Hc].
  rewrite Forall_forall in Hwf. by apply Hwf.
Qed.

Lemma filter_label_unique feat (cs : list (string * list float)) :
  NoDup (map fst cs) -> feat ∈ map fst cs ->
  map fst (filter (fun c => c.1 = feat) cs) = [feat].
Proof.
  induction cs as [| [n v] cs IH]; simpl; intros Hnd Hin.
  - by apply elem_of_nil in Hin.
  - apply NoDup_cons in Hnd as [Hn Hnd]. cbn [filter list_filter]. simpl.
    destruct (decide (n = feat)) as [-> | Hne].
    + simpl. f_equal.
      assert (Hnone : forall cs' : list (string * list float),
                 feat ∉ map fst cs' -> filter (fun c => c.1 = feat) cs' = []).
      { intros cs' Hnot. induction cs' as [| [n' v'] cs' IH']; [done |].
        cbn [filter list_filter]. simpl in *.
        apply not_elem_of_cons in Hnot as [Hne' Hnot].
        destruct (decide (n' = feat)) as [-> | ?]; [done |].
        by apply IH'. }
      by rewrite Hnone.
    + apply IH; [done |]. apply elem_of_cons in Hin as [-> | Hin]; done.
Qed.

(** Under distinct labels, [X[[feat]]] holds the column [feat] and
    nothing else. *)
Lemma select_col_single feat X :
  NoDup (columns X) -> feat ∈ columns X -> columns (select_col feat X) = [feat].
Proof. intros Hnd Hin. unfold columns, select_col. simpl. by apply filter_label_unique. Qed.

(** One feature of [feat_imp_SFI]: a cross-validation on the new
    single-column frame, then a new row in the report. *)
Lemma sfi_feature_run clf lX X y sw scoring n_splits t1 cv_gen pct purging
      (imp : Report) feat s :
  heap s !! lX = Some X -> feat ∉ map fst imp ->
  sfi_feature clf lX y sw scoring n_splits t1 cv_gen pct purging imp feat s
  = match cv_score clf (length (heap s)) y sw scoring cv_gen n_splits t1 pct
                   purging
                   (mkState (heap s ++ [select_col feat X]) (rng s) (trace s))
    with
    | (Ok scores, s2) => (Ok (imp ++ [(feat, sfi_row scores)]), s2)
    | (Raise e, s2) => (Raise e, s2)
    end.
Proof.
  intros HX Hfresh. unfold sfi_feature.
  unfold bind at 1. unfold df_select, bind, read, alloc. rewrite HX.
  destruct (cv_score _ _ _ _ _ _ _ _ _ _ _) as [[scores | e] s2]; [| done].
  unfold ret. rewrite report_set_mean_fresh by done.
  by rewrite (report_set_std_last _ _ _ _ Hfresh).
Qed.

Section SFI_loop.
Variables (clf : Clf) (lX : loc) (X : DataFrame) (y : Labels) (sw : Weights)
          (scoring : string) (n_splits : nat) (t1 : Spans)
          (cv_gen : option Splitter) (pct : float) (purging : bool).

Hypothesis Hnodup : NoDup (columns X).
Hypothesis Hscoring : scoring = "neg_log_loss" \/ scoring = "accuracy".
Hypothesis Hwf : wf_frame X.
Hypothesis Hsplit :
  forall X', df_nrows X' = df_nrows X ->
             Forall (fold_in_range (df_nrows X))
                    (splitter_split (cv_splitter cv_gen n_splits t1 pct) X').
Hypothesis Hy : length y = df_nrows X.
Hypothesis Hw : weights_fit (df_nrows X) sw.

Let body := sfi_feature clf lX y sw scoring n_splits t1 cv_gen pct purging.

Lemma valid_scoring_intro : valid_scoring scoring = true.
Proof.
  unfold valid_scoring. apply bool_decide_eq_true.
  destruct Hscoring as [-> | ->]; [by left | right; by left].
Qed.

(** The cross-validation of one feature returns, whatever the state. *)
Lemma sfi_cv_score_ok feat s :
  exists scores s2,
    cv_score clf (length (heap s)) y sw scoring cv_gen n_splits t1 pct purging
             (mkState (heap s ++ [select_col feat X]) (rng s) (trace s))
    = (Ok scores, s2) /\
    length scores
    = length (splitter_split (cv_splitter cv_gen n_splits t1 pct)
                             (select_col feat X)) /\
    exists frames, heap s2 = heap s ++ frames.
Proof.
  set (s1 := mkState (heap s ++ [select_col feat X]) (rng s) (trace s)).
  pose proof (cv_score_spec clf (length (heap s)) (select_col feat X) y sw
                scoring cv_gen n_splits t1 pct purging 0 s1) as Hspec.
  unfold wp in Hspec.
  destruct (cv_score _ _ _ _ _ _ _ _ _ _ s1) as [r s2]. simpl in Hspec.
  destruct Hspec as [(frames & evs & Hh & _ & _ & Hlen) Hok].
  { apply lookup_snoc. }
  { lia. }
  assert (His : is_ok r).
  { apply Hok; try done.
    - apply valid_scoring_intro.
    - by apply select_col_wf.
    - by apply Hsplit. }
  destruct r as [scores | e]; [| done].
  exists scores, s2. split_and!; [done | by apply Hlen |].
  exists ([select_col feat X] ++ frames). by rewrite Hh, <- app_assoc.
Qed.

Lemma sfi_loop_ok fs :
  forall (imp : Report) s,
    heap s !! lX = Some X ->
    NoDup (map fst imp ++ fs) ->
    exists imp' s',
      foldM body fs imp s = (Ok imp', s') /\
      (exists rows, imp' = imp ++ rows /\ map fst rows = fs) /\
      heap s' !! lX = Some X.
Proof.
  induction fs as [| feat fs IH]; intros imp s HX Hnd.
  - exists imp, s. split_and!; [done | | done]. exists []. by rewrite app_nil_r.
  - simpl. unfold bind.
    assert (Hfresh : feat ∉ map fst imp).
    { apply NoDup_app in Hnd as (_ & Hdisj & _). intros Hin.
      apply (Hdisj feat Hin). by left. }
    unfold body at 1. rewrite (sfi_feature_run _ _ X) by done.
    destruct (sfi_cv_score_ok feat s) as (scores & s2 & -> & _ & frames & Hh).
    destruct (IH (imp ++ [(feat, sfi_row scores)]) s2)
      as (imp' & s' & Hrun & (rows & -> & Hrows) & HX').
    { rewrite Hh. by apply lookup_app_l_Some. }
    { rewrite map_app. simpl. rewrite <- app_assoc. done. }
    exists ((imp ++ [(feat, sfi_row scores)]) ++ rows), s'.
    split_and!; [done | | done].
    exists ((feat, sfi_row scores) :: rows). rewrite <- app_assoc. simpl.
    by rewrite Hrows.
Qed.

(** C6: for every feature column, [feat_imp_SFI] runs a complete
    cross-validation on a frame that holds that column only, and the row
    of the feature in the returned report is the mean of the fold scores
    and their std times sqrt(number of folds).  [sj] is the state the
    feature is reached in, after the features before it. *)
Theorem sfi_report_per_feature s :
  heap s !! lX = Some X ->
  exists imp s',
    feat_imp_SFI clf lX y sw scoring n_splits t1 cv_gen pct purging s
    = (Ok imp, s') /\
    map fst imp = columns X /\
    forall j feat,
      columns X !! j = Some feat ->
      exists sj scores s2,
        sj = (foldM body (take j (columns X)) [] s).2 /\
        columns (select_col feat X) = [feat] /\
        cv_score clf (length (heap sj)) y sw scoring cv_gen n_splits t1 pct
                 purging
                 (mkState (heap sj ++ [select_col feat X]) (rng sj) (trace sj))
        = (Ok scores, s2) /\
        length scores
        = length (splitter_split (cv_splitter cv_gen n_splits t1 pct)
                                 (select_col feat X)) /\
        imp !! j
        = Some (feat, mkRow (scores_mean scores)
                            (fmul (scores_std scores)
                                  (sqrt_nat (length scores)))).
Proof.
  intros HX. unfold feat_imp_SFI, bind, read. rewrite HX.
  fold body.
  destruct (sfi_loop_ok (columns X) [] s HX) as (imp & s' & Hrun & (rows & -> & Hrows) & _).
  { done. }
  exists ([] ++ rows), s'. split_and!; [done | done |].
  intros j feat Hj.
  pose proof (take_drop_middle _ _ _ Hj) as Hsplit_cols.
  assert (Hnd' : NoDup (take j (columns X) ++ feat :: drop (S j) (columns X))).
  { by rewrite Hsplit_cols. }
  destruct (sfi_loop_ok (take j (columns X)) [] s HX)
    as (impj & sj & Hrunj & (rowsj & -> & Hrowsj) & HXj).
  { simpl. apply NoDup_app in Hnd' as (Hnd1 & _ & _). done. }
  simpl in *.
  rewrite <- Hsplit_cols in Hrun. rewrite foldM_app, Hrunj in Hrun.
  simpl in Hrun. unfold bind in Hrun.
  assert (Hfresh : feat ∉ map fst rowsj).
  { rewrite Hrowsj. apply NoDup_app in Hnd' as (_ & Hdisj & _).
    intros Hin. apply (Hdisj feat Hin). by left. }
  unfold body at 1 in Hrun. rewrite (sfi_feature_run _ _ X) in Hrun by done.
  destruct (sfi_cv_score_ok feat sj) as (scores & s2 & Hcv & Hlen & frames & Hh).
  rewrite Hcv in Hrun.
  destruct (sfi_loop_ok (drop (S j) (columns X)) (rowsj ++ [(feat, sfi_row scores)]) s2)
    as (imp' & s'' & Hrun' & (rows' & -> & _) & _).
  { rewrite Hh. by apply lookup_app_l_Some. }
  { rewrite map_app, Hrowsj. simpl. by rewrite <- app_assoc. }
  rewrite Hrun' in Hrun. injection Hrun as Himp _. rewrite <- Himp.
  exists sj, scores, s2. split_and!; try done.
  - by rewrite Hrunj.
  - apply select_col_single; [done |]. apply list_elem_of_lookup. eauto.
  - assert (Hlenj : length rowsj = j).
    { rewrite <- (length_map fst), Hrowsj, length_take.
      apply lookup_lt_Some in Hj. lia. }
    rewrite <- app_assoc. rewrite lookup_app_r by lia.
    rewrite Hlenj, Nat.sub_diag. done.
Qed.

End SFI_loop.

End SFI_theorems.

(** ** The orchestrator on its three methods *)

Section Orchestrator_theorems.
Context `{Externals}.

Lemma feat_imp_MDA_spec clf lX X y n_splits t1 sw pct scoring s :
  heap s !! lX = Some X ->
  wp (feat_imp_MDA clf lX y n_splits t1 sw pct scoring)
     (fun r s' =>
        (exists frames evs,
           heap s' = heap s ++ frames /\
           trace s' = trace s ++ evs /\
           Forall (event_fresh (length (heap s))) evs) /\
        (valid_scoring scoring = true ->
         wf_frame X ->
         Forall (fold_in_range (df_nrows X)) (split n_splits t1 pct X) ->
         length y = df_nrows X -> weights_fit (df_nrows X) sw -> is_ok r)) s.
Proof.
  intros HX. destruct (valid_scoring scoring) eqn:Hv.
  - unfold wp. rewrite feat_imp_MDA_run by done.
    pose proof (mda_scores_spec clf lX X y n_splits t1 sw pct scoring s HX)
      as Hspec.
    unfold wp in Hspec.
    destruct (mda_scores clf lX y n_splits t1 sw pct scoring s) as [r0 s0].
    simpl in Hspec.
    destruct Hspec as [(frames & evs & Hh & Ht & Hfr & _) Hsucc].
    destruct r0 as [[scores sp] | e]; simpl.
    + split; [by exists frames, evs | done].
    + split; [by exists frames, evs |]. intros _. apply Hsucc.
  - unfold feat_imp_MDA. rewrite Hv. simpl. apply wp_raise.
    split; [| done]. exists [], []. by rewrite !app_nil_r.
Qed.

Lemma fresh_not_old n l evs :
  (l < n)%nat -> Forall (event_fresh n) evs -> EvFit l ∉ evs.
Proof.
  intros Hl Hfr Hin. rewrite Forall_forall in Hfr.
  specialize (Hfr _ Hin). simpl in Hfr. lia.
Qed.

(** The code of this function that follows the fit of the prototype. *)
Lemma feat_importance_after_fit lX X cont clf n_estimators n_splits max_samples
      num_threads pct scoring method min_w_leaf s :
  heap s !! lX = Some X ->
  let proto := match clf with
               | None => bagging min_w_leaf n_estimators max_samples
                                 (if Nat.ltb 1 num_threads then (-1)%Z else 1%Z)
               | Some c => c
               end in
  let fit_clf :=
    (fit proto X (cont_size cont) (Some (cont_w cont)) (rng s)).1 in
  wp (feat_importance lX cont clf n_estimators n_splits max_samples
                      num_threads pct scoring method min_w_leaf)
     (fun r s' =>
        (exists evs, trace s' = trace s ++ EvFit lX :: evs /\
                     Forall (event_fresh (length (heap s))) evs) /\
        (method = "MDI" \/ method = "MDA" ->
         valid_scoring scoring = true ->
         wf_frame X ->
         Forall (fold_in_range (df_nrows X)) (split n_splits (cont_t1 cont) pct X) ->
         length (cont_size cont) = df_nrows X ->
         length (cont_w cont) = df_nrows X ->
         (method = "MDI" ->
          exists rows, estimators_ fit_clf = Some rows /\
                       length (columns X) = n_columns rows) ->
         exists imp oos, r = Ok (imp, oob_score_ fit_clf, OosScalar oos)) /\
        (method = "SFI" -> columns X <> [] ->
         exists e, r = Raise e /\
           (valid_scoring scoring = true ->
            wf_frame X ->
            Forall (fold_in_range (df_nrows X))
                   (split n_splits (cont_t1 cont) pct X) ->
            length (cont_size cont) = df_nrows X ->
            length (cont_w cont) = df_nrows X ->
            e = TypeError "unexpected keyword argument feat_names"))) s.
Proof.
  intros HX proto fit_clf. unfold feat_importance. fold proto.
  apply wp_bind, (wp_clf_fit _ _ X); [done |]. fold fit_clf.
  set (s1 := mkState (heap s) _ (trace s ++ [EvFit lX])).
  assert (HX1 : heap s1 !! lX = Some X) by done.
  apply wp_bind, wp_read. rewrite HX1.
  apply wp_bind.
  destruct (decide (method = "MDI")) as [-> | Hmdi].
  { (* MDI *)
    apply wp_bind, wp_lift_result.
    destruct (feat_imp_MDI fit_clf (columns X)) as [imp | e] eqn:Emdi; cycle 1.
    { split_and!.
      - exists []. by split.
      - intros _ _ _ _ _ _ Hest. destruct (Hest eq_refl) as (rows & Hrows & Hlen).
        rewrite (feat_imp_MDI_closed _ _ rows) in Emdi by done. done.
      - done. }
    apply wp_bind. eapply wp_mono.
    { by apply (cv_score_spec _ _ X) with (n := length (heap s)). }
    intros r s' [(frames & evs & _ & Ht & Hfr & _) Hsucc].
    assert (Htr : trace s' = trace s ++ EvFit lX :: evs).
    { rewrite Ht. simpl. by rewrite <- app_assoc. }
    destruct r as [scores | e].
    - apply wp_ret, wp_ret. split_and!; [by exists evs | | done].
      intros. by eexists _, _.
    - split_and!; [by exists evs | | done].
      intros _ Hv Hwf Hfolds Hy Hw _. exfalso.
      by apply (Hsucc Hv Hwf Hfolds Hy Hw). }
  destruct (decide (method = "MDA")) as [-> | Hmda].
  { (* MDA *)
    apply wp_bind. eapply wp_mono.
    { by apply (feat_imp_MDA_spec _ _ X). }
    intros r s' [(frames & evs & _ & Ht & Hfr) Hsucc].
    assert (Htr : trace s' = trace s ++ EvFit lX :: evs).
    { rewrite Ht. simpl. by rewrite <- app_assoc. }
    destruct r as [[imp oos] | e].
    - apply wp_ret, wp_ret. split_and!; [by exists evs | | done].
      intros. by eexists _, _.
    - split_and!; [by exists evs | | done].
      intros _ Hv Hwf Hfolds Hy Hw _. exfalso.
      by apply (Hsucc Hv Hwf Hfolds Hy Hw). }
  destruct (decide (method = "SFI")) as [-> | Hsfi].
  { (* SFI *)
    apply wp_bind. eapply wp_mono.
    { by apply (cv_score_spec _ _ X) with (n := length (heap s)). }
    intros r s' [(frames & evs & _ & Ht & Hfr & _) Hsucc].
    assert (Htr : trace s' = trace s ++ EvFit lX :: evs).
    { rewrite Ht. simpl. by rewrite <- app_assoc. }
    destruct r as [oos | e]; cycle 1.
    { split_and!; [by exists evs | by intros [? | ?] | ].
      intros _ _. exists e. split; [done |].
      intros Hv Hwf Hfolds Hy Hw. exfalso.
      by apply (Hsucc Hv Hwf Hfolds Hy Hw). }
    apply wp_bind, wp_log. apply wp_bind.
    set (s2 := mkState (heap s') (rng s') (trace s' ++ [EvSetNJobs 1])).
    assert (Htr2 : exists evs2, trace s2 = trace s ++ EvFit lX :: evs2 /\
                                Forall (event_fresh (length (heap s))) evs2).
    { exists (evs ++ [EvSetNJobs 1]). simpl. rewrite Htr. split.
      - by rewrite <- app_assoc.
      - apply Forall_app. split; [done |]. by constructor. }
    destruct (columns X) as [| c cs] eqn:Ecols.
    - apply wp_ret, wp_ret, wp_ret. split_and!; [done | by intros [? | ?] | done].
    - unfold wp. rewrite mp_pandas_obj_feat_imp_SFI_fails. simpl.
      split_and!; [done | by intros [? | ?] |].
      intros _ _. by eexists. }
  (* no branch taken *)
  apply wp_ret, wp_raise. split_and!.
  - exists []. by split.
  - by intros [? | ?].
  - done.
Qed.

Lemma feat_importance_MDI_eq lX X cont clf n_estimators n_splits max_samples
      num_threads pct scoring min_w_leaf s :
  heap s !! lX = Some X ->
  let proto := prototype clf n_estimators max_samples num_threads min_w_leaf in
  let s1 := after_full_fit proto lX X cont s in
  feat_importance lX cont clf n_estimators n_splits max_samples num_threads
                  pct scoring "MDI" min_w_leaf s
  = match feat_imp_MDI (full_fit proto X cont s) (columns X) with
    | Raise e => (Raise e, s1)
    | Ok imp =>
        match cv_score proto lX (cont_size cont) (Some (cont_w cont)) scoring
                       None n_splits (cont_t1 cont) pct true s1 with
        | (Ok scores, s') =>
            (Ok (imp, oob_score_ (full_fit proto X cont s),
                 OosScalar (scores_mean scores)), s')
        | (Raise e, s') => (Raise e, s')
        end
    end.
Proof.
  intros HX proto s1. unfold feat_importance. fold (prototype clf n_estimators
    max_samples num_threads min_w_leaf). fold proto.
  unfold bind at 1. rewrite (clf_fit_run _ _ X) by done.
  fold (full_fit proto X cont s). fold (after_full_fit proto lX X cont s).
  fold s1. unfold bind at 1. unfold read.
  assert (HX1 : heap s1 !! lX = Some X) by done. rewrite HX1.
  rewrite decide_True by done. unfold bind at 1. unfold bind at 1.
  destruct (feat_imp_MDI (full_fit proto X cont s) (columns X)) as [imp | e];
    [| done].
  simpl lift_result. unfold ret at 1. unfold bind at 1.
  by destruct (cv_score _ _ _ _ _ _ _ _ _ _ s1) as [[scores | e] s'].
Qed.

Lemma feat_importance_MDA_eq lX X cont clf n_estimators n_splits max_samples
      num_threads pct scoring min_w_leaf s :
  heap s !! lX = Some X ->
  let proto := prototype clf n_estimators max_samples num_threads min_w_leaf in
  feat_importance lX cont clf n_estimators n_splits max_samples num_threads
                  pct scoring "MDA" min_w_leaf s
  = match feat_imp_MDA proto lX (cont_size cont) n_splits (cont_t1 cont)
                       (Some (cont_w cont)) pct scoring
                       (after_full_fit proto lX X cont s) with
    | (Ok (imp, oos), s') =>
        (Ok (imp, oob_score_ (full_fit proto X cont s), OosScalar oos), s')
    | (Raise e, s') => (Raise e, s')
    end.
Proof.
  intros HX proto. unfold feat_importance. fold (prototype clf n_estimators
    max_samples num_threads min_w_leaf). fold proto.
  unfold bind at 1. rewrite (clf_fit_run _ _ X) by done.
  fold (full_fit proto X cont s). fold (after_full_fit proto lX X cont s).
  set (s1 := after_full_fit proto lX X cont s).
  unfold bind at 1. unfold read.
  assert (HX1 : heap s1 !! lX = Some X) by done. rewrite HX1.
  rewrite decide_False by done. rewrite decide_True by done.
  unfold bind at 1. unfold bind at 1.
  by destruct (feat_imp_MDA _ _ _ _ _ _ _ _ s1) as [[[imp oos] | e] s'].
Qed.

(** With method 'SFI' the scoring name is checked by the
    cross-validation of line 189, right after the full-data fit. *)
Lemma feat_importance_SFI_invalid lX X cont clf n_estimators n_splits
      max_samples num_threads pct scoring min_w_leaf s :
  heap s !! lX = Some X ->
  valid_scoring scoring = false ->
  let proto := prototype clf n_estimators max_samples num_threads min_w_leaf in
  feat_importance lX cont clf n_estimators n_splits max_samples num_threads
                  pct scoring "SFI" min_w_leaf s
  = (Raise InvalidConfiguration, after_full_fit proto lX X cont s).
Proof.
  intros HX Hv proto. unfold feat_importance. fold (prototype clf n_estimators
    max_samples num_threads min_w_leaf). fold proto.
  unfold bind at 1. rewrite (clf_fit_run _ _ X) by done.
  fold (after_full_fit proto lX X cont s).
  set (s1 := after_full_fit proto lX X cont s).
  unfold bind at 1. unfold read.
  assert (HX1 : heap s1 !! lX = Some X) by done. rewrite HX1.
  rewrite !decide_False by done. rewrite decide_True by done.
  unfold bind at 1. unfold bind at 1.
  by rewrite cv_score_invalid.
Qed.

(** The out-of-bag score of a returned triple is read from the model the
    full-data fit returned (lines 174-177). *)
Lemma feat_importance_oob lX X cont clf n_estimators n_splits max_samples
      num_threads pct scoring method min_w_leaf s r s' :
  heap s !! lX = Some X ->
  feat_importance lX cont clf n_estimators n_splits max_samples num_threads
                  pct scoring method min_w_leaf s = (r, s') ->
  forall imp oob oos,
    r = Ok (imp, oob, oos) ->
    oob = oob_score_
            (full_fit (prototype clf n_estimators max_samples num_threads
                                 min_w_leaf) X cont s).
Proof.
  intros HX Hrun.
  apply (wp_elim _ (fun r _ => forall imp oob oos, r = Ok (imp, oob, oos) ->
           oob = oob_score_
                   (full_fit (prototype clf n_estimators max_samples
                                        num_threads min_w_leaf) X cont s))
           _ _ _ Hrun).
  clear Hrun. unfold feat_importance.
  apply wp_bind, (wp_clf_fit _ _ X); [done |].
  apply wp_bind, wp_read. cbn [heap]. rewrite HX.
  apply wp_bind.
  match goal with |- wp ?m _ _ => generalize m end.
  intros m. unfold wp.
  destruct (m _) as [[[[imp0 |] [oos0 |]] | e] s2]; simpl; try done.
  by intros imp oob oos [= <- <- <-].
Qed.

(** C8: what the orchestrator does, for every method selector.  It
    first fits the prototype on the full dataset, once: every later
    classifier call (fit, predict, predict_proba) is on a frame allocated
    after that fit, none on the full matrix.  With method 'MDI' or 'MDA'
    and well-formed inputs it returns a triple; a returned triple holds
    the report of [feat_imp_MDI] on the model fitted on the full dataset,
    or the report of [feat_imp_MDA] run after that fit, the out-of-bag
    score of the full-data fit ([None] when the model has none) and the
    out-of-sample score (the mean of the scores of [cv_score], or the
    score [feat_imp_MDA] returns).  With method 'SFI' and a matrix that
    has a feature column no triple is returned: the dispatch of line 192
    fails, on well-formed inputs with the [TypeError] of the keyword
    [feat_names]; a triple is returned for a matrix without columns only.
    With another scoring name the selected estimator raises the
    configuration error right after the full-data fit. *)
Theorem feat_importance_fits_first_then_returns lX X cont clf n_estimators
        n_splits max_samples num_threads pct scoring method min_w_leaf s r s' :
  heap s !! lX = Some X ->
  feat_importance lX cont clf n_estimators n_splits max_samples num_threads
                  pct scoring method min_w_leaf s = (r, s') ->
  let proto := prototype clf n_estimators max_samples num_threads min_w_leaf in
  let fit_clf := full_fit proto X cont s in
  let s1 := after_full_fit proto lX X cont s in
  (exists evs,
     trace s' = trace s ++ EvFit lX :: evs /\
     Forall (event_fresh (length (heap s))) evs /\
     forall l, EvFit l ∈ evs \/ EvPredict l ∈ evs \/ EvPredictProba l ∈ evs ->
               l <> lX) /\
  (method = "MDI" \/ method = "MDA" ->
   well_formed_inputs X cont n_splits pct scoring ->
   (method = "MDI" ->
    exists rows, estimators_ fit_clf = Some rows /\
                 length (columns X) = n_columns rows) ->
   exists imp oos, r = Ok (imp, oob_score_ fit_clf, OosScalar oos)) /\
  (forall imp oob oos,
     r = Ok (imp, oob, oos) ->
     oob = oob_score_ fit_clf /\
     (method = "MDI" ->
      feat_imp_MDI fit_clf (columns X) = Ok imp /\
      exists scores,
        cv_score proto lX (cont_size cont) (Some (cont_w cont)) scoring None
                 n_splits (cont_t1 cont) pct true s1 = (Ok scores, s') /\
        oos = OosScalar (scores_mean scores)) /\
     (method = "MDA" ->
      exists x,
        feat_imp_MDA proto lX (cont_size cont) n_splits (cont_t1 cont)
                     (Some (cont_w cont)) pct scoring s1 = (Ok (imp, x), s') /\
        oos = OosScalar x) /\
     (method = "SFI" -> columns X = [])) /\
  (method = "SFI" -> columns X <> [] ->
   exists e,
     r = Raise e /\
     (well_formed_inputs X cont n_splits pct scoring ->
      e = TypeError "unexpected keyword argument feat_names")) /\
  ((scoring ∉ ["neg_log_loss"; "accuracy"]) ->
   method = "MDA" \/ method = "SFI" \/
   (method = "MDI" /\ is_ok (feat_imp_MDI fit_clf (columns X))) ->
   r = Raise InvalidConfiguration /\ s' = s1).
Proof.
  intros HX Hrun proto fit_clf s1.
  pose proof (feat_importance_after_fit lX X cont clf n_estimators n_splits
                max_samples num_threads pct scoring method min_w_leaf s HX)
    as Hspec.
  apply (wp_elim _ _ _ _ _ Hrun) in Hspec.
  destruct Hspec as ((evs & Ht & Hfr) & Hret & Hsfi).
  assert (HlX : (lX < length (heap s))%nat) by by eapply lookup_lt_Some.
  assert (Hvalid : scoring = "neg_log_loss" \/ scoring = "accuracy" ->
                   valid_scoring scoring = true).
  { intros Hs. by apply valid_scoring_cases. }
  split_and!.
  - exists evs. split_and!; [done | done |].
    intros l Hin ->. rewrite Forall_forall in Hfr.
    destruct Hin as [Hin | [Hin | Hin]]; apply Hfr in Hin; simpl in Hin; lia.
  - intros Hm (Hs & Hwf & Hfolds & Hy & Hw) Hest.
    apply Hret; try done. by apply Hvalid.
  - intros imp oob oos ->. split_and!.
    + by eapply feat_importance_oob.
    + intros ->. rewrite (feat_importance_MDI_eq _ X) in Hrun by done.
      fold proto fit_clf s1 in Hrun.
      destruct (feat_imp_MDI fit_clf (columns X)) as [imp' | e]; [| done].
      destruct (cv_score proto lX (cont_size cont) (Some (cont_w cont)) scoring
                         None n_splits (cont_t1 cont) pct true s1)
        as [[scores | e] s2]; [| done].
      injection Hrun as <- <- <- <-. split; [done |]. by exists scores.
    + intros ->. rewrite (feat_importance_MDA_eq _ X) in Hrun by done.
      fold proto fit_clf s1 in Hrun.
      destruct (feat_imp_MDA proto lX (cont_size cont) n_splits (cont_t1 cont)
                             (Some (cont_w cont)) pct scoring s1)
        as [[[imp' x] | e] s2]; [| done].
      injection Hrun as <- <- <- <-. by exists x.
    + intros ->. destruct (decide (columns X = [])) as [| Hne]; [done |].
      by destruct (Hsfi eq_refl Hne) as (e & [=] & _).
  - intros -> Hne. destruct (Hsfi eq_refl Hne) as (e & -> & He).
    exists e. split; [done |]. intros (Hs & Hwf & Hfolds & Hy & Hw).
    apply He; try done. by apply Hvalid.
  - intros Hs Hm. apply valid_scoring_false in Hs.
    destruct Hm as [-> | [-> | [-> Hok]]].
    + rewrite (feat_importance_MDA_eq _ X) in Hrun by done.
      unfold feat_imp_MDA in Hrun. rewrite Hs in Hrun. simpl in Hrun.
      by injection Hrun as <- <-.
    + rewrite (feat_importance_SFI_invalid _ X) in Hrun by done.
      by injection Hrun as <- <-.
    + rewrite (feat_importance_MDI_eq _ X) in Hrun by done.
      fold proto fit_clf s1 in Hrun.
      destruct (feat_imp_MDI fit_clf (columns X)) as [imp' | e]; [| done].
      rewrite cv_score_invalid in Hrun by done.
      by injection Hrun as <- <-.
Qed.

(** C7: what the SFI branch of the orchestrator does on a matrix with at
    least one feature.  The dispatcher calls [feat_imp_SFI] with the
    keywords [feat_names] and [cont], which its signature does not have,
    so the call never returns a report: once the out-of-sample
    cross-validation has returned and [n_jobs] has been set to one, the
    first task fails with a [TypeError]. *)
Theorem feat_importance_SFI_dispatch_fails lX X cont clf n_estimators n_splits
        max_samples num_threads pct scoring min_w_leaf s :
  heap s !! lX = Some X ->
  columns X <> [] ->
  exists e s',
    feat_importance lX cont clf n_estimators n_splits max_samples num_threads
                    pct scoring "SFI" min_w_leaf s = (Raise e, s') /\
    (scoring = "neg_log_loss" \/ scoring = "accuracy" ->
     wf_frame X ->
     Forall (fold_in_range (df_nrows X)) (split n_splits (cont_t1 cont) pct X) ->
     length (cont_size cont) = df_nrows X ->
     length (cont_w cont) = df_nrows X ->
     e = TypeError "unexpected keyword argument feat_names").
Proof.
  intros HX Hcols.
  pose proof (feat_importance_after_fit lX X cont clf n_estimators n_splits
                max_samples num_threads pct scoring "SFI" min_w_leaf s HX)
    as Hspec.
  unfold wp in Hspec.
  destruct (feat_importance _ _ _ _ _ _ _ _ _ _ _ s) as [r s'].
  simpl in Hspec. destruct Hspec as (_ & _ & Hsfi).
  destruct (Hsfi eq_refl Hcols) as (e & -> & He).
  exists e, s'. split; [done |]. intros Hs. apply He.
  unfold valid_scoring. apply bool_decide_eq_true.
  destruct Hs as [-> | ->]; [by left | right; by left].
Qed.

End Orchestrator_theorems.

(** * Further properties of the code *)

(** ** Edge cases of [feat_imp_MDI] *)

Section MDI_edges.
Context `{Externals}.

Lemma std_of_short v : (length v <= 1)%nat -> std_of 1 v = NaN.
Proof.
  intros Hv. unfold std_of, var_of.
  by destruct (decide (length v <= 1)%nat).
Qed.

Lemma nonzero_cells_all_zero v :
  Forall (fun x => x = Fin 0) v -> nonzero_cells v = [].
Proof.
  induction 1 as [| x v -> _ IH]; [done |].
  unfold nonzero_cells in *. rewrite dropna_cons. simpl.
  cbn [filter list_filter]. simpl. done.
Qed.

(** X1: a feature on which no tree of the ensemble splits (importance 0
    in every tree) is reported with a missing mean and a missing std, not
    with 0: line 30 turns its zeros into NaN and nothing is left to
    average. *)
Theorem mdi_unused_feature_is_missing forest feat_names rows j name :
  estimators_ forest = Some rows ->
  length feat_names = n_columns rows ->
  feat_names !! j = Some name ->
  Forall (fun r => nth j r NaN = Fin 0) rows ->
  exists report,
    feat_imp_MDI forest feat_names = Ok report /\
    report !! j = Some (name, mkRow NaN NaN).
Proof.
  intros Hest Hlen Hj Hzero. eexists. split; [by apply feat_imp_MDI_closed |].
  rewrite (lookup_report_closed _ _ _ _ Hj). unfold mdi_row.
  rewrite nonzero_cells_all_zero; [done |].
  unfold column_of. fmapify. by apply Forall_fmap.
Qed.

(** X2: the std column of [feat_imp_MDI] is the sample std (ddof 1) of
    the non-zero importances, so a feature used by at most one tree has a
    missing std, whatever the number of trees of the ensemble. *)
Theorem mdi_std_needs_two_trees forest feat_names rows j name :
  estimators_ forest = Some rows ->
  length feat_names = n_columns rows ->
  feat_names !! j = Some name ->
  (length (nonzero_cells (column_of rows j)) <= 1)%nat ->
  exists report row,
    feat_imp_MDI forest feat_names = Ok report /\
    report !! j = Some (name, row) /\
    r_std row = NaN.
Proof.
  intros Hest Hlen Hj Hone. eexists _, _.
  split; [by apply feat_imp_MDI_closed |].
  split; [by apply lookup_report_closed |].
  unfold mdi_row. simpl. by rewrite std_of_short.
Qed.

(** X3: when the trees carry importance vectors of [k] entries and the
    number of feature names is not [k], the relabelling of line 28 raises
    a [ValueError]: no report is returned and no name is dropped or
    padded. *)
Theorem mdi_wrong_number_of_names forest feat_names rows k :
  estimators_ forest = Some rows ->
  rows <> [] ->
  Forall (fun r => length r = k) rows ->
  length feat_names <> k ->
  feat_imp_MDI forest feat_names = Raise ValueError.
Proof.
  intros Hest Hne Hlen Hk. unfold feat_imp_MDI, set_columns. rewrite Hest.
  rewrite length_from_dict_index, (n_columns_uniform rows k Hne Hlen).
  by destruct (decide (length feat_names = k)).
Qed.

Lemma qsum_ge_elem l q : Forall pos_or_nan l -> Fin q ∈ l -> q <= qsum l.
Proof.
  induction 1 as [| x l Hx Hl IH]; intros Hin.
  - by apply elem_of_nil in Hin.
  - apply elem_of_cons in Hin as [<- | Hin]; simpl.
    + pose proof (qsum_nonneg l Hl) as H0.
      rewrite <- (Qcplus_0_r q) at 1. by apply Qcplus_le_compat; [apply Qcle_refl |].
    + specialize (IH Hin). destruct x as [p | |]; simpl in *; try done.
      rewrite <- (Qcplus_0_l q). apply Qcplus_le_compat; [by apply Qclt_le_weak | done].
Qed.

Lemma Qc_div_le_1 q S : 0 < S -> q <= S -> q / S <= 1.
Proof.
  intros HS Hq. unfold Qcdiv.
  rewrite <- (Qcmult_inv_r S) by by apply Qc_pos_neq0.
  apply Qcmult_le_compat_r; [done |].
  apply Qclt_le_weak. pose proof (Qc_div_pos 1 S) as Hinv.
  unfold Qcdiv in Hinv. rewrite Qcmult_1_l in Hinv. by apply Hinv.
Qed.

Lemma share_div l :
  Forall pos_or_nan l -> 0 < qsum l ->
  Forall share_or_nan (map (fun m => fdiv m (Fin (qsum l))) l).
Proof.
  intros Hall HS. fmapify. apply Forall_fmap, Forall_forall. intros x Hx.
  simpl. pose proof Hall as Hall'. rewrite Forall_forall in Hall'.
  specialize (Hall' x Hx). destruct x as [q | |]; simpl in *; try done.
  assert (HS' : is_zero (qsum l) = false) by by apply is_zero_false, Qc_pos_neq0.
  rewrite HS'. simpl. split; [by apply Qc_div_pos |].
  apply Qc_div_le_1; [done |]. by apply qsum_ge_elem.
Qed.

(** X4: for a fitted ensemble whose importance vectors (non-negative,
    one entry per feature) are not all zero, every reported mean is either
    missing or a share in (0, 1], and at least one is a share: no mean is
    zero, negative or infinite. *)
Theorem mdi_means_are_shares forest feat_names rows :
  estimators_ forest = Some rows ->
  Forall (fun r => length r = length feat_names) rows ->
  Forall (Forall nonneg_fin) rows ->
  Exists (Exists (fun x => feq0 x = false)) rows ->
  exists report,
    feat_imp_MDI forest feat_names = Ok report /\
    Forall share_or_nan (report_means report) /\
    Exists pos_fin (report_means report).
Proof.
  intros Hest Hlen Hnn Hex.
  assert (Hne : rows <> []).
  { intros ->. by apply Exists_nil in Hex. }
  pose proof (n_columns_uniform rows _ Hne Hlen) as Hcols.
  pose proof (mdi_means_pos_or_nan rows _ Hlen Hnn) as Hall.
  pose proof (mdi_means_exists_finite rows _ Hlen Hnn Hex) as Hfin.
  pose proof (qsum_pos _ Hall Hfin) as Hpos.
  eexists. split; [by apply feat_imp_MDI_closed |].
  rewrite report_means_closed, (series_sum_qsum _ Hall).
  assert (Hmeans :
    map (fun j => r_mean (mdi_row rows
                            (Fin (qsum (mdi_means rows (length feat_names)))) j))
        (seq 0 (length feat_names))
    = map (fun m => fdiv m (Fin (qsum (mdi_means rows (length feat_names)))))
          (mdi_means rows (length feat_names))).
  { unfold mdi_means, mdi_row. by rewrite map_map. }
  rewrite Hmeans. split; [by apply share_div |].
  apply Exists_exists in Hfin as (x & Hx & Hxfin).
  apply Exists_exists. exists (fdiv x (Fin (qsum (mdi_means rows (length feat_names))))).
  split.
  - fmapify. apply list_elem_of_fmap. by exists x.
  - rewrite Forall_forall in Hall. specialize (Hall x Hx).
    destruct x as [q | |]; simpl in *; try done.
    assert (HS' : is_zero (qsum (mdi_means rows (length feat_names))) = false)
      by by apply is_zero_false, Qc_pos_neq0.
    rewrite HS'. simpl. by apply Qc_div_pos.
Qed.

Lemma fadd_assoc x y z : fadd x (fadd y z) = fadd (fadd x y) z.
Proof.
  destruct x as [a | s |], y as [b | t |], z as [c | u |]; simpl; try done.
  - f_equal. ring.
  - by destruct (Bool.eqb t u).
  - by destruct (Bool.eqb s t).
  - destruct s, t, u; done.
  - by destruct (Bool.eqb s t).
Qed.

Lemma fsum_perm l l' : l ≡ₚ l' -> fsum l = fsum l'.
Proof.
  intros Hp. unfold fsum. apply (foldr_permutation (=) fadd (Fin 0)); [| done].
  intros j1 a1 j2 a2 b _ _ _. by rewrite !fadd_assoc, (fadd_comm a1 a2).
Qed.

Lemma mean_of_perm l l' : l ≡ₚ l' -> mean_of l = mean_of l'.
Proof.
  intros Hp. unfold mean_of.
  by rewrite (Permutation_length Hp), (fsum_perm _ _ Hp).
Qed.

Lemma std_of_perm ddof l l' : l ≡ₚ l' -> std_of ddof l = std_of ddof l'.
Proof.
  intros Hp. unfold std_of, var_of.
  rewrite (Permutation_length Hp), (fsum_perm _ _ Hp).
  destruct (decide (length l' <= ddof)%nat); [done |].
  f_equal. f_equal. apply fsum_perm. fmapify. by rewrite Hp.
Qed.

Lemma nonzero_cells_perm l l' : l ≡ₚ l' -> nonzero_cells l ≡ₚ nonzero_cells l'.
Proof. intros Hp. unfold nonzero_cells, dropna. by rewrite Hp. Qed.

Lemma column_of_perm (rows rows' : list Series) j :
  rows ≡ₚ rows' -> column_of rows j ≡ₚ column_of rows' j.
Proof. intros Hp. unfold column_of. fmapify. by rewrite Hp. Qed.

Lemma n_columns_perm (rows rows' : list Series) :
  rows ≡ₚ rows' -> n_columns rows = n_columns rows'.
Proof.
  intros Hp. unfold n_columns.
  apply (foldr_permutation (=) Nat.max 0%nat).
  - intros j1 a1 j2 a2 b _ _ _. lia.
  - fmapify. by rewrite Hp.
Qed.

(** X5: the result of [feat_imp_MDI], report or error, does not depend
    on the order of the trees in [forest.estimators_] (in the exact
    arithmetic of this model, where sums do not round). *)
Theorem mdi_tree_order_irrelevant forest forest' feat_names rows rows' :
  estimators_ forest = Some rows ->
  estimators_ forest' = Some rows' ->
  rows ≡ₚ rows' ->
  feat_imp_MDI forest feat_names = feat_imp_MDI forest' feat_names.
Proof.
  intros Hest Hest' Hp.
  pose proof (n_columns_perm _ _ Hp) as Hn.
  destruct (decide (length feat_names = n_columns rows)) as [Hlen | Hlen].
  - rewrite (feat_imp_MDI_closed _ _ _ Hest Hlen).
    rewrite (feat_imp_MDI_closed _ _ _ Hest') by congruence.
    assert (Hcell : forall j,
      nonzero_cells (column_of rows j) ≡ₚ nonzero_cells (column_of rows' j)).
    { intros j. by apply nonzero_cells_perm, column_of_perm. }
    assert (Hmeans : mdi_means rows (length feat_names)
                     = mdi_means rows' (length feat_names)).
    { unfold mdi_means. apply map_ext. intros j. by apply mean_of_perm. }
    rewrite Hmeans. f_equal. apply zip_with_ext; [| done | done].
    intros name j. unfold mdi_row.
    rewrite (mean_of_perm _ _ (Hcell j)), (std_of_perm _ _ _ (Hcell j)).
    by rewrite (Permutation_length Hp).
  - unfold feat_imp_MDI, set_columns. rewrite Hest, Hest'.
    rewrite !length_from_dict_index, <- Hn.
    by destruct (decide (length feat_names = n_columns rows)).
Qed.

End MDI_edges.

(** ** Runs of [feat_imp_MDA], call by call *)

Section MDA_exact.
Context `{Externals}.

Lemma score_eq scoring fitted l T y w s :
  heap s !! l = Some T ->
  score scoring fitted l y w s
  = (Ok (score_value scoring fitted T y w),
     mkState (heap s) (rng s) (trace s ++ [score_event scoring l])).
Proof.
  intros Hl. unfold score, score_value, score_event.
  destruct (decide (scoring = "neg_log_loss")).
  - unfold bind, clf_predict_proba, bind, read, log, ret. by rewrite Hl.
  - unfold bind, clf_predict, bind, read, log, ret. by rewrite Hl.
Qed.

Lemma mda_permute_eq scoring fitted X_test T y w idx sp col v s :
  heap s !! X_test = Some T ->
  col_values col (df_cols T) = Some v ->
  mda_permute scoring fitted X_test y w idx sp col s
  = (Ok (set_loc idx col
           (score_value scoring fitted (shuffled_copy col (shuffle v (rng s)).1 T) y w)
           sp),
     mkState (heap s ++ [shuffled_copy col (shuffle v (rng s)).1 T])
             (shuffle v (rng s)).2
             (trace s ++ [score_event scoring (length (heap s))])).
Proof.
  intros HT Hcol. unfold mda_permute.
  unfold bind at 1. unfold df_copy, bind at 1, read, alloc. rewrite HT.
  unfold bind at 1.
  rewrite (shuffle_column_run _ _ T v) by first [apply lookup_snoc | done].
  cbn [heap rng trace]. rewrite insert_snoc. unfold bind at 1.
  rewrite (score_eq _ _ _ (shuffled_copy col (shuffle v (rng s)).1 T))
    by apply lookup_snoc.
  done.
Qed.

Lemma mda_permute_no_column scoring fitted X_test T y w idx sp col s :
  heap s !! X_test = Some T ->
  col_values col (df_cols T) = None ->
  mda_permute scoring fitted X_test y w idx sp col s
  = (Raise (KeyError col), mkState (heap s ++ [T]) (rng s) (trace s)).
Proof.
  intros HT Hcol. unfold mda_permute.
  unfold bind at 1. unfold df_copy, bind at 1, read, alloc. rewrite HT.
  unfold bind at 1.
  by rewrite (shuffle_column_no_column _ _ T) by first [apply lookup_snoc | done].
Qed.

Lemma frame_cell_set_loc idx col v sp c i :
  i <> idx -> frame_cell (set_loc idx col v sp) c i = frame_cell sp c i.
Proof.
  intros Hi. unfold frame_cell, set_loc. simpl.
  induction (df_cols sp) as [| [n w] cs IH]; [done |]. simpl.
  destruct (decide (n = col)) as [-> | Hn]; simpl.
  - destruct (decide (col = c)); [| done]. simpl.
    by rewrite list_lookup_insert_ne.
  - destruct (decide (n = c)); done.
Qed.

(** The loop over the features of one fold, when it completes. *)
Lemma mda_permute_loop_ok scoring fitted X_test T y w idx cols :
  forall sp s sp' s',
  heap s !! X_test = Some T ->
  foldM (mda_permute scoring fitted X_test y w idx) cols sp s = (Ok sp', s') ->
  (exists copies, heap s' = heap s ++ copies /\ length copies = length cols) /\
  trace s' = trace s ++ map (score_event scoring)
                            (seq (length (heap s)) (length cols)) /\
  (forall c i, i <> idx -> frame_cell sp' c i = frame_cell sp c i).
Proof.
  induction cols as [| col cols IH]; intros sp s sp' s' HT Hrun.
  - injection Hrun as <- <-. split; [exists []; by rewrite app_nil_r |].
    split; [by rewrite app_nil_r | done].
  - simpl in Hrun. unfold bind in Hrun.
    destruct (col_values col (df_cols T)) as [v |] eqn:Ecol; cycle 1.
    { by rewrite (mda_permute_no_column _ _ _ T) in Hrun. }
    rewrite (mda_permute_eq _ _ _ T _ _ _ _ _ v) in Hrun by done.
    apply IH in Hrun as ([copies [Hh Hlen]] & Ht & Hrows); cycle 1.
    { cbn [heap]. by apply lookup_app_l_Some. }
    cbn [heap rng trace] in *. split_and!.
    + eexists (_ :: copies). rewrite Hh, <- app_assoc. split; [done |].
      simpl. by rewrite Hlen.
    + rewrite Ht, <- app_assoc, length_app. simpl.
      by rewrite Nat.add_1_r.
    + intros c i Hi. rewrite (Hrows c i Hi). by apply frame_cell_set_loc.
Qed.

(** One fold, when it completes. *)
Lemma mda_fold_ok clf lX X y sw scoring scores sp idx train test s scores' sp' s' :
  heap s !! lX = Some X ->
  mda_fold clf lX y sw scoring (scores, sp) (idx, (train, test)) s
  = (Ok (scores', sp'), s') ->
  exists Xtr Xte ytr yte wtr wte,
    iloc train X = Some Xtr /\ take_rows train y = Some ytr /\
    weights_take train sw = Some wtr /\
    iloc test X = Some Xte /\ take_rows test y = Some yte /\
    weights_take test sw = Some wte /\
    scores' = <[idx := score_value scoring (fit clf Xtr ytr wtr (rng s)).1
                                   Xte yte wte]> scores /\
    (forall c i, i <> idx -> frame_cell sp' c i = frame_cell sp c i) /\
    (exists copies, heap s' = heap s ++ Xtr :: Xte :: copies /\
                    length copies = length (columns X)) /\
    trace s' = trace s ++ fold_trace scoring (length (columns X)) (length (heap s)).
Proof.
  intros HX Hrun.
  apply (wp_elim _ (fun r s' => forall scores' sp', r = Ok (scores', sp') ->
    exists Xtr Xte ytr yte wtr wte,
    iloc train X = Some Xtr /\ take_rows train y = Some ytr /\
    weights_take train sw = Some wtr /\
    iloc test X = Some Xte /\ take_rows test y = Some yte /\
    weights_take test sw = Some wte /\
    scores' = <[idx := score_value scoring (fit clf Xtr ytr wtr (rng s)).1
                                   Xte yte wte]> scores /\
    (forall c i, i <> idx -> frame_cell sp' c i = frame_cell sp c i) /\
    (exists copies, heap s' = heap s ++ Xtr :: Xte :: copies /\
                    length copies = length (columns X)) /\
    trace s' = trace s ++ fold_trace scoring (length (columns X)) (length (heap s)))
    _ _ _ Hrun); [| done].
  clear Hrun scores' sp' s'. unfold mda_fold.
  apply wp_bind, (wp_df_iloc _ X); [done |].
  destruct (iloc train X) as [Xtr |] eqn:Etr; [| done].
  apply wp_bind, wp_series_iloc.
  destruct (take_rows train y) as [ytr |] eqn:Eytr; [| done].
  apply wp_bind, wp_weights_iloc.
  destruct (weights_take train sw) as [wtr |] eqn:Ewtr; [| done].
  apply wp_bind, (wp_df_iloc _ X); [by apply lookup_app_l_Some |].
  cbn [heap rng trace].
  destruct (iloc test X) as [Xte |] eqn:Ete; [| done].
  apply wp_bind, wp_series_iloc.
  destruct (take_rows test y) as [yte |] eqn:Eyte; [| done].
  apply wp_bind, wp_weights_iloc.
  destruct (weights_take test sw) as [wte |] eqn:Ewte; [| done].
  apply wp_bind, (wp_clf_fit _ _ Xtr).
  { cbn [heap]. apply lookup_app_l_Some, lookup_snoc. }
  cbn [heap rng trace].
  apply wp_bind. unfold wp at 1.
  rewrite (score_eq _ _ _ Xte) by (cbn [heap]; apply lookup_snoc).
  cbn [fst snd heap rng trace].
  apply wp_bind, wp_read. cbn [heap].
  rewrite (lookup_app_l_Some _ _ _ X) by by apply lookup_app_l_Some.
  apply wp_bind. unfold wp at 1.
  match goal with
  | |- context [foldM ?b ?l ?a ?st] =>
      destruct (foldM b l a st) as [[spf | e] sf] eqn:Eloop
  end; cbn [fst snd]; [| done].
  apply (mda_permute_loop_ok _ _ _ Xte) in Eloop
    as ([copies [Hh Hlen]] & Ht & Hrows); cycle 1.
  { cbn [heap]. apply lookup_snoc. }
  cbn [heap rng trace] in *.
  apply wp_ret. intros scores' sp' [= <- <-].
  exists Xtr, Xte, ytr, yte, wtr, wte. split_and!; try done.
  - exists copies. split; [| done]. rewrite Hh. by rewrite <- !app_assoc.
  - rewrite Ht. unfold fold_trace. rewrite <- !app_assoc. simpl.
    rewrite !length_app. simpl.
    replace (length (heap s) + 1)%nat with (S (length (heap s))) by lia.
    by replace (length (heap s) + 2)%nat with (S (S (length (heap s)))) by lia.
Qed.


(** The loop over the folds, when it completes. *)
Lemma mda_folds_ok clf lX X y sw scoring its :
  forall acc s acc' s',
  heap s !! lX = Some X ->
  foldM (mda_fold clf lX y sw scoring) its acc s = (Ok acc', s') ->
  trace s' = trace s ++ mda_trace scoring (length (columns X)) (length (heap s))
                                  (length its) /\
  length (heap s') = (length (heap s) + length its * (2 + length (columns X)))%nat /\
  heap s' !! lX = Some X.
Proof.
  induction its as [| [idx [train test]] its IH]; intros [scores sp] s acc' s' HX Hrun.
  - injection Hrun as <- <-. simpl. rewrite app_nil_r. split_and!; [done | lia | done].
  - cbn [foldM] in Hrun. unfold bind at 1 in Hrun.
    destruct (mda_fold clf lX y sw scoring (scores, sp) (idx, (train, test)) s)
      as [[[scores1 sp1] | e] s1] eqn:Efold; [| done].
    apply (mda_fold_ok _ _ X) in Efold
      as (Xtr & Xte & ytr & yte & wtr & wte & _ & _ & _ & _ & _ & _ & _ & _
          & [copies [Hh Hlen]] & Ht); [| done].
    assert (HX1 : heap s1 !! lX = Some X).
    { rewrite Hh. by apply lookup_app_l_Some. }
    assert (Hl1 : length (heap s1)
                  = (length (heap s) + (2 + length (columns X)))%nat).
    { rewrite Hh, length_app. simpl. lia. }
    destruct (IH _ _ _ _ HX1 Hrun) as (Ht' & Hl' & HX').
    split_and!; [| | done].
    + cbn [length mda_trace]. rewrite Ht', Ht, Hl1, <- app_assoc. done.
    + rewrite Hl', Hl1. simpl. lia.
Qed.

Lemma count_events_app p evs evs' :
  count_events p (evs ++ evs') = (count_events p evs + count_events p evs')%nat.
Proof. unfold count_events. by rewrite filter_app, length_app. Qed.

Lemma count_fits_scores scoring ls :
  count_events is_fit (map (score_event scoring) ls) = 0%nat /\
  count_events is_scoring_call (map (score_event scoring) ls) = length ls.
Proof.
  unfold count_events, score_event.
  destruct (decide (scoring = "neg_log_loss"));
    induction ls as [| l ls [IH1 IH2]]; try done; simpl map;
    (rewrite filter_cons_False by done); (rewrite filter_cons_True by done);
    simpl; by rewrite IH1, IH2.
Qed.

Lemma count_mda_trace scoring m base k :
  count_events is_fit (mda_trace scoring m base k) = k /\
  count_events is_scoring_call (mda_trace scoring m base k) = (k * (1 + m))%nat.
Proof.
  revert base. induction k as [| k IH]; intros base; [done |].
  destruct (IH (base + (2 + m))%nat) as [IH1 IH2].
  destruct (count_fits_scores scoring (seq (S base) (S m))) as [Hf Hs].
  rewrite length_seq in Hs.
  cbn [mda_trace]. rewrite !count_events_app, IH1, IH2. unfold fold_trace.
  change (EvFit base :: ?l) with ([EvFit base] ++ l).
  rewrite !count_events_app, Hf, Hs. split; [done |].
  change (count_events is_scoring_call [EvFit base]) with 0%nat. lia.
Qed.

Lemma set_col_same col v v' cs :
  col_values col cs = Some v -> col_values col (set_col col v' cs) = Some v'.
Proof.
  induction cs as [| [n w] cs IH]; [done |]. simpl.
  destruct (decide (n = col)) as [-> | Hn]; simpl.
  - by rewrite decide_True.
  - rewrite decide_False by done. exact IH.
Qed.

Lemma label_count_NoDup col (cs : list (string * Series)) :
  NoDup (map fst cs) -> col ∈ map fst cs -> label_count col cs = 1%nat.
Proof.
  intros Hnd Hin. unfold label_count.
  rewrite <- (length_map fst), (filter_label_unique _ _ Hnd Hin). done.
Qed.

Lemma col_values_elem col cs v :
  col_values col cs = Some v -> (col, v) ∈ cs.
Proof.
  induction cs as [| [n w] cs IH]; [done |]. simpl.
  destruct (decide (n = col)) as [-> | Hn].
  - intros [= ->]. by left.
  - intros Hv. right. by apply IH.
Qed.

Lemma col_values_set_loc idx col v sp c u :
  col_values c (df_cols sp) = Some u ->
  exists u', col_values c (df_cols (set_loc idx col v sp)) = Some u' /\
             length u' = length u.
Proof.
  unfold set_loc. simpl.
  induction (df_cols sp) as [| [n w] cs IH]; [done |]. simpl.
  destruct (decide (n = col)) as [-> | Hn]; simpl.
  - destruct (decide (col = c)); [| exact IH].
    intros [= ->]. eexists. split; [done |]. by rewrite length_insert.
  - destruct (decide (n = c)); [| exact IH].
    intros [= ->]. by eexists.
Qed.

Lemma frame_cell_set_loc_other idx col v sp c i :
  c <> col -> frame_cell (set_loc idx col v sp) c i = frame_cell sp c i.
Proof.
  intros Hc. unfold frame_cell, set_loc. simpl.
  induction (df_cols sp) as [| [n w] cs IH]; [done |]. simpl.
  destruct (decide (n = col)) as [-> | Hn]; simpl.
  - rewrite !decide_False by done. exact IH.
  - destruct (decide (n = c)); done.
Qed.

Lemma frame_cell_set_loc_same idx col v sp u :
  col_values col (df_cols sp) = Some u -> (idx < length u)%nat ->
  frame_cell (set_loc idx col v sp) col idx = Some v.
Proof.
  intros Hu Hidx. unfold frame_cell, set_loc. simpl. revert Hu.
  induction (df_cols sp) as [| [n w] cs IH]; [done |]. simpl.
  destruct (decide (n = col)) as [-> | Hn]; simpl.
  - rewrite decide_True by done. intros [= ->]. simpl.
    by apply list_lookup_insert_eq.
  - rewrite decide_False by done. exact IH.
Qed.

(** A pass for one feature leaves the cells of the other features. *)
Lemma mda_permute_loop_other_cols scoring fitted X_test T y w idx cols :
  forall sp s sp' s',
  heap s !! X_test = Some T ->
  foldM (mda_permute scoring fitted X_test y w idx) cols sp s = (Ok sp', s') ->
  forall c i, c ∉ cols -> frame_cell sp' c i = frame_cell sp c i.
Proof.
  induction cols as [| col cols IH]; intros sp s sp' s' HT Hrun c i Hc.
  - by injection Hrun as <- <-.
  - cbn [foldM] in Hrun. unfold bind at 1 in Hrun.
    destruct (col_values col (df_cols T)) as [v |] eqn:Ecol; cycle 1.
    { by rewrite (mda_permute_no_column _ _ _ T) in Hrun. }
    rewrite (mda_permute_eq _ _ _ T _ _ _ _ _ v) in Hrun by done.
    apply not_elem_of_cons in Hc as [Hne Hc].
    assert (HT1 : forall hs g' tr,
              heap (mkState (heap s ++ hs) g' tr) !! X_test = Some T).
    { intros. cbn [heap]. by apply lookup_app_l_Some. }
    rewrite (IH _ _ _ _ (HT1 _ _ _) Hrun c i Hc).
    by apply frame_cell_set_loc_other.
Qed.

(** The cells the loop over the features writes: the pass for a feature
    scores a copy of the test partition made from the partition itself,
    so a shuffle made for one feature is not seen by the next. *)
Lemma mda_permute_loop_cells scoring fitted X_test T y w idx cols :
  forall sp s sp' s',
  heap s !! X_test = Some T ->
  NoDup cols ->
  (forall c, c ∈ cols ->
     exists u, col_values c (df_cols sp) = Some u /\ (idx < length u)%nat) ->
  foldM (mda_permute scoring fitted X_test y w idx) cols sp s = (Ok sp', s') ->
  forall j col g,
    cols !! j = Some col ->
    shuffle_rngs T cols (rng s) !! j = Some g ->
    exists v,
      col_values col (df_cols T) = Some v /\
      frame_cell sp' col idx
      = Some (score_value scoring fitted
                          (shuffled_copy col (shuffle v g).1 T) y w).
Proof.
  induction cols as [| col0 cols IH]; intros sp s sp' s' HT Hnd Hsp Hrun j col g Hj Hg.
  - done.
  - apply NoDup_cons in Hnd as [Hnotin Hnd].
    cbn [foldM] in Hrun. unfold bind at 1 in Hrun.
    destruct (col_values col0 (df_cols T)) as [v0 |] eqn:Ecol; cycle 1.
    { by rewrite (mda_permute_no_column _ _ _ T) in Hrun. }
    rewrite (mda_permute_eq _ _ _ T _ _ _ _ _ v0) in Hrun by done.
    cbn [shuffle_rngs] in Hg. rewrite Ecol in Hg.
    assert (HT1 : forall hs g' tr,
              heap (mkState (heap s ++ hs) g' tr) !! X_test = Some T).
    { intros. cbn [heap]. by apply lookup_app_l_Some. }
    destruct j as [| j]; simpl in Hj, Hg.
    + injection Hj as <-. injection Hg as <-. exists v0. split; [done |].
      rewrite (mda_permute_loop_other_cols _ _ _ T _ _ _ _ _ _ _ _ (HT1 _ _ _)
                 Hrun col0 idx Hnotin).
      destruct (Hsp col0 ltac:(by left)) as (u & Hu & Hlen).
      by apply (frame_cell_set_loc_same _ _ _ _ u).
    + apply (IH _ _ _ _ (HT1 _ _ _) Hnd) with (j := j) (col := col) (g := g)
        in Hrun; try done.
      intros c Hc. destruct (Hsp c ltac:(by right)) as (u & Hu & Hlen).
      destruct (col_values_set_loc idx col0
                  (score_value scoring fitted
                     (shuffled_copy col0 (shuffle v0 (rng s)).1 T) y w)
                  sp c u Hu) as (u' & Hu' & Hlen').
      exists u'. split; [done | lia].
Qed.

(** The loop over the features a completed fold has run. *)
Lemma mda_fold_loop_run clf lX X y sw scoring scores sp idx train test s
      scores' sp' s' :
  heap s !! lX = Some X ->
  mda_fold clf lX y sw scoring (scores, sp) (idx, (train, test)) s
  = (Ok (scores', sp'), s') ->
  exists Xtr Xte ytr yte wtr wte,
    iloc train X = Some Xtr /\ take_rows train y = Some ytr /\
    weights_take train sw = Some wtr /\
    iloc test X = Some Xte /\ take_rows test y = Some yte /\
    weights_take test sw = Some wte /\
    foldM (mda_permute scoring (fit clf Xtr ytr wtr (rng s)).1
                       (S (length (heap s))) yte wte idx)
          (columns X) sp
          (mkState (heap s ++ [Xtr; Xte]) (fit clf Xtr ytr wtr (rng s)).2
                   (trace s ++ [EvFit (length (heap s));
                                score_event scoring (S (length (heap s)))]))
    = (Ok sp', s').
Proof.
  intros HX Hrun.
  cut (wp (mda_fold clf lX y sw scoring (scores, sp) (idx, (train, test)))
    (fun r s' => forall scores' sp', r = Ok (scores', sp') ->
    exists Xtr Xte ytr yte wtr wte,
    iloc train X = Some Xtr /\ take_rows train y = Some ytr /\
    weights_take train sw = Some wtr /\
    iloc test X = Some Xte /\ take_rows test y = Some yte /\
    weights_take test sw = Some wte /\
    foldM (mda_permute scoring (fit clf Xtr ytr wtr (rng s)).1
                       (S (length (heap s))) yte wte idx)
          (columns X) sp
          (mkState (heap s ++ [Xtr; Xte]) (fit clf Xtr ytr wtr (rng s)).2
                   (trace s ++ [EvFit (length (heap s));
                                score_event scoring (S (length (heap s)))]))
    = (Ok sp', s')) s).
  { intros Hwp. exact (wp_elim _ _ _ _ _ Hrun Hwp scores' sp' eq_refl). }
  clear Hrun scores' sp' s'. unfold mda_fold.
  apply wp_bind, (wp_df_iloc _ X); [done |].
  destruct (iloc train X) as [Xtr |] eqn:Etr; [| done].
  apply wp_bind, wp_series_iloc.
  destruct (take_rows train y) as [ytr |] eqn:Eytr; [| done].
  apply wp_bind, wp_weights_iloc.
  destruct (weights_take train sw) as [wtr |] eqn:Ewtr; [| done].
  apply wp_bind, (wp_df_iloc _ X); [by apply lookup_app_l_Some |].
  cbn [heap rng trace].
  destruct (iloc test X) as [Xte |] eqn:Ete; [| done].
  apply wp_bind, wp_series_iloc.
  destruct (take_rows test y) as [yte |] eqn:Eyte; [| done].
  apply wp_bind, wp_weights_iloc.
  destruct (weights_take test sw) as [wte |] eqn:Ewte; [| done].
  apply wp_bind, (wp_clf_fit _ _ Xtr).
  { cbn [heap]. apply lookup_app_l_Some, lookup_snoc. }
  cbn [heap rng trace].
  apply wp_bind. unfold wp at 1.
  rewrite (score_eq _ _ _ Xte) by (cbn [heap]; apply lookup_snoc).
  cbn [fst snd heap rng trace].
  apply wp_bind, wp_read. cbn [heap].
  rewrite (lookup_app_l_Some _ _ _ X) by by apply lookup_app_l_Some.
  apply wp_bind. unfold wp at 1.
  rewrite !length_app. cbn [length]. rewrite !Nat.add_1_r.
  rewrite <- !app_assoc. cbn [app].
  match goal with
  | |- context [foldM ?b ?l ?a ?st] =>
      destruct (foldM b l a st) as [[spf | e] sf] eqn:Eloop
  end; cbn [fst snd]; [| done].
  apply wp_ret. intros scores' sp' [= <- <-].
  by exists Xtr, Xte, ytr, yte, wtr, wte.
Qed.

(** X6: the cells one completed fold of [feat_imp_MDA] writes to
    [scores_perm] (lines 91-103), for a matrix whose column labels are
    distinct.  The cell of the fold and of a feature is the score of the
    classifier fitted on the train rows, on a copy of the test partition
    in which the cells of that feature, and of no other, are replaced by
    one shuffle of them: every copy is made from the test partition
    itself, so the shuffles do not accumulate from one feature to the
    next; only the random state is passed on. *)
Theorem mda_fold_shuffles_one_feature_per_copy clf lX X y sw scoring scores sp
        idx train test n s r s' :
  heap s !! lX = Some X ->
  NoDup (columns X) ->
  same_shape (empty_frame n (columns X)) sp ->
  (idx < n)%nat ->
  mda_fold clf lX y sw scoring (scores, sp) (idx, (train, test)) s = (r, s') ->
  forall scores' sp', r = Ok (scores', sp') ->
  exists X_train X_test y_train y_test w_train w_test,
    iloc train X = Some X_train /\ take_rows train y = Some y_train /\
    weights_take train sw = Some w_train /\
    iloc test X = Some X_test /\ take_rows test y = Some y_test /\
    weights_take test sw = Some w_test /\
    let fitted := (fit clf X_train y_train w_train (rng s)).1 in
    let g0 := (fit clf X_train y_train w_train (rng s)).2 in
    forall j col g,
      columns X !! j = Some col ->
      shuffle_rngs X_test (columns X) g0 !! j = Some g ->
      exists v,
        col_values col (df_cols X_test) = Some v /\
        let copy := shuffled_copy col (shuffle v g).1 X_test in
        col_values col (df_cols copy) = Some (shuffle v g).1 /\
        only_column_differs col X_test copy /\
        frame_cell sp' col idx
        = Some (score_value scoring fitted copy y_test w_test).
Proof.
  intros HX Hnd Hsh Hidx Hrun scores' sp' ->.
  destruct (mda_fold_loop_run _ _ _ _ _ _ _ _ _ _ _ _ _ _ _ HX Hrun)
    as (Xtr & Xte & ytr & yte & wtr & wte & H1 & H2 & H3 & H4 & H5 & H6 & Hloop).
  exists Xtr, Xte, ytr, yte, wtr, wte. split_and!; try done.
  intros fitted g0 j col g Hj Hg.
  destruct (iloc_Some _ _ _ H4) as (Hcols & _ & _).
  destruct (same_shape_empty_frame _ _ _ Hsh) as (_ & Hspcols & Hlens).
  apply (mda_permute_loop_cells _ _ _ Xte) with (j := j) (col := col) (g := g)
    in Hloop; try done.
  - destruct Hloop as (v & Hv & Hcell). exists v. split; [done |].
    intros copy. split_and!; [| apply shuffled_copy_only_column_differs | done].
    unfold copy, shuffled_copy. rewrite decide_True.
    + by apply (set_col_same _ v).
    + apply label_count_NoDup.
      * fold (columns Xte). by rewrite Hcols.
      * fold (columns Xte). rewrite Hcols. by eapply list_elem_of_lookup_2.
  - cbn [heap]. change [Xtr; Xte] with ([Xtr] ++ [Xte]). rewrite app_assoc.
    replace (S (length (heap s))) with (length (heap s ++ [Xtr]))
      by (rewrite length_app; simpl; lia).
    apply lookup_snoc.
  - intros c Hc. rewrite <- Hspcols in Hc.
    destruct (col_values_is_Some c (df_cols sp) Hc) as [u Hu].
    exists u. split; [done |].
    rewrite Forall_forall in Hlens.
    pose proof (Hlens (c, u) (col_values_elem _ _ _ Hu)) as Hlen.
    simpl in Hlen. lia.
Qed.

(** X7: one fold of [feat_imp_MDA] that completes (lines 67-103).  The
    classifier is fitted on the train rows of the matrix, the labels and
    the weights only; the baseline score written to [scores[idx]] is that
    of the fitted classifier on the test rows of the matrix, labels and
    weights; and the fold writes row [idx] of the two score tables only,
    every other row keeps its cells. *)
Theorem mda_fold_fits_train_scores_test clf lX X y sw scoring scores sp idx
        train test s r s' :
  heap s !! lX = Some X ->
  mda_fold clf lX y sw scoring (scores, sp) (idx, (train, test)) s = (r, s') ->
  forall scores' sp', r = Ok (scores', sp') ->
  exists X_train X_test y_train y_test w_train w_test,
    iloc train X = Some X_train /\ take_rows train y = Some y_train /\
    weights_take train sw = Some w_train /\
    iloc test X = Some X_test /\ take_rows test y = Some y_test /\
    weights_take test sw = Some w_test /\
    let fitted := (fit clf X_train y_train w_train (rng s)).1 in
    scores' = <[idx := score_value scoring fitted X_test y_test w_test]> scores /\
    (forall i, i <> idx -> scores' !! i = scores !! i) /\
    (forall c i, i <> idx -> frame_cell sp' c i = frame_cell sp c i).
Proof.
  intros HX Hrun scores' sp' ->.
  destruct (mda_fold_ok _ _ _ _ _ _ _ _ _ _ _ _ _ _ _ HX Hrun)
    as (Xtr & Xte & ytr & yte & wtr & wte & H1 & H2 & H3 & H4 & H5 & H6
        & Hs & Hrows & _ & _).
  exists Xtr, Xte, ytr, yte, wtr, wte. split_and!; try done.
  intros fitted. split_and!; try done.
  intros i Hi. rewrite Hs. by apply list_lookup_insert_ne.
Qed.

(** X8: the classifier calls of a run of [feat_imp_MDA] that returns.
    With [m] features and [k] folds run ([k] is the smaller of [n_splits]
    and the number of folds the splitter yields, since line 67 zips them),
    the calls are, fold after fold, one fit on the fold's train partition,
    one score of its test partition, then one score per feature on that
    feature's copy, all through [predict_proba] under 'neg_log_loss' and
    through [predict] under 'accuracy'.  So the run makes [k] fits and
    [k * (1 + m)] scoring calls, and leaves [k * (2 + m)] new frames. *)
Theorem mda_call_sequence clf lX X y n_splits t1 sw pct scoring s r s' :
  heap s !! lX = Some X ->
  feat_imp_MDA clf lX y n_splits t1 sw pct scoring s = (r, s') ->
  is_ok r ->
  let m := length (columns X) in
  let k := Nat.min n_splits (length (split n_splits t1 pct X)) in
  exists evs,
    trace s' = trace s ++ evs /\
    evs = mda_trace scoring m (length (heap s)) k /\
    count_events is_fit evs = k /\
    count_events is_scoring_call evs = (k * (1 + m))%nat /\
    length (heap s') = (length (heap s) + k * (2 + m))%nat.
Proof.
  intros HX Hrun Hok m k.
  destruct (valid_scoring scoring) eqn:Hv; cycle 1.
  { unfold feat_imp_MDA in Hrun. rewrite Hv in Hrun. simpl in Hrun.
    injection Hrun as <- <-. done. }
  rewrite feat_imp_MDA_run in Hrun by done.
  destruct (mda_scores clf lX y n_splits t1 sw pct scoring s)
    as [[[scores sp] | e] s1] eqn:Escores; injection Hrun as <- <-; [| done].
  unfold mda_scores, bind, read in Escores. rewrite HX in Escores.
  apply (mda_folds_ok _ _ X) in Escores as (Ht & Hl & _); [| done].
  rewrite length_zip, length_seq in Ht, Hl.
  destruct (count_mda_trace scoring m (length (heap s)) k) as [Hf Hs].
  eexists. split_and!; done.
Qed.

Lemma importance_ratio_fin scoring b q :
  scoring = "neg_log_loss" \/ scoring = "accuracy" ->
  nonzero_denominator scoring q ->
  ratio_denominator scoring q <> 0 /\
  importance_ratio scoring (Fin b) (Fin q)
  = Fin ((b - q) / ratio_denominator scoring q).
Proof.
  intros Hs Hq.
  unfold importance_ratio, max_improvement, nonzero_denominator, ratio_denominator in *.
  destruct (decide (scoring = "accuracy")) as [Ha | Ha]; simpl.
  - assert (Hd : 1 - q <> 0).
    { intros Hd. apply Hq. rewrite <- (Qcplus_0_l q), <- Hd. ring. }
    split; [done |]. unfold Qcminus in *.
    apply is_zero_false in Hd as ->. done.
  - assert (Hd : - q <> 0).
    { intros Hd. apply Hq. rewrite <- (Qcopp_involutive q), Hd. ring. }
    split; [done |]. unfold Qcminus in *.
    apply is_zero_false in Hd as ->. done.
Qed.

(** X9: the value of one cell of the ratio table (lines 105-111) for
    finite scores and a non-zero denominator: (baseline - permuted) over
    the denominator.  It is 0 when the permutation leaves the score
    unchanged, and exactly 1 whenever the baseline score is the best one
    (accuracy 1, negated log-loss 0), however little the permutation
    costs. *)
Theorem mda_ratio_special_values scoring scores scores_perm j col permuted idx
        b q :
  scoring = "neg_log_loss" \/ scoring = "accuracy" ->
  df_cols scores_perm !! j = Some (col, permuted) ->
  scores !! idx = Some (Fin b) ->
  permuted !! idx = Some (Fin q) ->
  nonzero_denominator scoring q ->
  exists ratio,
    df_cols (mda_ratio scoring scores scores_perm) !! j = Some (col, ratio) /\
    ratio !! idx = Some (Fin ((b - q) / ratio_denominator scoring q)) /\
    (b = q -> ratio !! idx = Some (Fin 0)) /\
    (b = best_score scoring -> ratio !! idx = Some (Fin 1)).
Proof.
  intros Hs Hj Hb Hq Hnz.
  destruct (importance_ratio_fin scoring b q Hs Hnz) as [Hd Hr].
  assert (Hcell : zip_with (importance_ratio scoring) scores permuted !! idx
                  = Some (Fin ((b - q) / ratio_denominator scoring q))).
  { rewrite lookup_zip_with, Hb. simpl. rewrite Hq. simpl. by rewrite Hr. }
  exists (zip_with (importance_ratio scoring) scores permuted). split_and!.
  - rewrite mda_ratio_closed by done. simpl. fmapify.
    by rewrite list_lookup_fmap, Hj.
  - done.
  - intros ->. rewrite Hcell. do 2 f_equal. field. done.
  - intros ->. rewrite Hcell. do 2 f_equal.
    unfold best_score, ratio_denominator in *.
    destruct (decide (scoring = "accuracy")); field; done.
Qed.

End MDA_exact.

(** ** The errors of [feat_imp_MDA] *)

Section MDA_errors.
Context `{Externals}.

Lemma mda_fold_errors clf lX X y sw scoring scores sp idx train test s :
  heap s !! lX = Some X ->
  wp (mda_fold clf lX y sw scoring (scores, sp) (idx, (train, test)))
     (fun r s' => forall e, r = Raise e -> e = IndexError) s.
Proof.
  intros HX. unfold mda_fold.
  apply wp_bind, (wp_df_iloc _ X); [done |].
  destruct (iloc train X) as [Xtr |] eqn:Etr; [| by intros ? [= <-]].
  apply wp_bind, wp_series_iloc.
  destruct (take_rows train y) as [ytr |] eqn:Eytr; [| by intros ? [= <-]].
  apply wp_bind, wp_weights_iloc.
  destruct (weights_take train sw) as [wtr |] eqn:Ewtr; [| by intros ? [= <-]].
  apply wp_bind, (wp_df_iloc _ X); [by apply lookup_app_l_Some |].
  cbn [heap rng trace].
  destruct (iloc test X) as [Xte |] eqn:Ete; [| by intros ? [= <-]].
  apply wp_bind, wp_series_iloc.
  destruct (take_rows test y) as [yte |] eqn:Eyte; [| by intros ? [= <-]].
  apply wp_bind, wp_weights_iloc.
  destruct (weights_take test sw) as [wte |] eqn:Ewte; [| by intros ? [= <-]].
  apply wp_bind, (wp_clf_fit _ _ Xtr).
  { cbn [heap]. apply lookup_app_l_Some, lookup_snoc. }
  cbn [heap rng trace].
  apply wp_bind, (wp_score _ _ _ Xte).
  { cbn [heap]. apply lookup_snoc. }
  intros v ev Hev. cbn [heap rng trace].
  apply wp_bind, wp_read. cbn [heap].
  rewrite (lookup_app_l_Some _ _ _ X) by by apply lookup_app_l_Some.
  apply wp_bind. eapply wp_mono.
  { apply (mda_permute_loop_spec _ _ _ Xte) with (n := 0%nat).
    - cbn [heap]. apply lookup_snoc.
    - lia. }
  intros r s' (copies & evs & _ & _ & _ & _ & Hsucc).
  destruct (iloc_Some _ _ _ Ete) as (Hcols & _ & _).
  destruct r as [sp' | e]; [by apply wp_ret |].
  exfalso. apply Hsucc. rewrite Hcols. by apply Forall_forall.
Qed.

Lemma mda_scores_errors clf lX X y n_splits t1 sw pct scoring s :
  heap s !! lX = Some X ->
  wp (mda_scores clf lX y n_splits t1 sw pct scoring)
     (fun r s' => forall e, r = Raise e -> e = IndexError) s.
Proof.
  intros HX. unfold mda_scores. apply wp_bind, wp_read. rewrite HX.
  apply (wp_foldM _ (fun _ _ s' => heap s' !! lX = Some X)); [done | | done].
  intros done [idx [train test]] rest [scores sp] s0 _ HX0.
  pose proof (mda_fold_errors clf lX X y sw scoring scores sp idx train test
                              s0 HX0) as Herr.
  pose proof (mda_fold_spec clf lX X y sw scoring scores sp idx train test
                            0%nat s0 HX0 ltac:(lia)) as Hspec.
  unfold wp in *.
  destruct (mda_fold clf lX y sw scoring (scores, sp) (idx, (train, test)) s0)
    as [[acc' | e] s'']; simpl in *; [| done].
  destruct Hspec as [(frames & evs & -> & _) _]. by apply lookup_app_l_Some.
Qed.

(** X15: the errors of [feat_imp_MDA] on a matrix held in the store
    (errors raised inside the classifier, the metrics or the splitter
    apart: the model takes those calls as total).  A run fails either with
    the configuration error, exactly when the scoring name is not
    accepted, and then nothing has run; or with an [IndexError] of a
    positional selection (lines 68-77), and then the inputs are ill formed:
    a fold position outside the matrix, a label or weight vector of
    another length, or a ragged matrix.  The loop over the features never
    fails on a missing column. *)
Theorem mda_error_kinds clf lX X y n_splits t1 sw pct scoring s r s' :
  heap s !! lX = Some X ->
  feat_imp_MDA clf lX y n_splits t1 sw pct scoring s = (r, s') ->
  forall e, r = Raise e ->
  ((scoring ∉ ["neg_log_loss"; "accuracy"]) /\ e = InvalidConfiguration /\
   s' = s) \/
  ((scoring = "neg_log_loss" \/ scoring = "accuracy") /\ e = IndexError /\
   ~ (wf_frame X /\
      Forall (fold_in_range (df_nrows X)) (split n_splits t1 pct X) /\
      length y = df_nrows X /\ weights_fit (df_nrows X) sw)).
Proof.
  intros HX Hrun e ->.
  destruct (valid_scoring scoring) eqn:Hv; cycle 1.
  { left. unfold feat_imp_MDA in Hrun. rewrite Hv in Hrun. simpl in Hrun.
    injection Hrun as <- <-. split_and!; try done.
    intros Hin. unfold valid_scoring in Hv.
    by apply bool_decide_eq_false in Hv. }
  right. split; [by apply valid_scoring_cases |].
  rewrite feat_imp_MDA_run in Hrun by done.
  pose proof (mda_scores_errors clf lX X y n_splits t1 sw pct scoring s HX)
    as Herr.
  pose proof (mda_scores_spec clf lX X y n_splits t1 sw pct scoring s HX)
    as Hspec.
  unfold wp in *.
  destruct (mda_scores clf lX y n_splits t1 sw pct scoring s)
    as [[[scores sp] | e'] s1]; [done |]. injection Hrun as <- <-.
  simpl in *. split; [by apply Herr |].
  intros (Hwf & Hfolds & Hy & Hw). destruct Hspec as [_ Hsucc].
  by apply (Hsucc Hwf Hfolds Hy Hw).
Qed.

End MDA_errors.


(** ** The paths of [feat_importance] and keyword calls *)

Section Orchestrator_paths.
Context `{Externals}.

(** X10: the classifier calls of a run of the orchestrator with method
    'MDA' that returns.  The fit of the prototype on the full dataset
    comes first and allocates nothing; then come the calls of
    [feat_imp_MDA], fold after fold, on frames allocated during the run.
    With [m] features and [k] folds run the whole run makes [1 + k] fits
    (the full-data fit is not reused by any fold) and [k * (1 + m)] scoring
    calls. *)
Theorem feat_importance_MDA_call_sequence lX X cont clf n_estimators n_splits
        max_samples num_threads pct scoring min_w_leaf s r s' :
  heap s !! lX = Some X ->
  feat_importance lX cont clf n_estimators n_splits max_samples num_threads
                  pct scoring "MDA" min_w_leaf s = (r, s') ->
  is_ok r ->
  let m := length (columns X) in
  let k := Nat.min n_splits (length (split n_splits (cont_t1 cont) pct X)) in
  exists evs,
    trace s' = trace s ++ evs /\
    evs = EvFit lX :: mda_trace scoring m (length (heap s)) k /\
    count_events is_fit evs = S k /\
    count_events is_scoring_call evs = (k * (1 + m))%nat /\
    length (heap s') = (length (heap s) + k * (2 + m))%nat.
Proof.
  intros HX Hrun Hok m k.
  rewrite (feat_importance_MDA_eq _ X) in Hrun by done.
  set (proto := prototype clf n_estimators max_samples num_threads min_w_leaf)
    in Hrun.
  set (s1 := after_full_fit proto lX X cont s) in Hrun.
  assert (HX1 : heap s1 !! lX = Some X) by done.
  destruct (valid_scoring scoring) eqn:Hv; cycle 1.
  { unfold feat_imp_MDA in Hrun. rewrite Hv in Hrun. simpl in Hrun.
    injection Hrun as <- <-. done. }
  rewrite feat_imp_MDA_run in Hrun by done.
  destruct (mda_scores proto lX (cont_size cont) n_splits (cont_t1 cont)
                       (Some (cont_w cont)) pct scoring s1)
    as [[[scores sp] | e] s2] eqn:Escores; injection Hrun as <- <-; [| done].
  unfold mda_scores, bind, read in Escores. rewrite HX1 in Escores.
  apply (mda_folds_ok _ _ X) in Escores as (Ht & Hl & _); [| done].
  rewrite length_zip, length_seq in Ht, Hl.
  destruct (count_mda_trace scoring m (length (heap s)) k) as [Hf Hs].
  exists (EvFit lX :: mda_trace scoring m (length (heap s)) k).
  split_and!; try done.
  - rewrite Ht. cbn [trace heap s1 after_full_fit]. by rewrite <- app_assoc.
  - change (EvFit lX :: ?l) with ([EvFit lX] ++ l).
    rewrite count_events_app, Hf. done.
Qed.

(** X11: with method 'MDA' and a scoring name that is neither
    'neg_log_loss' nor 'accuracy', the orchestrator raises the
    configuration error only after it has fitted the prototype on the full
    dataset (line 173 precedes the check of line 61): the run leaves one
    fit in the trace and the random state that fit consumed. *)
Theorem feat_importance_MDA_checks_scoring_after_fit lX X cont clf n_estimators
        n_splits max_samples num_threads pct scoring min_w_leaf s :
  heap s !! lX = Some X ->
  scoring ∉ ["neg_log_loss"; "accuracy"] ->
  let proto := prototype clf n_estimators max_samples num_threads min_w_leaf in
  feat_importance lX cont clf n_estimators n_splits max_samples num_threads
                  pct scoring "MDA" min_w_leaf s
  = (Raise InvalidConfiguration, after_full_fit proto lX X cont s).
Proof.
  intros HX Hs proto. unfold feat_importance. fold (prototype clf n_estimators
    max_samples num_threads min_w_leaf). fold proto.
  unfold bind at 1. rewrite (clf_fit_run _ _ X) by done.
  fold (after_full_fit proto lX X cont s).
  set (s1 := after_full_fit proto lX X cont s).
  unfold bind at 1. unfold read.
  assert (HX1 : heap s1 !! lX = Some X) by done. rewrite HX1.
  rewrite decide_False by done. rewrite decide_True by done.
  unfold bind at 1. unfold bind at 1. unfold feat_imp_MDA.
  by rewrite (valid_scoring_false scoring Hs).
Qed.

(** X12: with method 'MDI', an error of [feat_imp_MDI] on the model
    fitted at line 173 (a classifier without [estimators_], a number of
    columns that differs from the length of the importance vectors) is the
    error of the orchestrator, raised right after that fit: no
    cross-validation fold has run. *)
Theorem feat_importance_MDI_error_before_cv lX X cont clf n_estimators n_splits
        max_samples num_threads pct scoring min_w_leaf s e :
  heap s !! lX = Some X ->
  let proto := prototype clf n_estimators max_samples num_threads min_w_leaf in
  feat_imp_MDI (full_fit proto X cont s) (columns X) = Raise e ->
  feat_importance lX cont clf n_estimators n_splits max_samples num_threads
                  pct scoring "MDI" min_w_leaf s
  = (Raise e, after_full_fit proto lX X cont s).
Proof.
  intros HX proto Hmdi. unfold proto in *.
  rewrite (feat_importance_MDI_eq _ X) by done. by rewrite Hmdi.
Qed.

Lemma bind_params_missing sig kw p :
  (p, None) ∈ sig -> kw_get p kw = None ->
  exists msg, bind_params sig kw = Raise (TypeError msg).
Proof.
  intros Hin Hget. induction sig as [| [p' d] sig IH].
  - by apply elem_of_nil in Hin.
  - apply elem_of_cons in Hin as [[= <- <-] | Hin]; simpl.
    + rewrite Hget. by eexists.
    + destruct (IH Hin) as [msg ->].
      destruct (kw_get p' kw), d; by eexists.
Qed.

Lemma unexpected_keyword_found sig kw n :
  n ∈ map fst kw -> n ∉ map fst sig -> is_Some (unexpected_keyword sig kw).
Proof.
  intros Hin Hout. induction kw as [| [n' v] kw IH].
  - by apply elem_of_nil in Hin.
  - simpl in *. destruct (decide (n' ∈ map fst sig)) as [Hn' | Hn']; [| done].
    apply elem_of_cons in Hin as [-> | Hin]; [done | by apply IH].
Qed.

(** X14: a keyword call of [feat_imp_SFI] (signature of lines 117-118)
    that leaves out [clf], [X] or [y], or passes a keyword that is not one
    of its ten parameters, raises a [TypeError] at the call: the body does
    not run, no frame is allocated and the classifier is not called. *)
Theorem feat_imp_SFI_keyword_call_rejected kw s :
  kw_get "clf" kw = None \/ kw_get "X" kw = None \/ kw_get "y" kw = None \/
  (exists n, n ∈ map fst kw /\ n ∉ map fst feat_imp_SFI_signature) ->
  exists msg, call_feat_imp_SFI kw s = (Raise (TypeError msg), s).
Proof.
  intros Hbad.
  assert (Hbind : exists msg,
             bind_call feat_imp_SFI_signature kw = Raise (TypeError msg)).
  { unfold bind_call.
    destruct (unexpected_keyword feat_imp_SFI_signature kw) as [n |] eqn:Eun;
      [by eexists |].
    destruct Hbad as [Hget | [Hget | [Hget | (n & Hin & Hout)]]].
    - apply (bind_params_missing _ _ "clf"); [| done]. by left.
    - apply (bind_params_missing _ _ "X"); [| done]. right. by left.
    - apply (bind_params_missing _ _ "y"); [| done]. right. right. by left.
    - destruct (unexpected_keyword_found _ _ _ Hin Hout) as [n' Hn'].
      congruence. }
  destruct Hbind as [msg Hmsg]. exists msg.
  unfold call_feat_imp_SFI, bind. by rewrite Hmsg.
Qed.

End Orchestrator_paths.

(** * The theorems on a concrete input *)

Ltac by_decide := apply (bool_decide_unpack _); vm_compute; exact I.

Section Witnesses.
Import Toy.
#[local] Existing Instance Toy.env.

Lemma mdi_aggregates_nonzero_cells_witness :
  exists report S,
    feat_imp_MDI forest0 ["A"; "B"; "C"] = Ok report /\
    length report = 3%nat /\
    S = series_sum (map (fun j => mean_of (nonzero_cells (column_of trees0 j)))
                        (seq 0 3)) /\
    forall j name, ["A"; "B"; "C"] !! j = Some name ->
      let used := nonzero_cells (column_of trees0 j) in
      report !! j =
      Some (name,
            mkRow (fdiv (mean_of used) S)
                  (fdiv (fmul (std_of 1 used) (sqrt_nat (length trees0))) S)).
Proof.
  apply (mdi_aggregates_nonzero_cells forest0 ["A"; "B"; "C"] trees0);
    reflexivity.
Defined.

Lemma mdi_means_sum_to_one_witness :
  exists report S,
    feat_imp_MDI forest0 ["A"; "B"; "C"] = Ok report /\
    series_sum (mdi_means trees0 3) = Fin S /\
    0 < S /\
    (forall j name, ["A"; "B"; "C"] !! j = Some name ->
       report !! j = Some (name, mdi_row trees0 (Fin S) j)) /\
    series_sum (report_means report) = Fin 1.
Proof.
  apply (mdi_means_sum_to_one forest0 ["A"; "B"; "C"] trees0).
  - reflexivity.
  - by_decide.
  - by_decide.
  - apply Exists_cons_hd, Exists_cons_hd. reflexivity.
Defined.

Lemma mda_report_formula_witness :
  let run := feat_imp_MDA clf0 0%nat y0 2 t0 (Some w0) (Fin 0) "accuracy" s0 in
  is_ok run.1 /\
  (forall imp oos,
     run.1 = Ok (imp, oos) ->
     exists scores scores_perm,
       mda_scores clf0 0%nat y0 2 t0 (Some w0) (Fin 0) "accuracy" s0
       = (Ok (scores, scores_perm), run.2) /\
       oos = series_mean scores /\
       length scores = 2%nat /\
       columns scores_perm = columns X0 /\
       forall j col permuted,
         df_cols scores_perm !! j = Some (col, permuted) ->
         length permuted = 2%nat /\
         let ratio := zip_with (importance_ratio "accuracy") scores permuted in
         imp !! j = Some (col, mkRow (series_mean ratio)
                                     (fmul (series_std ratio) (sqrt_nat 2)))).
Proof.
  intros run.
  destruct (mda_report_formula clf0 0%nat X0 y0 2 t0 (Some w0) (Fin 0)
                               "accuracy" s0 run.1 run.2) as [Hok Hrep].
  - reflexivity.
  - apply surjective_pairing.
  - split; [| exact Hrep]. apply Hok.
    + right. reflexivity.
    + by_decide.
    + by_decide.
    + reflexivity.
    + reflexivity.
Defined.

Lemma invalid_scoring_fails_fast_witness :
  feat_imp_MDA clf0 0%nat y0 2 t0 (Some w0) (Fin 0) "f1" s0
  = (Raise InvalidConfiguration, s0) /\
  (columns X0 <> [] ->
   exists s',
     feat_imp_SFI clf0 0%nat y0 (Some w0) "f1" 2 t0 None (Fin 0) true s0
     = (Raise InvalidConfiguration, s') /\
     trace s' = trace s0 /\ rng s' = rng s0) /\
  (columns X0 = [] ->
   feat_imp_SFI clf0 0%nat y0 (Some w0) "f1" 2 t0 None (Fin 0) true s0
   = (Ok [], s0)).
Proof.
  apply (invalid_scoring_fails_fast clf0 0%nat X0 y0 2 t0 (Some w0) (Fin 0)
                                    "f1" None true s0).
  - by_decide.
  - reflexivity.
Defined.

(** C4, as stated, fails here: with an unknown scoring name and a matrix
    without columns [feat_imp_SFI] returns an empty report; it raises
    nothing. *)
Lemma sfi_invalid_scoring_no_column :
  ("f1" ∉ ["neg_log_loss"; "accuracy"]) /\
  feat_imp_SFI clf0 0%nat y0 (Some w0) "f1" 2 t0 None (Fin 0) true s_empty
  = (Ok [], s_empty) /\
  ~ (exists e s',
       feat_imp_SFI clf0 0%nat y0 (Some w0) "f1" 2 t0 None (Fin 0) true s_empty
       = (Raise e, s')).
Proof.
  split_and!; [by_decide | reflexivity |].
  intros (e & s' & Hrun). discriminate Hrun.
Qed.

Lemma mda_never_mutates_shared_frames_witness :
  let run := feat_imp_MDA clf0 0%nat y0 2 t0 (Some w0) (Fin 0) "accuracy" s0 in
  heap run.2 !! 0%nat = Some X0 /\
  (exists frames, heap run.2 = heap s0 ++ frames) /\
  (is_ok run.1 ->
   exists blocks,
     heap run.2 = heap s0 ++ concat blocks /\
     Forall2 (fun it block => fold_frames X0 it.2 block)
             (zip (seq 0 2) (split 2 t0 (Fin 0) X0)) blocks).
Proof.
  apply (mda_never_mutates_shared_frames clf0 0%nat X0 y0 2 t0 (Some w0)
                                         (Fin 0) "accuracy" s0).
  - reflexivity.
  - apply surjective_pairing.
Defined.

Lemma mda_ratio_division_by_zero_witness :
  exists ratio row,
    df_cols (mda_ratio "accuracy" scores1 scores_perm1) !! 1%nat
    = Some ("B", ratio) /\
    mda_report (mda_ratio "accuracy" scores1 scores_perm1) !! 1%nat
    = Some ("B", row) /\
    (forall idx b q,
       scores1 !! idx = Some (Fin b) -> [f 1; f 1] !! idx = Some (Fin q) ->
       exists cell,
         ratio !! idx = Some cell /\
         (is_finite cell = true <-> nonzero_denominator "accuracy" q)) /\
    (scores1 <> [] ->
     Forall2 (fun base p => exists b q, base = Fin b /\ p = Fin q /\
                                        nonzero_denominator "accuracy" q)
             scores1 [f 1; f 1] ->
     is_finite (r_mean row) = true).
Proof.
  apply (mda_ratio_division_by_zero "accuracy" scores1 scores_perm1 1 "B"
                                    [f 1; f 1]).
  - right. reflexivity.
  - reflexivity.
Defined.

Lemma feat_importance_unknown_method_witness :
  exists g,
    feat_importance 0%nat cont0 None 10 2 (Fin 1) 4 (Fin 0) "accuracy" "XYZ"
                    (Fin 0) s0
    = (Raise (UnboundLocalError "imp"),
       mkState (heap s0) g (trace s0 ++ [EvFit 0%nat])).
Proof.
  apply (feat_importance_unknown_method 0%nat X0 cont0 None 10 2 (Fin 1) 4
                                        (Fin 0) "accuracy" "XYZ" (Fin 0) s0).
  - reflexivity.
  - by_decide.
Defined.

Lemma toy_split_in_range pct X' :
  df_nrows X' = 4%nat ->
  Forall (fold_in_range 4) (split 2 t0 pct X').
Proof.
  intros HX'. simpl. unfold toy_split. rewrite HX'. by_decide.
Qed.

Lemma sfi_report_per_feature_witness :
  exists imp s',
    feat_imp_SFI clf0 0%nat y0 (Some w0) "accuracy" 2 t0 None (Fin 0) true s0
    = (Ok imp, s') /\
    map fst imp = columns X0 /\
    forall j feat,
      columns X0 !! j = Some feat ->
      exists sj scores s2,
        sj = (foldM (sfi_feature clf0 0%nat y0 (Some w0) "accuracy" 2 t0 None
                                 (Fin 0) true)
                    (take j (columns X0)) [] s0).2 /\
        columns (select_col feat X0) = [feat] /\
        cv_score clf0 (length (heap sj)) y0 (Some w0) "accuracy" None 2 t0
                 (Fin 0) true
                 (mkState (heap sj ++ [select_col feat X0]) (rng sj) (trace sj))
        = (Ok scores, s2) /\
        length scores
        = length (splitter_split (cv_splitter None 2 t0 (Fin 0))
                                 (select_col feat X0)) /\
        imp !! j
        = Some (feat, mkRow (scores_mean scores)
                            (fmul (scores_std scores)
                                  (sqrt_nat (length scores)))).
Proof.
  apply (sfi_report_per_feature clf0 0%nat X0 y0 (Some w0) "accuracy" 2 t0
                                None (Fin 0) true).
  - by_decide.
  - right. reflexivity.
  - by_decide.
  - intros X' HX'. by apply toy_split_in_range.
  - reflexivity.
  - reflexivity.
  - reflexivity.
Defined.

Lemma feat_importance_fits_first_then_returns_witness :
  let sfi := feat_importance 0%nat cont0 None 10 2 (Fin 1) 4 (Fin 0)
                             "accuracy" "SFI" (Fin 0) s0 in
  let mdi := feat_importance 0%nat cont0 None 10 2 (Fin 1) 4 (Fin 0)
                             "accuracy" "MDI" (Fin 0) s0 in
  let fit_clf := full_fit (prototype None 10 (Fin 1) 4 (Fin 0)) X0 cont0 s0 in
  (exists evs, trace sfi.2 = trace s0 ++ EvFit 0%nat :: evs /\
               Forall (event_fresh (length (heap s0))) evs) /\
  sfi.1 = Raise (TypeError "unexpected keyword argument feat_names") /\
  (exists imp oos,
     mdi.1 = Ok (imp, oob_score_ fit_clf, OosScalar oos) /\
     feat_imp_MDI fit_clf (columns X0) = Ok imp).
Proof.
  intros sfi mdi fit_clf.
  assert (Hwf : well_formed_inputs X0 cont0 2 (Fin 0) "accuracy").
  { split_and!; [right; reflexivity | by_decide | by_decide | reflexivity
                 | reflexivity]. }
  destruct (feat_importance_fits_first_then_returns
              0%nat X0 cont0 None 10 2 (Fin 1) 4 (Fin 0) "accuracy" "SFI"
              (Fin 0) s0 sfi.1 sfi.2 eq_refl (surjective_pairing _))
    as ((evs & Ht & Hfr & _) & _ & _ & Hsfi & _).
  destruct (feat_importance_fits_first_then_returns
              0%nat X0 cont0 None 10 2 (Fin 1) 4 (Fin 0) "accuracy" "MDI"
              (Fin 0) s0 mdi.1 mdi.2 eq_refl (surjective_pairing _))
    as (_ & Hret & Htriple & _ & _).
  split_and!.
  - exists evs. split; [exact Ht | exact Hfr].
  - destruct (Hsfi eq_refl ltac:(discriminate)) as (e & He & Herr).
    rewrite He. f_equal. exact (Herr Hwf).
  - destruct Hret as (imp & oos & Hok).
    + left. reflexivity.
    + exact Hwf.
    + intros _. eexists. split; reflexivity.
    + exists imp, oos. split; [exact Hok |].
      destruct (Htriple imp _ _ Hok) as (_ & Hmdi & _).
      exact (proj1 (Hmdi eq_refl)).
Defined.

Lemma feat_importance_SFI_dispatch_fails_witness :
  exists e s',
    feat_importance 0%nat cont0 None 10 2 (Fin 1) 4 (Fin 0) "accuracy" "SFI"
                    (Fin 0) s0 = (Raise e, s') /\
    (("accuracy" : string) = "neg_log_loss" \/ ("accuracy" : string) = "accuracy" ->
     wf_frame X0 ->
     Forall (fold_in_range (df_nrows X0)) (split 2 (cont_t1 cont0) (Fin 0) X0) ->
     length (cont_size cont0) = df_nrows X0 ->
     length (cont_w cont0) = df_nrows X0 ->
     e = TypeError "unexpected keyword argument feat_names").
Proof.
  apply (feat_importance_SFI_dispatch_fails 0%nat X0 cont0 None 10 2 (Fin 1) 4
                                            (Fin 0) "accuracy" (Fin 0) s0).
  - reflexivity.
  - discriminate.
Defined.

(** The SFI branch evaluated on the concrete input: the dispatch raises
    the [TypeError]. *)
Lemma feat_importance_SFI_on_toy_input :
  (feat_importance 0%nat cont0 None 10 2 (Fin 1) 4 (Fin 0) "accuracy" "SFI"
                   (Fin 0) s0).1
  = Raise (TypeError "unexpected keyword argument feat_names").
Proof. vm_compute. reflexivity. Qed.


(** ** The further properties on the concrete input *)

Lemma mdi_unused_feature_is_missing_witness :
  exists report,
    feat_imp_MDI forest_unused ["A"; "B"] = Ok report /\
    report !! 1%nat = Some ("B", mkRow NaN NaN).
Proof.
  apply (mdi_unused_feature_is_missing
           forest_unused ["A"; "B"]
           [ [Fin 1; Fin 0]; [Fin (qc 1 2); Fin 0] ] 1 "B").
  - reflexivity.
  - reflexivity.
  - reflexivity.
  - repeat constructor.
Defined.

Lemma mdi_std_needs_two_trees_witness :
  exists report row,
    feat_imp_MDI forest0 ["A"; "B"; "C"] = Ok report /\
    report !! 1%nat = Some ("B", row) /\
    r_std row = NaN.
Proof.
  apply (mdi_std_needs_two_trees forest0 ["A"; "B"; "C"] trees0 1 "B").
  - reflexivity.
  - reflexivity.
  - reflexivity.
  - by_decide.
Defined.

Lemma mdi_wrong_number_of_names_witness :
  feat_imp_MDI forest0 ["A"; "B"] = Raise ValueError.
Proof.
  apply (mdi_wrong_number_of_names forest0 ["A"; "B"] trees0 3).
  - reflexivity.
  - discriminate.
  - by_decide.
  - simpl. lia.
Defined.

Lemma mdi_means_are_shares_witness :
  exists report,
    feat_imp_MDI forest0 ["A"; "B"; "C"] = Ok report /\
    Forall share_or_nan (report_means report) /\
    Exists pos_fin (report_means report).
Proof.
  apply (mdi_means_are_shares forest0 ["A"; "B"; "C"] trees0).
  - reflexivity.
  - by_decide.
  - by_decide.
  - apply Exists_cons_hd, Exists_cons_hd. reflexivity.
Defined.

Lemma mdi_tree_order_irrelevant_witness :
  feat_imp_MDI forest0 ["A"; "B"; "C"]
  = feat_imp_MDI forest0_swapped ["A"; "B"; "C"].
Proof.
  apply (mdi_tree_order_irrelevant
           forest0 forest0_swapped ["A"; "B"; "C"] trees0
           [ [Fin (qc 1 3); Fin (qc 1 3); Fin (qc 1 3)]; [Fin 1; Fin 0; Fin 0] ]).
  - reflexivity.
  - reflexivity.
  - apply perm_swap.
Defined.

Lemma mda_fold_shuffles_one_feature_per_copy_witness :
  let run := mda_fold clf0 0%nat y0 (Some w0) "accuracy"
                      (empty_series 2, empty_frame 2 (columns X0))
                      (0%nat, ([2; 3]%nat, [0; 1]%nat)) s0 in
  is_ok run.1 /\
  forall scores' sp', run.1 = Ok (scores', sp') ->
  exists X_train X_test y_train y_test w_train w_test,
    iloc [2; 3]%nat X0 = Some X_train /\ take_rows [2; 3]%nat y0 = Some y_train /\
    weights_take [2; 3]%nat (Some w0) = Some w_train /\
    iloc [0; 1]%nat X0 = Some X_test /\ take_rows [0; 1]%nat y0 = Some y_test /\
    weights_take [0; 1]%nat (Some w0) = Some w_test /\
    let fitted := (fit clf0 X_train y_train w_train (rng s0)).1 in
    let g0 := (fit clf0 X_train y_train w_train (rng s0)).2 in
    forall j col g,
      columns X0 !! j = Some col ->
      shuffle_rngs X_test (columns X0) g0 !! j = Some g ->
      exists v,
        col_values col (df_cols X_test) = Some v /\
        let copy := shuffled_copy col (shuffle v g).1 X_test in
        col_values col (df_cols copy) = Some (shuffle v g).1 /\
        only_column_differs col X_test copy /\
        frame_cell sp' col 0
        = Some (score_value "accuracy" fitted copy y_test w_test).
Proof.
  intros run. split; [vm_compute; exact I |].
  apply (mda_fold_shuffles_one_feature_per_copy
           clf0 0%nat X0 y0 (Some w0) "accuracy" (empty_series 2)
           (empty_frame 2 (columns X0)) 0%nat [2; 3]%nat [0; 1]%nat 2%nat s0
           run.1 run.2).
  - reflexivity.
  - by_decide.
  - split; reflexivity.
  - lia.
  - apply surjective_pairing.
Defined.

Lemma mda_fold_fits_train_scores_test_witness :
  let run := mda_fold clf0 0%nat y0 (Some w0) "accuracy"
                      (empty_series 2, empty_frame 2 (columns X0))
                      (0%nat, ([2; 3]%nat, [0; 1]%nat)) s0 in
  is_ok run.1 /\
  forall scores' sp', run.1 = Ok (scores', sp') ->
  exists X_train X_test y_train y_test w_train w_test,
    iloc [2; 3]%nat X0 = Some X_train /\ take_rows [2; 3]%nat y0 = Some y_train /\
    weights_take [2; 3]%nat (Some w0) = Some w_train /\
    iloc [0; 1]%nat X0 = Some X_test /\ take_rows [0; 1]%nat y0 = Some y_test /\
    weights_take [0; 1]%nat (Some w0) = Some w_test /\
    let fitted := (fit clf0 X_train y_train w_train (rng s0)).1 in
    scores' = <[0%nat := score_value "accuracy" fitted X_test y_test w_test]>
                (empty_series 2) /\
    (forall i, i <> 0%nat -> scores' !! i = empty_series 2 !! i) /\
    (forall c i, i <> 0%nat ->
       frame_cell sp' c i = frame_cell (empty_frame 2 (columns X0)) c i).
Proof.
  intros run. split; [vm_compute; exact I |].
  apply (mda_fold_fits_train_scores_test
           clf0 0%nat X0 y0 (Some w0) "accuracy" (empty_series 2)
           (empty_frame 2 (columns X0)) 0%nat [2; 3]%nat [0; 1]%nat s0
           run.1 run.2).
  - reflexivity.
  - apply surjective_pairing.
Defined.

Lemma mda_call_sequence_witness :
  let run := feat_imp_MDA clf0 0%nat y0 2 t0 (Some w0) (Fin 0) "accuracy" s0 in
  exists evs,
    trace run.2 = trace s0 ++ evs /\
    evs = mda_trace "accuracy" 3 1 2 /\
    count_events is_fit evs = 2%nat /\
    count_events is_scoring_call evs = 8%nat /\
    length (heap run.2) = 11%nat.
Proof.
  intros run.
  apply (mda_call_sequence clf0 0%nat X0 y0 2 t0 (Some w0) (Fin 0) "accuracy"
                           s0 run.1 run.2).
  - reflexivity.
  - apply surjective_pairing.
  - vm_compute. exact I.
Defined.

Lemma mda_ratio_special_values_witness :
  exists ratio,
    df_cols (mda_ratio "accuracy" scores1 scores_perm1) !! 0%nat
    = Some ("A", ratio) /\
    ratio !! 1%nat
    = Some (Fin ((1 - qc 1 2) / ratio_denominator "accuracy" (qc 1 2))) /\
    (1 = qc 1 2 -> ratio !! 1%nat = Some (Fin 0)) /\
    (1 = best_score "accuracy" -> ratio !! 1%nat = Some (Fin 1)).
Proof.
  apply (mda_ratio_special_values "accuracy" scores1 scores_perm1 0 "A"
                                  [f 0; Fin (qc 1 2)] 1 1 (qc 1 2)).
  - right. reflexivity.
  - reflexivity.
  - reflexivity.
  - reflexivity.
  - by_decide.
Defined.

Lemma feat_importance_MDA_call_sequence_witness :
  let run := feat_importance 0%nat cont0 (Some clf0) 10 2 (Fin 1) 4 (Fin 0)
                             "accuracy" "MDA" (Fin 0) s0 in
  exists evs,
    trace run.2 = trace s0 ++ evs /\
    evs = EvFit 0%nat :: mda_trace "accuracy" 3 1 2 /\
    count_events is_fit evs = 3%nat /\
    count_events is_scoring_call evs = 8%nat /\
    length (heap run.2) = 11%nat.
Proof.
  intros run.
  apply (feat_importance_MDA_call_sequence
           0%nat X0 cont0 (Some clf0) 10 2 (Fin 1) 4 (Fin 0) "accuracy" (Fin 0)
           s0 run.1 run.2).
  - reflexivity.
  - apply surjective_pairing.
  - vm_compute. exact I.
Defined.

Lemma feat_importance_MDA_checks_scoring_after_fit_witness :
  feat_importance 0%nat cont0 (Some clf0) 10 2 (Fin 1) 4 (Fin 0) "f1" "MDA"
                  (Fin 0) s0
  = (Raise InvalidConfiguration, after_full_fit clf0 0%nat X0 cont0 s0).
Proof.
  apply (feat_importance_MDA_checks_scoring_after_fit
           0%nat X0 cont0 (Some clf0) 10 2 (Fin 1) 4 (Fin 0) "f1" (Fin 0) s0).
  - reflexivity.
  - by_decide.
Defined.

Lemma feat_importance_MDI_error_before_cv_witness :
  feat_importance 0%nat cont0 (Some clf0) 10 2 (Fin 1) 4 (Fin 0) "accuracy"
                  "MDI" (Fin 0) s_empty
  = (Raise ValueError, after_full_fit clf0 0%nat X_empty cont0 s_empty).
Proof.
  apply (feat_importance_MDI_error_before_cv
           0%nat X_empty cont0 (Some clf0) 10 2 (Fin 1) 4 (Fin 0) "accuracy"
           (Fin 0) s_empty ValueError).
  - reflexivity.
  - reflexivity.
Defined.

Lemma feat_imp_SFI_keyword_call_rejected_witness :
  exists msg,
    call_feat_imp_SFI [("clf", PClf clf0); ("X", PFrame 0%nat)] s0
    = (Raise (TypeError msg), s0).
Proof.
  apply (feat_imp_SFI_keyword_call_rejected
           [("clf", PClf clf0); ("X", PFrame 0%nat)] s0).
  right. right. left. reflexivity.
Defined.

Lemma mda_error_kinds_witness :
  let run := feat_imp_MDA clf0 0%nat [1%Z] 2 t0 None (Fin 0) "accuracy" s0 in
  run.1 = Raise IndexError /\
  forall e, run.1 = Raise e ->
  ((("accuracy" : string) ∉ ["neg_log_loss"; "accuracy"]) /\
   e = InvalidConfiguration /\ run.2 = s0) \/
  ((("accuracy" : string) = "neg_log_loss" \/ ("accuracy" : string) = "accuracy") /\
   e = IndexError /\
   ~ (wf_frame X0 /\
      Forall (fold_in_range (df_nrows X0)) (split 2 t0 (Fin 0) X0) /\
      length [1%Z] = df_nrows X0 /\ weights_fit (df_nrows X0) None)).
Proof.
  intros run. split; [vm_compute; reflexivity |].
  apply (mda_error_kinds clf0 0%nat X0 [1%Z] 2 t0 None (Fin 0) "accuracy" s0
                         run.1 run.2).
  - reflexivity.
  - apply surjective_pairing.
Defined.

End Witnesses.
